(** * Quality-control scan workflow: store, state machine, limiter, suppressor

    Shallow embedding of
      - src/sql/quality-control-schema.sql   (table constraints, stored procedures)
      - src/db/quality-control-queries.js    (class QualityControlQueries)
      - src/logic/quality-control-logic.js   (class QualityControlLogic)
      - the main-process file                (class QualityControlMainApp)
      - src/renderer/app.js                  (class QualityControlApp)

    Conventions.
      - Instants (GETDATE(), Date.now(), new Date()) are integers, in
        milliseconds; every operation takes the instant [now] at which it
        runs as an argument.
      - JavaScript strings and NVARCHAR values are [string]s; T-SQL [=] and
        JavaScript [===] on them are both read as exact equality.
      - A store round trip either answers or fails.  The world carries a
        plan, [faults], that says for each coming round trip whether the
        connection fails there; an empty plan means no failure.
      - Human-readable messages of outcome objects and the JSON payload
        of audit rows are left out. *)

From stdpp Require Import gmap strings list.
From Stdlib Require Import ZArith Lia Ascii.
From Stdlib Require DecimalString DecimalZ.

Local Open Scope string_scope.
Local Open Scope Z_scope.
Local Open Scope list_scope.

(** ** The inspection record store (dbo.QualityControlSteps and friends) *)

Module Store.

(** QCStatus NVARCHAR(20), constrained by CK_QualityControlSteps_Status. *)
Inductive status : Set := active | completed | aborted.

Definition status_eqb (a b : status) : bool :=
  match a, b with
  | active, active | completed, completed | aborted, aborted => true
  | _, _ => false
  end.

(** One row of dbo.QualityControlSteps.  The columns that no statement of
    the application reads or writes (CreatedTS, EstimatedDurationMinutes,
    ProcessingLocation, BatchNumber, the computed ActualDurationSeconds)
    are not represented. *)
Record QCStep : Set := mkStep {
  ID : Z;
  SessionID : Z;
  QrCode : string;
  StartScanID : option Z;
  EndScanID : option Z;
  StartTime : Z;
  EndTime : option Z;
  Completed : bool;
  UpdatedTS : Z;
  QCStatus : status;
  Priority : Z;
  QualityRating : option Z;
  QualityNotes : option string;
  DefectsFound : bool;
  DefectDescription : option string;
  ReworkRequired : bool
}.

(** ActionType of dbo.QualityControlAudit, as far as the procedures write it. *)
Inductive action : Set := created | completed_action | aborted_action.

Record AuditRow : Set := mkAudit { QCStepID : Z; ActionType : action }.

(** One row of dbo.Sessions, as read by validateSession. *)
Record Session : Set := mkSession {
  s_ID : Z;
  s_UserID : Z;
  s_Active : bool;
  s_StartTS : Z;
  s_SessionTypeName : option string
}.

Record DB : Set := mkDB {
  steps : list QCStep;          (* dbo.QualityControlSteps, in insertion order *)
  audit : list AuditRow;        (* dbo.QualityControlAudit *)
  sessions : list Session;      (* dbo.Sessions *)
  scans : list Z;               (* primary keys of dbo.QrScans *)
  routines : list string;       (* INFORMATION_SCHEMA.ROUTINES, procedures *)
  update_trigger : bool;        (* tr_QualityControlSteps_Update is installed *)
  identity : Z                  (* next IDENTITY value of QualityControlSteps *)
}.

(** A statement or batch either commits with a result or raises; a raise
    rolls back, so the database is the one before. *)
Inductive sql (A : Type) : Type :=
| Done (a : A) (db' : DB)
| Raise (msg : string).
Arguments Done {A} a db'.
Arguments Raise {A} msg.

Definition is_some {A} (o : option A) : bool :=
  match o with Some _ => true | None => false end.

Definition is_null {A} (o : option A) : bool := negb (is_some o).

(** *** Table constraints (CREATE TABLE dbo.QualityControlSteps) *)

(** CHECK (EndTime IS NULL OR EndTime >= StartTime) *)
Definition CK_Times (r : QCStep) : bool :=
  match EndTime r with None => true | Some e => StartTime r <=? e end.

(** CHECK ((Completed = 0 AND EndTime IS NULL AND EndScanID IS NULL) OR
           (Completed = 1 AND EndTime IS NOT NULL AND EndScanID IS NOT NULL)) *)
Definition CK_Completed (r : QCStep) : bool :=
  (negb (Completed r) && is_null (EndTime r) && is_null (EndScanID r))
  || (Completed r && is_some (EndTime r) && is_some (EndScanID r)).

(** CHECK (Priority BETWEEN 1 AND 3) *)
Definition CK_Priority (r : QCStep) : bool :=
  (1 <=? Priority r) && (Priority r <=? 3).

(** CHECK (QualityRating IS NULL OR QualityRating BETWEEN 1 AND 5) *)
Definition CK_QualityRating (r : QCStep) : bool :=
  match QualityRating r with None => true | Some q => (1 <=? q) && (q <=? 5) end.

(** CHECK ((DefectsFound = 0 AND DefectDescription IS NULL) OR
           (DefectsFound = 1 AND DefectDescription IS NOT NULL)) *)
Definition CK_DefectLogic (r : QCStep) : bool :=
  (negb (DefectsFound r) && is_null (DefectDescription r))
  || (DefectsFound r && is_some (DefectDescription r)).

Definition fits (n : nat) (s : string) : bool := (String.length s <=? n)%nat.

Definition fits_opt (n : nat) (o : option string) : bool :=
  match o with None => true | Some s => fits n s end.

(** Column sizes: QrCode NVARCHAR(500), QualityNotes NVARCHAR(1000),
    DefectDescription NVARCHAR(500). *)
Definition column_sizes (r : QCStep) : bool :=
  fits 500 (QrCode r) && fits_opt 1000 (QualityNotes r)
  && fits_opt 500 (DefectDescription r).

Definition references (keys : list Z) (o : option Z) : bool :=
  match o with None => true | Some k => existsb (Z.eqb k) keys end.

(** FK_QualityControlSteps_Sessions, _StartScan, _EndScan *)
Definition foreign_keys (db : DB) (r : QCStep) : bool :=
  existsb (fun s => s_ID s =? SessionID r) (sessions db)
  && references (scans db) (StartScanID r)
  && references (scans db) (EndScanID r).

Definition checks (r : QCStep) : bool :=
  CK_Times r && CK_Completed r && CK_Priority r && CK_QualityRating r
  && CK_DefectLogic r && column_sizes r.

(** What INSERT and UPDATE verify for a row image. *)
Definition row_ok (db : DB) (r : QCStep) : bool := checks r && foreign_keys db r.

(** *** Statement building blocks *)

Definition with_steps (db : DB) (l : list QCStep) : DB :=
  mkDB l (audit db) (sessions db) (scans db) (routines db) (update_trigger db)
       (identity db).

Definition with_audit (db : DB) (a : list AuditRow) : DB :=
  mkDB (steps db) a (sessions db) (scans db) (routines db) (update_trigger db)
       (identity db).

(** INSERT INTO QualityControlSteps: the row gets the next identity value. *)
Definition insert_step (db : DB) (r : QCStep) : sql QCStep :=
  if row_ok db r
  then Done r (mkDB (steps db ++ [r]) (audit db) (sessions db) (scans db)
                    (routines db) (update_trigger db) (identity db + 1))
  else Raise "constraint violation".

(** UPDATE QualityControlSteps SET ... WHERE p: every row image is
    verified; one violation fails the whole statement.  The result is
    the number of rows affected.  (The server verifies the constraints
    over the assigned columns; on rows that satisfied their constraints
    before, that is the same as verifying the whole image.) *)
Definition update_where (p : QCStep -> bool) (f : QCStep -> QCStep) (db : DB) : sql nat :=
  if forallb (fun r => if p r then row_ok db (f r) else true) (steps db)
  then Done (length (List.filter p (steps db)))
            (with_steps db (map (fun r => if p r then f r else r) (steps db)))
  else Raise "constraint violation".

(** SELECT TOP 1 ... ORDER BY StartTime DESC.  Among rows of equal
    StartTime the choice of the server is not specified; here it is the
    row inserted last. *)
Definition top1_latest (l : list QCStep) : option QCStep :=
  fold_left (fun best r =>
               match best with
               | None => Some r
               | Some b => if StartTime b <=? StartTime r then Some r else Some b
               end) l None.

(** CAST(t AS DATE): the day a millisecond instant falls on. *)
Definition date_of (t : Z) : Z := t / 86400000.

(** Assigning to an NVARCHAR(n) parameter keeps the first n characters. *)
Definition nvarchar (n : nat) (s : string) : string := String.substring 0 n s.

Definition for_code (S : Z) (C : string) (r : QCStep) : bool :=
  (SessionID r =? S) && String.eqb (QrCode r) C.

(** QCStatus = 'active' *)
Definition is_active (r : QCStep) : bool := status_eqb (QCStatus r) active.

(** The row an INSERT builds: the named columns, the declared defaults
    (QCStatus 'active', Completed 0, DefectsFound 0, ReworkRequired 0,
    UpdatedTS GETDATE()) and NULL elsewhere. *)
Definition new_step (db : DB) (S : Z) (C : string) (scan prio now : Z) : QCStep :=
  mkStep (identity db) S C (Some scan) None now None false now active prio
         None None false None false.

(** *** Stored procedures (quality-control-schema.sql) *)

(** CREATE PROCEDURE dbo.sp_StartQCStep.  RAISERROR inside TRY enters
    CATCH, which rolls back and rethrows. The result set is the new row. *)
Definition sp_StartQCStep (S : Z) (QrCode : string) (StartScanID Priority now : Z)
    (db : DB) : sql (list QCStep) :=
  let C := nvarchar 500 QrCode in
  if existsb (fun r => for_code S C r && is_active r) (steps db)
  then Raise "QC step for this code is already active in this session"
  else match insert_step db (new_step db S C StartScanID Priority now) with
       | Raise m => Raise m
       | Done r db1 =>
           Done [r] (with_audit db1 (audit db1 ++ [mkAudit (ID r) created]))
       end.

(** The SET list of the UPDATE in sp_CompleteQCStep. *)
Definition complete_image (EndScan : Z) (rating : option Z) (defects : bool)
    (desc notes : option string) (now : Z) (r : QCStep) : QCStep :=
  mkStep (ID r) (SessionID r) (QrCode r) (StartScanID r) (Some EndScan)
         (StartTime r) (Some now) true now completed (Priority r)
         rating notes defects desc defects.

(** CREATE PROCEDURE dbo.sp_CompleteQCStep. *)
Definition sp_CompleteQCStep (S : Z) (QrCode : string) (EndScan : Z)
    (rating : option Z) (defects : bool) (desc notes : option string)
    (now : Z) (db : DB) : sql (list QCStep) :=
  let C := nvarchar 500 QrCode in
  match top1_latest (List.filter (fun r => for_code S C r && is_active r) (steps db)) with
  | None => Raise "no active QC step for this code in this session"
  | Some r0 =>
      match update_where (fun r => ID r =? ID r0)
              (complete_image EndScan rating defects
                 (option_map (nvarchar 500) desc) (option_map (nvarchar 1000) notes) now) db with
      | Raise m => Raise m
      | Done _ db1 =>
          Done (List.filter (fun r => ID r =? ID r0) (steps db1))
               (with_audit db1 (audit db1 ++ [mkAudit (ID r0) completed_action]))
      end
  end.

(** COALESCE(QualityNotes + ' | ', '') + @AbortReason *)
Definition append_note (notes : option string) (reason : string) : string :=
  match notes with
  | Some n => n +:+ " | " +:+ reason
  | None => reason
  end.

(** The SET list of the UPDATE in sp_AbortActiveQCSteps: QCStatus,
    EndTime, QualityNotes and UpdatedTS; Completed and EndScanID are not
    assigned. *)
Definition abort_image (reason : string) (now : Z) (r : QCStep) : QCStep :=
  mkStep (ID r) (SessionID r) (QrCode r) (StartScanID r) (EndScanID r)
         (StartTime r) (Some now) (Completed r) now aborted (Priority r)
         (QualityRating r) (Some (append_note (QualityNotes r) reason))
         (DefectsFound r) (DefectDescription r) (ReworkRequired r).

(** CREATE PROCEDURE dbo.sp_AbortActiveQCSteps.  The result set is the
    single row (AbortedStepsCount). *)
Definition sp_AbortActiveQCSteps (S : Z) (AbortReason : string) (now : Z)
    (db : DB) : sql (list nat) :=
  let reason := nvarchar 500 AbortReason in
  match update_where (fun r => (SessionID r =? S) && is_active r)
          (abort_image reason now) db with
  | Raise m => Raise m
  | Done n db1 =>
      let logged :=
        if (0 <? n)%nat
        then map (fun r => mkAudit (ID r) aborted_action)
                 (List.filter (fun r => (SessionID r =? S)
                                        && status_eqb (QCStatus r) aborted
                                        && (now - 5000 <=? UpdatedTS r)) (steps db1))
        else [] in
      Done [n] (with_audit db1 (audit db1 ++ logged))
  end.

(** *** Statements sent directly by QualityControlQueries *)

(** INSERT ... (SessionID, QrCode, StartScanID, StartTime, Completed)
    OUTPUT INSERTED.* VALUES (?, ?, ?, GETDATE(), 0) *)
Definition INSERT_step (S : Z) (C : string) (scan now : Z) (db : DB) : sql (list QCStep) :=
  match insert_step db (new_step db S C scan 1 now) with
  | Raise m => Raise m
  | Done r db1 => Done [r] db1
  end.

(** SELECT TOP 1 ID, StartTime ... WHERE SessionID = ? AND QrCode = ?
    AND Completed = 0 ORDER BY StartTime DESC *)
Definition SELECT_open_step (S : Z) (C : string) (db : DB) : sql (list QCStep) :=
  Done (option_list (top1_latest
          (List.filter (fun r => for_code S C r && negb (Completed r)) (steps db)))) db.

(** The SET list of the UPDATE in completeQCStep: QCStatus is not assigned. *)
Definition complete_image_plain (EndScan now : Z) (r : QCStep) : QCStep :=
  mkStep (ID r) (SessionID r) (QrCode r) (StartScanID r) (Some EndScan)
         (StartTime r) (Some now) true now (QCStatus r) (Priority r)
         (QualityRating r) (QualityNotes r) (DefectsFound r)
         (DefectDescription r) (ReworkRequired r).

(** UPDATE ... SET EndScanID = ?, EndTime = GETDATE(), Completed = 1,
    UpdatedTS = GETDATE() OUTPUT INSERTED.* WHERE ID = ?
    The server refuses an OUTPUT clause without INTO on a table that has
    an enabled trigger for the same action, here the AFTER UPDATE trigger
    tr_QualityControlSteps_Update of quality-control-schema.sql. *)
Definition UPDATE_complete (EndScan stepId now : Z) (db : DB) : sql (list QCStep) :=
  if update_trigger db
  then Raise "OUTPUT clause without INTO on a table with an enabled trigger"
  else
    match update_where (fun r => ID r =? stepId) (complete_image_plain EndScan now) db with
    | Raise m => Raise m
    | Done _ db1 => Done (List.filter (fun r => ID r =? stepId) (steps db1)) db1
    end.

(** The SET list of the UPDATE in abortActiveStepsForSession of
    QualityControlQueries: EndTime, Completed and UpdatedTS. *)
Definition abort_image_plain (now : Z) (r : QCStep) : QCStep :=
  mkStep (ID r) (SessionID r) (QrCode r) (StartScanID r) (EndScanID r)
         (StartTime r) (Some now) true now (QCStatus r) (Priority r)
         (QualityRating r) (QualityNotes r) (DefectsFound r)
         (DefectDescription r) (ReworkRequired r).

(** UPDATE ... SET EndTime = GETDATE(), Completed = 1, UpdatedTS = GETDATE()
    WHERE SessionID = ? AND Completed = 0; the result is rowsAffected[0]. *)
Definition UPDATE_abort (S now : Z) (db : DB) : sql nat :=
  update_where (fun r => (SessionID r =? S) && negb (Completed r))
               (abort_image_plain now) db.

(** UPDATE QualityControlSteps SET QCStatus = 'aborted', EndTime = GETDATE(),
    QualityNotes = COALESCE(QualityNotes + ' | ', '') + ?, UpdatedTS = GETDATE()
    WHERE ID = ? AND QCStatus = 'active'; the result is rowsAffected[0]. *)
Definition UPDATE_abort_one (stepId : Z) (reason : string) (now : Z) (db : DB) : sql nat :=
  update_where (fun r => (ID r =? stepId) && is_active r) (abort_image reason now) db.

(** INSERT INTO QualityControlAudit (QCStepID, ActionType, NewValues);
    FK_QualityControlAudit_QCStep wants the step to exist. *)
Definition INSERT_audit (stepId : Z) (a : action) (db : DB) : sql unit :=
  if existsb (fun r => ID r =? stepId) (steps db)
  then Done tt (with_audit db (audit db ++ [mkAudit stepId a]))
  else Raise "constraint violation".

(** DELETE FROM dbo.QualityControlSteps
    WHERE StartTime < DATEADD(DAY, -?, CAST(GETDATE() AS DATE)) AND Completed = 1;
    the audit rows of a deleted step go with it (ON DELETE CASCADE). *)
Definition DELETE_old (retentionDays now : Z) (db : DB) : sql nat :=
  let old r := (StartTime r <? (date_of now - retentionDays) * 86400000) && Completed r in
  Done (length (List.filter old (steps db)))
       (mkDB (List.filter (fun r => negb (old r)) (steps db))
             (List.filter (fun a => negb (existsb (fun r => old r && (ID r =? QCStepID a))
                                                  (steps db))) (audit db))
             (sessions db) (scans db) (routines db) (update_trigger db) (identity db)).

(** SELECT qcs.* ... WHERE qcs.SessionID = ? AND qcs.Completed = 0.
    The callers use the length and the IDs of the result, not its order,
    so ORDER BY is not applied. *)
Definition SELECT_open_steps (S : Z) (db : DB) : sql (list QCStep) :=
  Done (List.filter (fun r => (SessionID r =? S) && negb (Completed r)) (steps db)) db.

(** SELECT qcs.* ... WHERE qcs.SessionID = ? AND qcs.Completed = 1
    AND CAST(qcs.StartTime AS DATE) = CAST(GETDATE() AS DATE) *)
Definition SELECT_completed_today (S now : Z) (db : DB) : sql (list QCStep) :=
  Done (List.filter (fun r => (SessionID r =? S) && Completed r
                              && (date_of (StartTime r) =? date_of now)) (steps db)) db.

(** SELECT TOP 1 * ... WHERE SessionID = ? AND QrCode = ? ORDER BY StartTime DESC *)
Definition SELECT_latest (S : Z) (C : string) (db : DB) : sql (list QCStep) :=
  Done (option_list (top1_latest (List.filter (for_code S C) (steps db)))) db.

(** SELECT COUNT( * ) as ProcedureCount FROM INFORMATION_SCHEMA.ROUTINES
    WHERE ROUTINE_TYPE = 'PROCEDURE' AND ROUTINE_NAME = ? *)
Definition SELECT_procedure_count (name : string) (db : DB) : sql nat :=
  Done (length (List.filter (String.eqb name) (routines db))) db.

(** UPDATE Sessions SET StartTS = GETDATE()
    WHERE ID = ? AND UserID = ? AND Active = 1 *)
Definition UPDATE_session_start (S U now : Z) (db : DB) : sql nat :=
  let p s := (s_ID s =? S) && (s_UserID s =? U) && s_Active s in
  Done (length (List.filter p (sessions db)))
       (mkDB (steps db) (audit db)
             (map (fun s => if p s
                            then mkSession (s_ID s) (s_UserID s) (s_Active s) now
                                           (s_SessionTypeName s)
                            else s) (sessions db))
             (scans db) (routines db) (update_trigger db) (identity db)).

(** *** Reporting: aggregates and the status function *)

(** DATEDIFF(SECOND, a, b): the second boundaries crossed from a to b.
    (The INT range of its result is not represented.) *)
Definition DATEDIFF_SECOND (a b : Z) : Z := b / 1000 - a / 1000.

(** The computed column ActualDurationSeconds: DATEDIFF(SECOND, StartTime,
    EndTime) when EndTime is set, else DATEDIFF(SECOND, StartTime, GETDATE()). *)
Definition ActualDurationSeconds (now : Z) (r : QCStep) : Z :=
  DATEDIFF_SECOND (StartTime r) (default now (EndTime r)).

(** The CASE of dbo.fn_GetQCStepStatus. *)
Definition step_status (now : Z) (r : QCStep) : string :=
  match QCStatus r with
  | completed => "completed"
  | aborted => "aborted"
  | active =>
      if 3600 <? ActualDurationSeconds now r then "overdue"
      else if 1800 <? ActualDurationSeconds now r then "delayed"
      else "active"
  end.

(** CREATE FUNCTION dbo.fn_GetQCStepStatus(@QCStepID INT).  SELECT @Status =
    ... WHERE ID = @QCStepID assigns once per selected row, so the
    variable ends with the value of the last one, or stays NULL when no
    row is selected; ISNULL then gives 'unknown'. *)
Definition fn_GetQCStepStatus (QCStepID now : Z) (db : DB) : string :=
  default "unknown"
    (last (map (step_status now) (List.filter (fun r => ID r =? QCStepID) (steps db)))).

(** SUM(CASE WHEN p THEN 1 ELSE 0 END): NULL over no rows. *)
Definition SUM_CASE (p : QCStep -> bool) (rows : list QCStep) : option nat :=
  match rows with
  | [] => None
  | _ => Some (length (List.filter p rows))
  end.

(** AVG over INT values, the NULLs left out: the sum divided by the
    count, truncated; NULL when no value is left. *)
Definition AVG (xs : list Z) : option Z :=
  match xs with
  | [] => None
  | _ => Some (Z.quot (fold_right Z.add 0 xs) (Z.of_nat (length xs)))
  end.

Definition MIN (xs : list Z) : option Z :=
  match xs with
  | [] => None
  | x :: rest => Some (fold_right Z.min x rest)
  end.

Definition MAX (xs : list Z) : option Z :=
  match xs with
  | [] => None
  | x :: rest => Some (fold_right Z.max x rest)
  end.

(** CASE WHEN Completed = 1 THEN DATEDIFF(SECOND, StartTime, EndTime)
    ELSE NULL END *)
Definition completed_duration (r : QCStep) : option Z :=
  if Completed r then option_map (DATEDIFF_SECOND (StartTime r)) (EndTime r) else None.

(** The one row of the statistics query. *)
Record StatsRow : Set := mkStatsRow {
  TotalSteps : nat;
  CompletedSteps : option nat;
  ActiveSteps : option nat;
  AvgDurationSeconds : option Z;
  FirstStepTime : option Z;
  LastStepTime : option Z
}.

(** SELECT COUNT( * ) AS TotalSteps,
           SUM(CASE WHEN Completed = 1 THEN 1 ELSE 0 END) AS CompletedSteps,
           SUM(CASE WHEN Completed = 0 THEN 1 ELSE 0 END) AS ActiveSteps,
           AVG(CASE WHEN Completed = 1 THEN DATEDIFF(SECOND, StartTime, EndTime)
                    ELSE NULL END) AS AvgDurationSeconds,
           MIN(StartTime) AS FirstStepTime,
           MAX(ISNULL(EndTime, StartTime)) AS LastStepTime
    FROM dbo.QualityControlSteps WHERE SessionID = ?
    An aggregate query without GROUP BY answers exactly one row. *)
Definition SELECT_stats (S : Z) (db : DB) : sql (list StatsRow) :=
  let rows := List.filter (fun r => SessionID r =? S) (steps db) in
  Done [mkStatsRow (length rows)
                   (SUM_CASE Completed rows)
                   (SUM_CASE (fun r => negb (Completed r)) rows)
                   (AVG (omap completed_duration rows))
                   (MIN (map StartTime rows))
                   (MAX (map (fun r => default (StartTime r) (EndTime r)) rows))] db.

(** SELECT COUNT( * ) AS ActiveCount FROM dbo.QualityControlSteps
    WHERE SessionID = ? AND QrCode = ? AND Completed = 0 *)
Definition SELECT_active_count (S : Z) (C : string) (db : DB) : sql (list nat) :=
  Done [length (List.filter (fun r => for_code S C r && negb (Completed r)) (steps db))] db.

End Store.

(** ** The JavaScript side: promises that resolve or reject, over a world *)

(** What an awaited call yields: a value, or a thrown Error with its message. *)
Inductive result (A : Type) : Type :=
| Ok (a : A)
| Throw (msg : string).
Arguments Ok {A} a.
Arguments Throw {A} msg.

Inductive scan_type : Set := unknown | entrance | exit.

(** An entry of scanStateCache. *)
Record ScanState : Set := mkScanState {
  expectedScan : scan_type;
  currentQRCode : option string;
  lastScanTime : Z;
  lastUpdated : Z
}.

(** The database behind dbClient, the plan of connection failures, and the
    two in-memory maps of a QualityControlLogic instance. *)
Record World : Type := mkWorld {
  db : Store.DB;
  faults : list bool;
  activeStepsCache : gmap Z (gset Z);
  scanStateCache : gmap Z ScanState
}.

Definition M (A : Type) : Type := World -> result A * World.

Definition ret {A} (a : A) : M A := fun w => (Ok a, w).

Definition bind {A B} (m : M A) (k : A -> M B) : M B :=
  fun w => match m w with
           | (Ok a, w') => k a w'
           | (Throw e, w') => (Throw e, w')
           end.

Definition throw {A} (msg : string) : M A := fun w => (Throw msg, w).

(** try { m } catch (error) { h error.message } *)
Definition catch {A} (m : M A) (h : string -> M A) : M A :=
  fun w => match m w with
           | (Ok a, w') => (Ok a, w')
           | (Throw e, w') => h e w'
           end.

Notation "x <- c ;; k" := (bind c (fun x => k))
  (at level 100, c at next level, right associativity).
Notation "c ;;; k" := (bind c (fun _ => k))
  (at level 100, right associativity).

Definition with_db (w : World) (d : Store.DB) : World :=
  mkWorld d (faults w) (activeStepsCache w) (scanStateCache w).

Definition with_faults (w : World) (f : list bool) : World :=
  mkWorld (db w) f (activeStepsCache w) (scanStateCache w).

(** Modelled from the spec: the database client (dbClient) is not part of
    the sources.  Its [query] sends one statement or batch: the round trip
    fails when the plan says so (connectivity loss), otherwise the server
    runs the batch, and a raised error rejects the promise. *)
Definition dbClient_query {A} (stmt : Store.DB -> Store.sql A) : M A :=
  fun w =>
    match faults w with
    | true :: rest => (Throw "connection failed", with_faults w rest)
    | _ =>
        let w0 := with_faults w (tail (faults w)) in
        match stmt (db w0) with
        | Store.Done a d => (Ok a, with_db w0 d)
        | Store.Raise m => (Throw m, w0)
        end
    end.

(** Modelled from the spec: dbClient.getSessionWithType is not part of the
    sources; it answers the Sessions row of that ID, or null. *)
Definition dbClient_getSessionWithType (S : Z) : M (option Store.Session) :=
  dbClient_query (fun d =>
    Store.Done (List.find (fun s => Store.s_ID s =? S) (Store.sessions d)) d).

(** ** class QualityControlQueries (src/db/quality-control-queries.js) *)

Module Queries.
Import Store.

(** startQCStep(sessionId, qrCode, startScanId): its catch logs and rethrows. *)
Definition startQCStep (S : Z) (C : string) (scan now : Z) : M (option QCStep) :=
  rs <- dbClient_query (INSERT_step S C scan now) ;;
  ret (head rs).

(** completeQCStep(sessionId, qrCode, endScanId) *)
Definition completeQCStep (S : Z) (C : string) (scan now : Z) : M (option QCStep) :=
  found <- dbClient_query (SELECT_open_step S C) ;;
  match found with
  | [] => ret None
  | r :: _ =>
      rs <- dbClient_query (UPDATE_complete scan (ID r) now) ;;
      ret (head rs)
  end.

(** abortActiveStepsForSession(sessionId): no reason parameter. *)
Definition abortActiveStepsForSession (S now : Z) : M nat :=
  dbClient_query (UPDATE_abort S now).

(** getActiveQCStepsForSession(sessionId): a failure yields []. *)
Definition getActiveQCStepsForSession (S : Z) : M (list QCStep) :=
  catch (dbClient_query (SELECT_open_steps S)) (fun _ => ret []).

(** getCompletedQCStepsToday(sessionId): a failure yields []. *)
Definition getCompletedQCStepsToday (S now : Z) : M (list QCStep) :=
  catch (dbClient_query (SELECT_completed_today S now)) (fun _ => ret []).

(** cleanupOldQCSteps(retentionDays = 90): a failure yields 0. *)
Definition cleanupOldQCSteps (retentionDays now : Z) : M nat :=
  catch (dbClient_query (DELETE_old retentionDays now)) (fun _ => ret 0%nat).

(** getLatestQCStepForQRCode(sessionId, qrCode): a failure yields null. *)
Definition getLatestQCStepForQRCode (S : Z) (C : string) : M (option QCStep) :=
  catch (rs <- dbClient_query (SELECT_latest S C) ;; ret (head rs))
        (fun _ => ret None).

(** hasActiveStepForQRCode(sessionId, qrCode): a failure yields false. *)
Definition hasActiveStepForQRCode (S : Z) (C : string) : M bool :=
  catch (rs <- dbClient_query (SELECT_active_count S C) ;;
         ret (match rs with
              | ActiveCount :: _ => (0 <? ActiveCount)%nat
              | [] => false
              end))
        (fun _ => ret false).

(** The object getQCStatsForSession returns when the record set is empty. *)
Definition no_stats : StatsRow := mkStatsRow 0 (Some 0%nat) (Some 0%nat) None None None.

(** getQCStatsForSession(sessionId): the first row of the record set; a
    failure yields the empty object, here None. *)
Definition getQCStatsForSession (S : Z) : M (option StatsRow) :=
  catch (rs <- dbClient_query (SELECT_stats S) ;;
         ret (Some (match rs with
                    | row :: _ => row
                    | [] => no_stats
                    end)))
        (fun _ => ret None).

End Queries.

(** ** class QualityControlLogic (src/logic/quality-control-logic.js) *)

Module Logic.
Import Store.

(** this.config, as far as the scan workflow reads it. *)
Record Config : Set := mkConfig {
  maxParallelStepsPerSession : Z;
  stepTimeoutMinutes : Z;
  enableAuditLog : bool;
  defaultPriority : Z
}.

(** parseInt(process.env.X) || d: an unset or non-numeric variable gives
    NaN, and NaN and 0 are both falsy. *)
Definition or_default (env : option Z) (d : Z) : Z :=
  match env with
  | Some n => if n =? 0 then d else n
  | None => d
  end.

(** process.env.QC_ENABLE_AUDIT_LOG !== 'false' holds unless the variable
    is set to that very text; here the variable is taken as unset. *)
Definition config_of_env (maxSteps timeout prio : option Z) : Config :=
  mkConfig (or_default maxSteps 10) (or_default timeout 120) true (or_default prio 1).

Definition default_config : Config := config_of_env None None None.

Inductive outcome_type : Set :=
| error | limit_exceeded | already_completed | entrance_started
| entrance_error | qr_mismatch | exit_completed | exit_error.

(** The object processQRScan resolves to, without its message. *)
Record Outcome : Set := mkOutcome {
  success : bool;
  type : outcome_type;
  qcStep : option QCStep;
  scanType : scan_type;
  activeStepsCount : option nat;
  expectedQRCode : option string;
  actualQRCode : option string;
  durationSeconds : option Z;
  nextExpectedScan : option scan_type
}.

Definition failure (t : outcome_type) (st : option QCStep) (k : scan_type) : Outcome :=
  mkOutcome false t st k None None None None None.

Inductive cache_action : Set := add | remove.

Section WithConfig.
Variable config : Config.

(** hasStoredProcedure(procedureName): any failure counts as absent. *)
Definition hasStoredProcedure (name : string) : M bool :=
  catch (n <- dbClient_query (SELECT_procedure_count name) ;; ret (0 <? n)%nat)
        (fun _ => ret false).

(** updateActiveStepsCache(sessionId, stepId, action) *)
Definition updateActiveStepsCache (S stepId : Z) (a : cache_action) : M unit :=
  fun w =>
    let old := default ∅ (activeStepsCache w !! S) in
    let new := match a with
               | add => {[stepId]} ∪ old
               | remove => old ∖ {[stepId]}
               end in
    (Ok tt, mkWorld (db w) (faults w) (<[S := new]> (activeStepsCache w)) (scanStateCache w)).

(** updateScanStateCache(sessionId, scanState) *)
Definition updateScanStateCache (S : Z) (st : ScanState) : M unit :=
  fun w => (Ok tt, mkWorld (db w) (faults w) (activeStepsCache w)
                           (<[S := st]> (scanStateCache w))).

(** clearSessionFromCache(sessionId) *)
Definition clearSessionFromCache (S : Z) : M unit :=
  fun w => (Ok tt, mkWorld (db w) (faults w) (delete S (activeStepsCache w))
                           (delete S (scanStateCache w))).

(** getActiveQCStepsForSession(sessionId): a failure yields []. *)
Definition getActiveQCStepsForSession (S : Z) : M (list QCStep) :=
  catch (Queries.getActiveQCStepsForSession S) (fun _ => ret []).

(** getActiveStepsCount(sessionId): the cached set if the session has
    one, else the store, whose answer is then cached. *)
Definition getActiveStepsCount (S : Z) : M nat :=
  catch
    (fun w =>
       match activeStepsCache w !! S with
       | Some ids => (Ok (size ids), w)
       | None =>
           (activeSteps <- getActiveQCStepsForSession S ;;
            fun w' =>
              (Ok (length activeSteps),
               mkWorld (db w') (faults w')
                       (<[S := list_to_set (map ID activeSteps)]> (activeStepsCache w'))
                       (scanStateCache w'))) w
       end)
    (fun _ => ret 0%nat).

(** a || b on numbers: 0 is falsy. *)
Definition js_or (a : option Z) (b : Z) : Z :=
  match a with
  | Some n => if n =? 0 then b else n
  | None => b
  end.

(** startQCStep(sessionId, qrCode, startScanId, options): the stored
    procedure if it is installed, else QualityControlQueries. *)
Definition startQCStep (S : Z) (C : string) (scan : Z) (priority : option Z)
    (now : Z) : M (option QCStep) :=
  let prio := js_or priority (defaultPriority config) in
  sp <- hasStoredProcedure "sp_StartQCStep" ;;
  if (sp : bool)
  then rs <- dbClient_query (sp_StartQCStep S C scan prio now) ;; ret (head rs)
  else Queries.startQCStep S C scan now.

(** completeQCStep(sessionId, qrCode, endScanId, qualityData = {}) *)
Definition completeQCStep (S : Z) (C : string) (scan now : Z) : M (option QCStep) :=
  sp <- hasStoredProcedure "sp_CompleteQCStep" ;;
  if (sp : bool)
  then rs <- dbClient_query (sp_CompleteQCStep S C scan None false None None now) ;;
       ret (head rs)
  else Queries.completeQCStep S C scan now.

(** abortActiveStepsForSession(sessionId, reason = 'Session beendet'):
    the fallback call passes the session only. *)
Definition abortActiveStepsForSession (S : Z) (reason : string) (now : Z) : M nat :=
  sp <- hasStoredProcedure "sp_AbortActiveQCSteps" ;;
  abortedCount <-
    (if (sp : bool)
     then rs <- dbClient_query (sp_AbortActiveQCSteps S reason now) ;;
          ret (default 0%nat (head rs))
     else Queries.abortActiveStepsForSession S now) ;;
  clearSessionFromCache S ;;;
  ret abortedCount.

(** removeStepFromCache(stepId): the step leaves every cached set, and a
    set that is empty afterwards leaves the cache. *)
Definition removeStepFromCache (stepId : Z) : M unit :=
  fun w => (Ok tt,
            mkWorld (db w) (faults w)
                    (filter (fun kv => kv.2 ≠ ∅)
                            ((fun ids : gset Z => ids ∖ {[stepId]}) <$> activeStepsCache w))
                    (scanStateCache w)).

(** logAuditEvent(qcStepId, actionType, data): a failure is logged only. *)
Definition logAuditEvent (stepId : Z) (a : action) : M unit :=
  if enableAuditLog config
  then catch (dbClient_query (INSERT_audit stepId a)) (fun _ => ret tt)
  else ret tt.

(** abortQCStep(qcStepId, reason = 'Manuell abgebrochen'): its catch logs
    and rethrows. *)
Definition abortQCStep (stepId : Z) (reason : string) (now : Z) : M bool :=
  n <- dbClient_query (UPDATE_abort_one stepId reason now) ;;
  if (0 <? n)%nat
  then removeStepFromCache stepId ;;;
       logAuditEvent stepId aborted_action ;;;
       ret true
  else ret false.

(** What validateSession resolves to. *)
Record Validation : Set := mkValidation { isValid : bool; session : option Session }.

(** validateSession(sessionId) *)
Definition validateSession (S : Z) : M Validation :=
  catch
    (s <- dbClient_getSessionWithType S ;;
     match s with
     | None => ret (mkValidation false None)
     | Some row =>
         if s_Active row then ret (mkValidation true (Some row))
         else ret (mkValidation false (Some row))
     end)
    (fun _ => ret (mkValidation false None)).

(** calculateStepDurationSeconds(startTime, endTime) *)
Definition calculateStepDurationSeconds (startTime : Z) (endTime : option Z) (now : Z) : Z :=
  (default now endTime - startTime) / 1000.

(** calculateStepDurationMinutes(startTime) *)
Definition calculateStepDurationMinutes (startTime now : Z) : Z :=
  (now - startTime) / (1000 * 60).

(** processEntranceScan(sessionId, qrCode, scanId) *)
Definition processEntranceScan (S : Z) (C : string) (scan now : Z) : M Outcome :=
  catch
    (activeSteps <- getActiveStepsCount S ;;
     if Z.of_nat activeSteps >=? maxParallelStepsPerSession config
     then ret (mkOutcome false limit_exceeded None entrance (Some activeSteps)
                         None None None None)
     else
       completedToday <- Queries.getCompletedQCStepsToday S now ;;
       if existsb (fun st => String.eqb (QrCode st) C) completedToday
       then ret (failure already_completed None entrance)
       else
         started <- startQCStep S C scan None now ;;
         match started with
         | Some st =>
             updateActiveStepsCache S (ID st) add ;;;
             updateScanStateCache S (mkScanState exit (Some C) now now) ;;;
             ret (mkOutcome true entrance_started (Some st) entrance None
                            None None None (Some exit))
         | None => throw "QC step could not be started"
         end)
    (fun _ => ret (failure entrance_error None entrance)).

(** processExitScan(sessionId, qrCode, scanId, existingStep).  The timeout
    comparison only writes a warning to the console. *)
Definition processExitScan (S : Z) (C : string) (scan : Z) (existingStep : QCStep)
    (now : Z) : M Outcome :=
  catch
    (if negb (String.eqb (QrCode existingStep) C)
     then ret (mkOutcome false qr_mismatch (Some existingStep) exit None
                         (Some (QrCode existingStep)) (Some C) None None)
     else
       finished <- completeQCStep S C scan now ;;
       match finished with
       | Some st =>
           updateActiveStepsCache S (ID st) remove ;;;
           updateScanStateCache S (mkScanState entrance None now now) ;;;
           ret (mkOutcome true exit_completed (Some st) exit None None None
                          (Some (calculateStepDurationSeconds (StartTime st) (EndTime st) now))
                          (Some entrance))
       | None => throw "QC step could not be completed"
       end)
    (fun _ => ret (failure exit_error (Some existingStep) exit)).

(** processQRScan(sessionId, qrCode, scanId) *)
Definition processQRScan (S : Z) (C : string) (scan now : Z) : M Outcome :=
  catch
    (v <- validateSession S ;;
     if negb (isValid v)
     then throw "invalid session"
     else
       existingStep <- Queries.getLatestQCStepForQRCode S C ;;
       match existingStep with
       | Some st =>
           if negb (Completed st)
           then processExitScan S C scan st now
           else processEntranceScan S C scan now
       | None => processEntranceScan S C scan now
       end)
    (fun _ => ret (failure error None unknown)).

End WithConfig.
(** What validateQRCode returns. *)
Record CodeValidation : Set := mkCodeValidation {
  codeIsValid : bool;
  normalizedCode : option string
}.

(** White space of String.prototype.trim and of the class \s, among the
    characters below 256: TAB, LF, VT, FF, CR, SP and NBSP. *)
Definition is_space (a : ascii) : bool :=
  let n := nat_of_ascii a in
  ((9 <=? n) && (n <=? 13) || (n =? 32) || (n =? 160))%nat.

Fixpoint trim_start (s : string) : string :=
  match s with
  | String a s' => if is_space a then trim_start s' else s
  | EmptyString => EmptyString
  end.

Definition trim (s : string) : string :=
  String.rev (trim_start (String.rev (trim_start s))).

(** The class [a-zA-Z0-9\-_^:;.,\s] *)
Definition allowed (a : ascii) : bool :=
  let n := nat_of_ascii a in
  ((97 <=? n) && (n <=? 122) || (65 <=? n) && (n <=? 90)
   || (48 <=? n) && (n <=? 57)
   || (n =? 45) || (n =? 95) || (n =? 94) || (n =? 58) || (n =? 59)
   || (n =? 46) || (n =? 44))%nat
  || is_space a.

(** validateQRCode(qrCode), on a string argument *)
Definition validateQRCode (qrCode : string) : CodeValidation :=
  if String.eqb qrCode ""
  then mkCodeValidation false None
  else
    let trimmedCode := trim qrCode in
    if (String.length trimmedCode <? 5)%nat then mkCodeValidation false None
    else if (500 <? String.length trimmedCode)%nat then mkCodeValidation false None
    else if negb (forallb allowed (String.list_ascii_of_string trimmedCode))
         then mkCodeValidation false None
         else mkCodeValidation true (Some trimmedCode).

(** Number.prototype.toString() of an integer: its decimal digits, after
    a minus sign when it is negative. *)
Definition toString (n : Z) : string :=
  DecimalString.NilEmpty.string_of_int (Z.to_int n).

(** String.prototype.padStart(n, c) with a filler of one character. *)
Definition padStart (n : nat) (c : ascii) (s : string) : string :=
  String.string_of_list_ascii (repeat c (n - String.length s)) +:+ s.

(** formatDuration(seconds), on a whole number of seconds (what
    calculateStepDurationSeconds and the AVG of an INT column give).  Past
    the first test seconds is not negative, where % is the remainder of
    the floored division. *)
Definition formatDuration (seconds : Z) : string :=
  if seconds <? 0 then "00:00:00"
  else
    let hours := seconds / 3600 in
    let minutes := (seconds mod 3600) / 60 in
    let secs := seconds mod 60 in
    String.concat ":" (map (fun v => padStart 2 "0" (toString v)) [hours; minutes; secs]).

End Logic.

(** ** class QualityControlMainApp (main process) *)

Module MainApp.

(** The object the qr-scan-save handler resolves to, without message,
    data and timestamp. *)
Record ScanResult : Set := mkScanResult { success : bool; status : string }.

(** this.qrScanRateLimit, this.maxQRScansPerMinute, and whether the
    database is connected (this.dbClient && this.systemStatus.database). *)
Record State : Type := mkState {
  qrScanRateLimit : gmap Z (list Z);
  maxQRScansPerMinute : nat;
  database : bool
}.

(** The constructor's values. *)
Definition initial : State := mkState ∅ 30 false.

(** The timestamps the limiter holds for a session. *)
Definition recorded (S : Z) (st : State) : list Z := default [] (qrScanRateLimit st !! S).

Definition oneMinute : Z := 60 * 1000.

(** checkQRScanRateLimit(sessionId) *)
Definition checkQRScanRateLimit (S now : Z) (st : State) : bool * State :=
  let scanTimes := default [] (qrScanRateLimit st !! S) in
  let recentScans := List.filter (fun time => now - time <? oneMinute) scanTimes in
  ((length recentScans <? maxQRScansPerMinute st)%nat,
   mkState (<[S := recentScans]> (qrScanRateLimit st)) (maxQRScansPerMinute st) (database st)).

(** updateQRScanRateLimit(sessionId) *)
Definition updateQRScanRateLimit (S now : Z) (st : State) : State :=
  let scanTimes := (default [] (qrScanRateLimit st !! S) ++ [now])%list in
  let kept := if (maxQRScansPerMinute st <? length scanTimes)%nat
              then tail scanTimes else scanTimes in
  mkState (<[S := kept]> (qrScanRateLimit st)) (maxQRScansPerMinute st) (database st).

Section Handlers.

(** The state behind dbClient.saveQRScan, and that method: neither is part
    of the sources, so both are parameters. *)
Variable Backend : Type.
Variable saveQRScan : Z -> string -> Z -> Backend -> result ScanResult * Backend.

(** ipcMain.handle('qr-scan-save', ...).  A payload of characters below
    256 has no byte order mark to remove.  The decoding statistics and
    the session activity stamp, which a successful scan also updates, are
    not represented. *)
Definition qr_scan_save (S : Z) (payload : string) (now : Z)
    (st : State) (be : Backend) : ScanResult * State * Backend :=
  if negb (database st)
  then (mkScanResult false "database_offline", st, be)
  else
    let (allowed, st1) := checkQRScanRateLimit S now st in
    if negb allowed
    then (mkScanResult false "rate_limit", st1, be)
    else
      match saveQRScan S payload now be with
      | (Ok res, be') =>
          if success res
          then (res, updateQRScanRateLimit S now st1, be')
          else (res, st1, be')
      | (Throw _, be') => (mkScanResult false "error", st1, be')
      end.

(** A sequence of scans of one session, each with its payload and the
    instant it arrives at; the results are in the same order. *)
Fixpoint scan_all (S : Z) (scans : list (string * Z)) (st : State) (be : Backend)
    : list ScanResult * State * Backend :=
  match scans with
  | [] => ([], st, be)
  | (payload, now) :: rest =>
      let '(res, st1, be1) := qr_scan_save S payload now st be in
      let '(results, st2, be2) := scan_all S rest st1 be1 in
      (res :: results, st2, be2)
  end.

End Handlers.

(** ipcMain.handle('session-restart', ...), with the quality-control logic
    set up.  The timers and the maps activeSessions, activeQCSteps and
    qcStepCounters of the main process are not represented. *)
Definition session_restart (connected : bool) (S U now : Z) : M bool :=
  catch
    (if negb connected
     then ret false
     else
       Logic.abortActiveStepsForSession S "Session beendet" now ;;;
       dbClient_query (Store.UPDATE_session_start S U now) ;;;
       ret true)
    (fun _ => ret false).

(** An entry of this.qcStepCounters: { active, completed }. *)
Record Counters : Set := mkCounters { n_active : Z; n_completed : Z }.

(** this.activeQCSteps and this.qcStepCounters of the main process. *)
Record Tracking : Type := mkTracking {
  activeQCSteps : gmap Z (gset Z);
  qcStepCounters : gmap Z Counters
}.

(** ipcMain.handle('quality-control-start-step', ...); [logic] says
    whether this.qualityControlLogic is set. *)
Definition quality_control_start_step (logic : bool) (config : Logic.Config)
    (S : Z) (C : string) (scan now : Z) (t : Tracking)
    : M (option Store.QCStep * Tracking) :=
  catch
    (if negb logic
     then throw "quality control not available"
     else
       qcStep <- Logic.startQCStep config S C scan None now ;;
       match qcStep with
       | Some st =>
           let activeSteps := {[Store.ID st]} ∪ default ∅ (activeQCSteps t !! S) in
           let counters := default (mkCounters 0 0) (qcStepCounters t !! S) in
           ret (Some st,
                mkTracking (<[S := activeSteps]> (activeQCSteps t))
                           (<[S := mkCounters (n_active counters + 1) (n_completed counters)]>
                              (qcStepCounters t)))
       | None => ret (None, t)
       end)
    (fun _ => ret (None, t)).

(** ipcMain.handle('quality-control-complete-step', ...) *)
Definition quality_control_complete_step (logic : bool)
    (S : Z) (C : string) (scan now : Z) (t : Tracking)
    : M (option Store.QCStep * Tracking) :=
  catch
    (if negb logic
     then throw "quality control not available"
     else
       completedStep <- Logic.completeQCStep S C scan now ;;
       match completedStep with
       | Some st =>
           let activeSteps := default ∅ (activeQCSteps t !! S) ∖ {[Store.ID st]} in
           let counters := default (mkCounters 0 0) (qcStepCounters t !! S) in
           ret (Some st,
                mkTracking (<[S := activeSteps]> (activeQCSteps t))
                           (<[S := mkCounters (n_active counters - 1) (n_completed counters + 1)]>
                              (qcStepCounters t)))
       | None => ret (None, t)
       end)
    (fun _ => ret (None, t)).

Section SessionEnd.

(** dbClient.endSession is not part of the sources, so it is a parameter:
    any operation on the world that resolves to a truth value or rejects. *)
Variable endSession : Z -> M bool.

(** ipcMain.handle('session-end', ...).  The timers and the map
    activeSessions are not represented. *)
Definition session_end (connected logic : bool) (S U now : Z) (st : State) (t : Tracking)
    : M (bool * State * Tracking) :=
  catch
    (if negb connected
     then ret (false, st, t)
     else
       (if logic
        then Logic.abortActiveStepsForSession S "Session beendet" now ;;; ret tt
        else ret tt) ;;;
       success <- endSession S ;;
       if (success : bool)
       then ret (true,
                 mkState (delete S (qrScanRateLimit st)) (maxQRScansPerMinute st) (database st),
                 mkTracking (delete S (activeQCSteps t)) (delete S (qcStepCounters t)))
       else ret (false, st, t))
    (fun _ => ret (false, st, t)).

End SessionEnd.

End MainApp.

(** ** class QualityControlApp (src/renderer/app.js) *)

Module Renderer.

(** The fields of the renderer that handleQRCodeDetected reads or writes. *)
Record App : Type := mkApp {
  selectedSession : option Z;
  scanCooldown : Z;
  recentlyScanned : gmap string Z;
  pendingScans : gset string;
  lastProcessedQR : option string;
  lastProcessedTime : Z
}.

(** The constructor's values. *)
Definition initial : App := mkApp None 3000 ∅ ∅ None 0.

(** How a detected code leaves the synchronous head of handleQRCodeDetected. *)
Inductive verdict : Set :=
| no_user             (* warning, return *)
| immediate_repeat    (* check 1, return *)
| cooling_down        (* check 2, return *)
| in_flight           (* check 3, return *)
| accepted.           (* goes on to electronAPI.qr.saveScan *)

Definition same_code (last : option string) (qrData : string) : bool :=
  match last with Some c => String.eqb c qrData | None => false end.

(** recentScanTime && (now - recentScanTime) < this.scanCooldown:
    undefined and 0 are falsy. *)
Definition recently (a : App) (qrData : string) (now : Z) : bool :=
  match recentlyScanned a !! qrData with
  | Some recentScanTime =>
      negb (recentScanTime =? 0) && (now - recentScanTime <? scanCooldown a)
  | None => false
  end.

(** handleQRCodeDetected(qrData), up to the await. *)
Definition handleQRCodeDetected (qrData : string) (now : Z) (a : App) : verdict * App :=
  match selectedSession a with
  | None => (no_user, a)
  | Some _ =>
      if same_code (lastProcessedQR a) qrData && (now - lastProcessedTime a <? 2000)
      then (immediate_repeat, a)
      else if recently a qrData now
      then (cooling_down, a)
      else if bool_decide (qrData ∈ pendingScans a)
      then (in_flight, a)
      else (accepted,
            mkApp (selectedSession a) (scanCooldown a)
                  (<[qrData := now]> (recentlyScanned a))
                  ({[qrData]} ∪ pendingScans a)
                  (Some qrData) now)
  end.

(** The finally block of handleQRCodeDetected. *)
Definition settle (qrData : string) (a : App) : App :=
  mkApp (selectedSession a) (scanCooldown a) (recentlyScanned a)
        (pendingScans a ∖ {[qrData]}) (lastProcessedQR a) (lastProcessedTime a).

(** cleanupOldScans(), run every 30 seconds. *)
Definition cleanupOldScans (now : Z) (a : App) : App :=
  mkApp (selectedSession a) (scanCooldown a)
        (filter (fun kv => ¬ (now - kv.2 > 60 * 1000)) (recentlyScanned a))
        (pendingScans a) (lastProcessedQR a) (lastProcessedTime a).

(** What can happen to these fields between two detections. *)
Inductive event : Type :=
| Detect (qrData : string) (now : Z)
| Settle (qrData : string)
| Cleanup (now : Z)
| Select (s : option Z).

Definition step (a : App) (e : event) : App :=
  match e with
  | Detect qrData now => (handleQRCodeDetected qrData now a).2
  | Settle qrData => settle qrData a
  | Cleanup now => cleanupOldScans now a
  | Select s => mkApp s (scanCooldown a) (recentlyScanned a) (pendingScans a)
                      (lastProcessedQR a) (lastProcessedTime a)
  end.

Definition run (a : App) (evs : list event) : App := fold_left step evs a.

End Renderer.

(** ** class QualityControlManager (renderer; its text is in
       src/renderer/styles.css) *)

Module Manager.

(** scanState.expectedScan *)
Inductive expected : Set := eingang | ausgang.

(** An entry of this.scanStates. *)
Record ScanState : Set := mkScanState {
  expectedScan : expected;
  currentQRCode : option string;
  lastScanTime : option Z
}.

(** An entry of this.qcStepCounters: { active, completed }. *)
Record Counters : Set := mkCounters { n_active : Z; n_completed : Z }.

(** An entry of this.completedQCSteps: the completed row, with sessionId
    and completedAt. *)
Record Finished : Set := mkFinished {
  step_row : Store.QCStep;
  sessionId : Z;
  completedAt : Z
}.

(** The tracking fields of the manager. *)
Record State : Type := mkState {
  activeQCSteps : gmap Z (gset Z);
  completedQCSteps : list Finished;
  qcStepCounters : gmap Z Counters;
  scanStates : gmap Z ScanState
}.

(** The constructor's values. *)
Definition initial : State := mkState ∅ [] ∅ ∅.

(** initializeSessionQC(sessionId) *)
Definition initializeSessionQC (S : Z) (m : State) : State :=
  mkState (<[S := ∅]> (activeQCSteps m)) (completedQCSteps m)
          (<[S := mkCounters 0 0]> (qcStepCounters m))
          (<[S := mkScanState eingang None None]> (scanStates m)).

(** cleanupSessionQC(sessionId) *)
Definition cleanupSessionQC (S : Z) (m : State) : State :=
  mkState (delete S (activeQCSteps m)) (completedQCSteps m)
          (delete S (qcStepCounters m)) (delete S (scanStates m)).

(** onUserSelected(sessionData), without the display. *)
Definition onUserSelected (S : Z) (m : State) : State :=
  match scanStates m !! S with
  | None => initializeSessionQC S m
  | Some _ => m
  end.

(** onSessionRestarted(sessionData): the scan state goes back to
    'eingang'; the counters and the tracked steps are left as they are. *)
Definition onSessionRestarted (S now : Z) (m : State) : State :=
  match scanStates m !! S with
  | None => m
  | Some _ =>
      mkState (activeQCSteps m) (completedQCSteps m) (qcStepCounters m)
              (<[S := mkScanState eingang None (Some now)]> (scanStates m))
  end.

(** resetSessionQC(sessionId), without the display. *)
Definition resetSessionQC (S : Z) (m : State) : State :=
  initializeSessionQC S (cleanupSessionQC S m).

(** formatQRCode(qrCode): null, undefined and the empty text are falsy. *)
Definition formatQRCode (qrCode : option string) : string :=
  match qrCode with
  | None => "-"
  | Some c =>
      if (String.length c =? 0)%nat then "-"
      else if (20 <? String.length c)%nat then String.substring 0 20 c +:+ "..."
      else c
  end.

Section Backend.

(** window.electronAPI.qualityControl.startStep and .completeStep reach
    the main process; here they are parameters over a state of the back
    end: each resolves to a row or to null, or rejects. *)
Variable Backend : Type.
Variable startStep : Z -> string -> Z -> Backend -> result (option Store.QCStep) * Backend.
Variable completeStep : Z -> string -> Z -> Backend -> result (option Store.QCStep) * Backend.

(** handleEingangScan(sessionId, qrData, scanData).  scanData is the data
    of the scan result, null or a row with its ID; reading the ID of null
    throws before the call.  A thrown error ends the body where it
    happens; the catch only notifies. *)
Definition handleEingangScan (S : Z) (qrData : string) (scanData : option Z) (now : Z)
    (m : State) (be : Backend) : State * Backend :=
  match scanData with
  | None => (m, be)
  | Some scanId =>
      match startStep S qrData scanId be with
      | (Ok (Some qcStep), be') =>
          let activeSteps := {[Store.ID qcStep]} ∪ default ∅ (activeQCSteps m !! S) in
          let m1 := mkState (<[S := activeSteps]> (activeQCSteps m)) (completedQCSteps m)
                            (qcStepCounters m) (scanStates m) in
          match scanStates m1 !! S with
          | None => (m1, be')
          | Some _ =>
              let m2 := mkState (activeQCSteps m1) (completedQCSteps m1) (qcStepCounters m1)
                                (<[S := mkScanState ausgang (Some qrData) (Some now)]>
                                   (scanStates m1)) in
              match qcStepCounters m2 !! S with
              | None => (m2, be')
              | Some counters =>
                  (mkState (activeQCSteps m2) (completedQCSteps m2)
                           (<[S := mkCounters (n_active counters + 1) (n_completed counters)]>
                              (qcStepCounters m2))
                           (scanStates m2), be')
              end
          end
      | (_, be') => (m, be')
      end
  end.

(** scanState.currentQRCode !== qrData *)
Definition other_code (current : option string) (qrData : string) : bool :=
  match current with
  | Some c => negb (String.eqb c qrData)
  | None => true
  end.

(** handleAusgangScan(sessionId, qrData, scanData) *)
Definition handleAusgangScan (S : Z) (qrData : string) (scanData : option Z) (now : Z)
    (m : State) (be : Backend) : State * Backend :=
  match scanStates m !! S with
  | None => (m, be)
  | Some scanState =>
      if other_code (currentQRCode scanState) qrData
      then (m, be)
      else
        match scanData with
        | None => (m, be)
        | Some scanId =>
            match completeStep S qrData scanId be with
            | (Ok (Some completedStep), be') =>
                match activeQCSteps m !! S with
                | None => (m, be')
                | Some activeSteps =>
                    let m1 := mkState (<[S := activeSteps ∖ {[Store.ID completedStep]}]>
                                         (activeQCSteps m))
                                      (mkFinished completedStep S now :: completedQCSteps m)
                                      (qcStepCounters m)
                                      (<[S := mkScanState eingang None (Some now)]>
                                         (scanStates m)) in
                    match qcStepCounters m1 !! S with
                    | None => (m1, be')
                    | Some counters =>
                        (mkState (activeQCSteps m1) (completedQCSteps m1)
                                 (<[S := mkCounters (n_active counters - 1)
                                                    (n_completed counters + 1)]>
                                    (qcStepCounters m1))
                                 (scanStates m1), be')
                    end
                end
            | (_, be') => (m, be')
            end
        end
  end.

(** processQCScan(sessionId, qrData, scanResult), with the success flag
    and the data of the scan result; the display updates that follow are
    not represented. *)
Definition processQCScan (S : Z) (qrData : string) (success : bool) (data : option Z)
    (now : Z) (m : State) (be : Backend) : State * Backend :=
  match scanStates m !! S with
  | None => (m, be)
  | Some scanState =>
      if negb success then (m, be)
      else
        match expectedScan scanState with
        | eingang => handleEingangScan S qrData data now m be
        | ausgang => handleAusgangScan S qrData data now m be
        end
  end.

(** What the application does with the manager: a scan result handed
    to processScan, a login (initializeSessionQC), a selection, a logout
    (cleanupSessionQC), a restart, a forced reset. *)
Inductive event : Type :=
| Scan (S : Z) (qrData : string) (success : bool) (data : option Z) (now : Z)
| Login (S : Z)
| UserSelected (S : Z)
| UserLoggedOut (S : Z)
| SessionRestarted (S now : Z)
| Reset (S : Z).

Definition step (mb : State * Backend) (e : event) : State * Backend :=
  match e with
  | Scan sid qrData success data now => processQCScan sid qrData success data now mb.1 mb.2
  | Login sid => (initializeSessionQC sid mb.1, mb.2)
  | UserSelected sid => (onUserSelected sid mb.1, mb.2)
  | UserLoggedOut sid => (cleanupSessionQC sid mb.1, mb.2)
  | SessionRestarted sid now => (onSessionRestarted sid now mb.1, mb.2)
  | Reset sid => (resetSessionQC sid mb.1, mb.2)
  end.

Definition run (mb : State * Backend) (evs : list event) : State * Backend :=
  fold_left step evs mb.

End Backend.

End Manager.

(** ** Vocabulary of the properties *)

Module Spec.
Import Store.

(** An active item: one that awaits its exit scan.  Its status column
    says 'active' and its completion flag is not set. *)
Definition awaiting_exit (r : QCStep) : bool := is_active r && negb (Completed r).

(** The active items of a session for a code. *)
Definition active_items (S : Z) (C : string) (l : list QCStep) : list QCStep :=
  List.filter (fun r => for_code S C r && awaiting_exit r) l.

(** At most one active item per session and code. *)
Definition unique_active (l : list QCStep) : Prop :=
  forall S C, (length (active_items S C l) <= 1)%nat.

(** The number of active items of a session. *)
Definition active_count (S : Z) (l : list QCStep) : nat :=
  length (List.filter (fun r => (SessionID r =? S) && awaiting_exit r) l).

(** The most recent item of a session for a code, whatever its status. *)
Definition latest (S : Z) (C : string) (l : list QCStep) : option QCStep :=
  top1_latest (List.filter (for_code S C) l).

(** No row is left with a status other than 'active' and the completion
    flag unset. *)
Definition open_rows_active (l : list QCStep) : Prop :=
  forall r, In r l -> Completed r = false -> QCStatus r = active.

(** The session has a row in dbo.Sessions, and it is marked active. *)
Definition session_valid (S : Z) (d : DB) : Prop :=
  exists row, List.find (fun s => s_ID s =? S) (sessions d) = Some row
              /\ s_Active row = true.

(** ID is the primary key of the table. *)
Definition primary_key (l : list QCStep) : Prop := NoDup (map ID l).

(** The IDs of the active items of a session. *)
Definition active_ids (S : Z) (l : list QCStep) : gset Z :=
  list_to_set (map ID (List.filter (fun r => (SessionID r =? S) && awaiting_exit r) l)).

(** What activeStepsCache holds for the session, if anything, is the
    set of IDs of its active items in the database. *)
Definition cache_coherent (S : Z) (w : World) : Prop :=
  match activeStepsCache w !! S with
  | None => True
  | Some ids => ids = active_ids S (steps (db w))
  end.

(** What may happen between the two submissions of a code: anything but a
    detection of that code, with the clean-up timer firing no later than
    the second submission. *)
Definition between (c : string) (t2 : Z) (e : Renderer.event) : Prop :=
  match e with
  | Renderer.Detect c' _ => c' <> c
  | Renderer.Cleanup tc => tc <= t2
  | Renderer.Settle _ | Renderer.Select _ => True
  end.

(** The cache is exact: for every session, the cached set (none counting
    as empty) is the set of IDs of its active items in the database. *)
Definition cache_exact (w : World) : Prop :=
  forall S, default ∅ (activeStepsCache w !! S) = active_ids S (steps (db w)).

(** The table as its constraints and the statements of the application
    leave it: unfinished rows are active, ID is a key below the next
    identity value, and every row passes the CHECK constraints. *)
Definition store_ok (d : DB) : Prop :=
  open_rows_active (steps d)
  /\ primary_key (steps d)
  /\ (forall r, In r (steps d) -> ID r < identity d /\ checks r = true).

(** None of the next n round trips fails. *)
Definition answered (n : nat) (plan : list bool) : bool := forallb negb (take n plan).

(** The outcomes of the entry path and of the exit path. *)
Definition entry_outcome (t : Logic.outcome_type) : Prop :=
  t = Logic.limit_exceeded \/ t = Logic.already_completed
  \/ t = Logic.entrance_started \/ t = Logic.entrance_error.

Definition exit_outcome (t : Logic.outcome_type) : Prop :=
  t = Logic.qr_mismatch \/ t = Logic.exit_completed \/ t = Logic.exit_error.

(** The renderer's manager runs one inspection per session at a time:
    for every session that has a scan state, the counters and the set of
    tracked steps are there too, the active counter is 1 while an exit
    scan is expected (and then the expected code is known) and 0
    otherwise, and the completed counter is not negative. *)
Definition one_at_a_time (m : Manager.State) : Prop :=
  forall S st,
    Manager.scanStates m !! S = Some st ->
    exists c,
      Manager.qcStepCounters m !! S = Some c
      /\ is_Some (Manager.activeQCSteps m !! S)
      /\ Manager.n_active c = match Manager.expectedScan st with
                              | Manager.ausgang => 1
                              | Manager.eingang => 0
                              end
      /\ 0 <= Manager.n_completed c
      /\ (Manager.expectedScan st = Manager.ausgang -> is_Some (Manager.currentQRCode st)).

(** Anything but a session restart. *)
Definition no_restart (e : Manager.event) : Prop :=
  match e with
  | Manager.SessionRestarted _ _ => False
  | _ => True
  end.

(** The characters of a text, and a list of characters without its
    leading white space: trim_start and trim read on lists. *)
Definition chars : string -> list ascii := String.list_ascii_of_string.

Fixpoint drop_spaces (l : list ascii) : list ascii :=
  match l with
  | a :: l' => if Logic.is_space a then drop_spaces l' else l
  | [] => []
  end.

End Spec.

(** ** Sample data *)

Module Sample.
Import Store.

(** The procedures quality-control-schema.sql installs. *)
Definition procedures : list string :=
  ["sp_StartQCStep"; "sp_CompleteQCStep"; "sp_AbortActiveQCSteps"].

(** quality-control-schema.sql brings the procedures and the trigger
    together; without it neither is there. *)
Definition installed (routines : list string) : bool :=
  match routines with [] => false | _ => true end.

(** A database with the active session 1 of worker 5, three saved scans,
    no inspection item yet, and the given procedures. *)
Definition database (routines : list string) : DB :=
  mkDB [] [] [mkSession 1 5 true 0 None] [7; 8; 9] routines (installed routines) 1.

(** A fresh QualityControlLogic over that database. *)
Definition world (routines : list string) (plan : list bool) : World :=
  mkWorld (database routines) plan ∅ ∅.

(** The item an entry scan of "X1" at instant 1000 creates there. *)
Definition item_X1 : QCStep :=
  mkStep 1 1 "X1" (Some 7) None 1000 None false 1000 active 1
         None None false None false.

(** The world after that entry scan was stored, seen by a fresh logic. *)
Definition world_X1 (routines : list string) (plan : list bool) : World :=
  mkWorld (mkDB [item_X1] [] [mkSession 1 5 true 0 None] [7; 8; 9] routines
                (installed routines) 2)
          plan ∅ ∅.

(** The renderer with session 1 selected and nothing scanned yet, and the
    instant of a first scan. *)
Definition app0 : Renderer.App := Renderer.mkApp (Some 1) 3000 ∅ ∅ None 0.

Definition first_scan_time : Z := 1700000000000.

(** The renderer after "ABC123" was detected then, still being saved. *)
Definition app1 : Renderer.App :=
  (Renderer.handleQRCodeDetected "ABC123" first_scan_time app0).2.

(** A configuration with QC_MAX_PARALLEL_STEPS_PER_SESSION set to 1. *)
Definition config_one : Logic.Config := Logic.config_of_env (Some 1) None None.

(** A stand-in for dbClient.saveQRScan that stores every scan. *)
Definition save_always (S : Z) (payload : string) (now : Z) (be : list (Z * string))
    : result MainApp.ScanResult * list (Z * string) :=
  (Ok (MainApp.mkScanResult true "saved"), (S, payload) :: be).

(** Thirty scans of distinct codes, one per second from instant 1000 on. *)
Definition thirty_scans : list (string * Z) :=
  map (fun i => (String (ascii_of_nat (64 + i)) "-CODE", 1000 * Z.of_nat i)) (seq 1 30).

(** The main process, connected, with nothing recorded. *)
Definition main_connected : MainApp.State := MainApp.mkState ∅ 30 true.

(** A back end that starts and completes whatever it is asked to, always
    with the row of the item for "X1", and counts its calls. *)
Definition backend_step (S : Z) (C : string) (scan : Z) (calls : nat)
    : result (option Store.QCStep) * nat :=
  (Ok (Some item_X1), Datatypes.S calls).

(** Session 1 with its active item for "X1" on a database that has the
    update trigger of the schema and none of its procedures. *)
Definition world_X1_trigger (plan : list bool) : World :=
  mkWorld (Store.mkDB [item_X1] [] [Store.mkSession 1 5 true 0 None] [7; 8; 9] []
                      true 2)
          plan ∅ ∅.

(** The item for "X1" completed by the exit scan 8 at instant 5000, and
    session 1 holding it, seen by a fresh logic. *)
Definition item_X1_done : Store.QCStep :=
  Store.mkStep 1 1 "X1" (Some 7) (Some 8) 1000 (Some 5000) true 5000 Store.completed 1
               None None false None false.

Definition world_X1_done (routines : list string) (plan : list bool) : World :=
  mkWorld (Store.mkDB [item_X1_done] [] [Store.mkSession 1 5 true 0 None] [7; 8; 9] routines
                      (installed routines) 2)
          plan ∅ ∅.

End Sample.

(** * Properties *)

(** ** Facts about the store *)

Section StoreFacts.
Import Store.

Lemma nvarchar_fits (n : nat) (s : string) :
  fits n s = true -> nvarchar n s = s.
Proof.
  unfold fits, nvarchar. revert n.
  induction s as [|c s IH]; intros [|n] H; simpl in *; try reflexivity.
  - discriminate.
  - f_equal. apply IH. exact H.
Qed.

(** The image the abort procedure writes for a row that has no exit scan
    yet breaks CK_QualityControlSteps_Completed: Completed stays 0 while
    EndTime becomes non-null. *)
Lemma abort_image_rejected (reason : string) (now : Z) (r : QCStep) :
  Completed r = false -> checks (abort_image reason now r) = false.
Proof.
  intros H. unfold checks, CK_Completed. simpl. rewrite H. simpl.
  now rewrite !andb_false_r.
Qed.

(** So does the image of the direct UPDATE: Completed becomes 1 while
    EndScanID stays null. *)
Lemma abort_image_plain_rejected (now : Z) (r : QCStep) :
  EndScanID r = None -> checks (abort_image_plain now r) = false.
Proof.
  intros H. unfold checks, CK_Completed. simpl. rewrite H. simpl.
  now rewrite !andb_false_r.
Qed.

Lemma update_where_raises (p : QCStep -> bool) (f : QCStep -> QCStep) (d : DB) (r : QCStep) :
  In r (steps d) -> p r = true -> checks (f r) = false ->
  update_where p f d = Raise "constraint violation".
Proof.
  intros Hin Hp Hck. unfold update_where.
  destruct (forallb _ (steps d)) eqn:Hall; [|reflexivity].
  rewrite forallb_forall in Hall. specialize (Hall r Hin).
  rewrite Hp in Hall. unfold row_ok in Hall. rewrite Hck in Hall. discriminate.
Qed.

Lemma update_where_steps (p : QCStep -> bool) (f : QCStep -> QCStep) (d d' : DB) (n : nat) :
  update_where p f d = Done n d' ->
  steps d' = map (fun r => if p r then f r else r) (steps d)
  /\ n = length (List.filter p (steps d)).
Proof.
  unfold update_where. destruct (forallb _ _); [|discriminate].
  intros [= <- <-]. split; reflexivity.
Qed.

End StoreFacts.

(** ** Facts about awaited calls *)

Section MonadFacts.

Lemma db_with_faults (w : World) (f : list bool) : db (with_faults w f) = db w.
Proof. reflexivity. Qed.

(** A round trip whose batch raises rejects, whatever the connection
    does, and leaves the database and the caches as they were. *)
Lemma query_rejects {A} (stmt : Store.DB -> Store.sql A) (w : World) (m : string) :
  stmt (db w) = Store.Raise m ->
  exists e, dbClient_query stmt w = (Throw e, with_faults w (tail (faults w))).
Proof.
  intros H. unfold dbClient_query.
  destruct (faults w) as [|[] rest] eqn:Hf; simpl.
  - rewrite H. eauto.
  - eauto.
  - rewrite H. eauto.
Qed.

(** With no failure planned, a round trip is the batch itself. *)
Lemma query_quiet {A} (stmt : Store.DB -> Store.sql A) (w : World) :
  faults w = [] ->
  dbClient_query stmt w =
    match stmt (db w) with
    | Store.Done a d => (Ok a, with_db w d)
    | Store.Raise m => (Throw m, w)
    end.
Proof.
  intros H. unfold dbClient_query. rewrite H. simpl.
  destruct w as [d f c1 c2]. simpl in *. subst f.
  unfold with_faults, with_db. simpl. destruct (stmt d); reflexivity.
Qed.

(** A failed round trip consumes one entry of the plan and nothing else. *)
Lemma query_fault {A} (stmt : Store.DB -> Store.sql A) (w : World) (rest : list bool) :
  faults w = true :: rest ->
  dbClient_query stmt w = (Throw "connection failed", with_faults w rest).
Proof. intros H. unfold dbClient_query. now rewrite H. Qed.

(** An answered round trip of a read leaves the database as it was. *)
Lemma query_read {A} (f : Store.DB -> A) (w : World) :
  dbClient_query (fun d => Store.Done (f d) d) w =
    match faults w with
    | true :: rest => (Throw "connection failed", with_faults w rest)
    | _ => (Ok (f (db w)), with_faults w (tail (faults w)))
    end.
Proof.
  unfold dbClient_query. destruct (faults w) as [|[] rest] eqn:Hf; simpl; reflexivity.
Qed.

End MonadFacts.

(** ** Aborting the active items of a session *)

Section Abort.
Import Store Spec.

Lemma filter_none_in {A} (p : A -> bool) (l : list A) :
  (forall x, In x l -> p x = false) -> List.filter p l = [].
Proof.
  induction l as [|a l IH]; simpl; intros H; [reflexivity|].
  rewrite (H a) by now left. apply IH. intros x Hx. apply H. now right.
Qed.

Lemma hasStoredProcedure_quiet (name : string) (w : World) :
  faults w = [] ->
  exists b, Logic.hasStoredProcedure name w = (Ok b, w).
Proof.
  intros Hq.
  unfold Logic.hasStoredProcedure, catch, bind, Store.SELECT_procedure_count.
  rewrite query_read, Hq. simpl. eexists. unfold ret, with_faults.
  f_equal. destruct w; simpl in *; now subst.
Qed.

Lemma hasStoredProcedure_answers (name : string) (w : World) :
  exists b, Logic.hasStoredProcedure name w = (Ok b, with_faults w (tail (faults w))).
Proof.
  unfold Logic.hasStoredProcedure, catch, bind, SELECT_procedure_count.
  rewrite query_read. destruct (faults w) as [|[] rest]; simpl; eauto.
Qed.

Lemma sp_abort_raises (S : Z) (reason : string) (now : Z) (d : DB) (r : QCStep) :
  In r (steps d) -> SessionID r = S -> awaiting_exit r = true ->
  sp_AbortActiveQCSteps S reason now d = Raise "constraint violation".
Proof.
  intros Hin HS Ha. unfold awaiting_exit in Ha.
  apply andb_true_iff in Ha as [Hact Hopen]. apply negb_true_iff in Hopen.
  unfold sp_AbortActiveQCSteps.
  rewrite (update_where_raises _ _ d r); auto.
  - rewrite Hact, andb_true_r. now apply Z.eqb_eq.
  - now apply abort_image_rejected.
Qed.

Lemma update_abort_raises (S now : Z) (d : DB) (r : QCStep) :
  In r (steps d) -> SessionID r = S -> awaiting_exit r = true ->
  CK_Completed r = true ->
  UPDATE_abort S now d = Raise "constraint violation".
Proof.
  intros Hin HS Ha Hck. unfold awaiting_exit in Ha.
  apply andb_true_iff in Ha as [Hact Hopen].
  unfold UPDATE_abort. apply (update_where_raises _ _ d r); auto.
  - rewrite Hopen, andb_true_r. now apply Z.eqb_eq.
  - apply abort_image_plain_rejected.
    unfold CK_Completed in Hck. apply negb_true_iff in Hopen. rewrite Hopen in Hck.
    simpl in Hck. rewrite orb_false_r in Hck.
    apply andb_true_iff in Hck as [_ Hnull].
    unfold is_null in Hnull. now destruct (EndScanID r).
Qed.

(** What the two UPDATE statements would write, the table permitting.
    The procedure's image is the abort the workflow means: status
    'aborted', end time, the reason appended to the notes, the completion
    flag as it was.  The direct statement's image has the completion
    flag set and keeps status and notes: no reason is recorded. *)
Lemma abort_images (reason : string) (now : Z) (r : QCStep) :
  (QCStatus (abort_image reason now r) = aborted
   /\ EndTime (abort_image reason now r) = Some now
   /\ QualityNotes (abort_image reason now r) = Some (append_note (QualityNotes r) reason)
   /\ Completed (abort_image reason now r) = Completed r)
  /\ (QCStatus (abort_image_plain now r) = QCStatus r
      /\ EndTime (abort_image_plain now r) = Some now
      /\ QualityNotes (abort_image_plain now r) = QualityNotes r
      /\ Completed (abort_image_plain now r) = true).
Proof. repeat split. Qed.

(** With no active item in the session, the abort resolves to 0 and
    leaves the rows as they are (store answering). *)
Lemma abort_nothing_to_do (S : Z) (reason : string) (now : Z) (w : World) :
  faults w = [] ->
  (forall r, In r (steps (db w)) -> SessionID r = S ->
             is_active r = false /\ Completed r = true) ->
  exists w', Logic.abortActiveStepsForSession S reason now w = (Ok 0%nat, w')
             /\ steps (db w') = steps (db w).
Proof.
  intros Hq Hnone.
  assert (forall (p : QCStep -> bool) f,
             (forall r, In r (steps (db w)) -> p r = false) ->
             update_where p f (db w) = Done 0%nat (db w)) as Hnoop.
  { intros p f Hp. unfold update_where.
    assert (forallb (fun r => if p r then row_ok (db w) (f r) else true) (steps (db w)) = true)
      as ->.
    { apply forallb_forall. intros r Hin. now rewrite (Hp r Hin). }
    assert (List.filter p (steps (db w)) = []) as ->.
    { apply filter_none_in. exact Hp. }
    assert (map (fun r => if p r then f r else r) (steps (db w)) = steps (db w)) as ->.
    { rewrite <- (map_id (steps (db w))) at 2. apply map_ext_in.
      intros r Hin. now rewrite (Hp r Hin). }
    unfold with_steps. now destruct (db w). }
  unfold Logic.abortActiveStepsForSession, bind.
  destruct (hasStoredProcedure_quiet "sp_AbortActiveQCSteps" w Hq) as [b ->].
  destruct b.
  - rewrite (query_quiet _ w Hq). unfold sp_AbortActiveQCSteps.
    rewrite Hnoop.
    + simpl. eexists. split; [reflexivity|]. simpl. now destruct (db w).
    + intros r Hin. destruct (SessionID r =? S) eqn:HS; [|reflexivity].
      apply Z.eqb_eq in HS. now destruct (Hnone r Hin HS) as [-> _].
  - unfold Queries.abortActiveStepsForSession.
    rewrite (query_quiet _ w Hq). unfold UPDATE_abort. rewrite Hnoop.
    + simpl. eexists. split; [reflexivity|]. simpl. now destruct (db w).
    + intros r Hin. destruct (SessionID r =? S) eqn:HS; [|reflexivity].
      apply Z.eqb_eq in HS. destruct (Hnone r Hin HS) as [_ ->]. reflexivity.
Qed.

(** C3 (as the code behaves).  Whenever the session has an active item,
    abortActiveStepsForSession rejects instead of aborting it: on the
    stored-procedure path the UPDATE leaves Completed at 0 and sets
    EndTime, on the direct path it sets Completed to 1 and leaves
    EndScanID null, and both images break the table's own constraint
    CK_QualityControlSteps_Completed.  Nothing is then changed in the
    database, and the caches are not cleared.  This holds for every plan
    of connection failures and whether the procedure is installed or not. *)
Theorem abort_rejected_while_item_active (S : Z) (reason : string) (now : Z)
    (w : World) (r : QCStep) :
  In r (steps (db w)) -> SessionID r = S -> awaiting_exit r = true ->
  CK_Completed r = true ->
  exists e w',
    Logic.abortActiveStepsForSession S reason now w = (Throw e, w')
    /\ db w' = db w
    /\ activeStepsCache w' = activeStepsCache w
    /\ scanStateCache w' = scanStateCache w.
Proof.
  intros Hin HS Ha Hck.
  unfold Logic.abortActiveStepsForSession, bind.
  destruct (hasStoredProcedure_answers "sp_AbortActiveQCSteps" w) as [b ->].
  set (w1 := with_faults w (tail (faults w))).
  destruct b.
  - destruct (query_rejects (sp_AbortActiveQCSteps S reason now) w1
                "constraint violation") as [e He].
    { apply (sp_abort_raises S reason now (db w1) r); auto. }
    rewrite He. exists e. eexists. split; [reflexivity|]. repeat split.
  - unfold Queries.abortActiveStepsForSession.
    destruct (query_rejects (UPDATE_abort S now) w1 "constraint violation") as [e He].
    { apply (update_abort_raises S now (db w1) r); auto. }
    rewrite He. exists e. eexists. split; [reflexivity|]. repeat split.
Qed.

End Abort.

(** The same at a concrete session: session 1 holds the active item for
    "X1"; the abort rejects, with the procedure installed and without it. *)
Lemma abort_rejected_witness :
  (exists e w',
     Logic.abortActiveStepsForSession 1 "Session beendet" 2000
       (Sample.world_X1 Sample.procedures []) = (Throw e, w')
     /\ db w' = db (Sample.world_X1 Sample.procedures [])
     /\ activeStepsCache w' = activeStepsCache (Sample.world_X1 Sample.procedures [])
     /\ scanStateCache w' = scanStateCache (Sample.world_X1 Sample.procedures []))
  /\ (exists e w',
     Logic.abortActiveStepsForSession 1 "Session beendet" 2000
       (Sample.world_X1 [] []) = (Throw e, w')
     /\ db w' = db (Sample.world_X1 [] [])
     /\ activeStepsCache w' = activeStepsCache (Sample.world_X1 [] [])
     /\ scanStateCache w' = scanStateCache (Sample.world_X1 [] [])).
Proof.
  split.
  - apply (abort_rejected_while_item_active 1 "Session beendet" 2000
             (Sample.world_X1 Sample.procedures []) Sample.item_X1).
    + simpl. left. reflexivity.
    + reflexivity.
    + reflexivity.
    + reflexivity.
  - apply (abort_rejected_while_item_active 1 "Session beendet" 2000
             (Sample.world_X1 [] []) Sample.item_X1).
    + simpl. left. reflexivity.
    + reflexivity.
    + reflexivity.
    + reflexivity.
Defined.

(** ** At most one active item per session and code *)

Section UniqueActive.
Import Store Spec.

Lemma active_items_app (S : Z) (C : string) (l1 l2 : list QCStep) :
  active_items S C (l1 ++ l2) = active_items S C l1 ++ active_items S C l2.
Proof. unfold active_items. apply List.filter_app. Qed.

Lemma filter_none {A} (p : A -> bool) (l : list A) :
  existsb p l = false -> List.filter p l = [].
Proof.
  induction l as [|a l IH]; simpl; [reflexivity|].
  intros H. apply orb_false_iff in H as [Ha Hl]. rewrite Ha. auto.
Qed.

Lemma for_code_eq (S S' : Z) (C C' : string) (r : QCStep) :
  for_code S C r = true -> for_code S' C' r = true -> S = S' /\ C = C'.
Proof.
  unfold for_code. rewrite !andb_true_iff, !Z.eqb_eq, !String.eqb_eq.
  intros [<- <-] [<- <-]. split; reflexivity.
Qed.

(** The stored procedure inserts under its check, so it keeps the
    invariant on whatever database it runs. *)
Lemma sp_StartQCStep_keeps_unique (S : Z) (C : string) (scan prio now : Z)
    (d d' : DB) (rs : list QCStep) :
  unique_active (steps d) ->
  sp_StartQCStep S C scan prio now d = Done rs d' ->
  unique_active (steps d').
Proof.
  intros Hu. unfold sp_StartQCStep, insert_step.
  destruct (existsb _ (steps d)) eqn:Hex; [discriminate|].
  destruct (row_ok _ _); [|discriminate].
  intros [= <- <-]. simpl. intros S0 C0.
  rewrite active_items_app, length_app.
  set (row := new_step d S (nvarchar 500 C) scan prio now).
  destruct (for_code S0 C0 row) eqn:Hfc.
  - assert (for_code S (nvarchar 500 C) row = true) as Hrow.
    { unfold for_code, row. simpl. now rewrite Z.eqb_refl, String.eqb_refl. }
    destruct (for_code_eq _ _ _ _ row Hfc Hrow) as [-> ->].
    assert (active_items S (nvarchar 500 C) (steps d) = []) as ->.
    { unfold active_items. apply filter_none.
      apply not_true_is_false. intros Hsome.
      apply existsb_exists in Hsome as (x & Hx & Hp).
      assert (existsb (fun r => for_code S (nvarchar 500 C) r && is_active r) (steps d) = true)
        as Hcontra.
      { apply existsb_exists. exists x. split; [exact Hx|].
        unfold awaiting_exit in Hp.
        apply andb_true_iff in Hp as [H1 H2]. apply andb_true_iff in H2 as [H2 _].
        now rewrite H1, H2. }
      rewrite Hex in Hcontra. discriminate. }
    simpl. destruct (for_code _ _ row && awaiting_exit row); simpl; lia.
  - unfold active_items at 2. simpl. rewrite Hfc. simpl.
    specialize (Hu S0 C0). lia.
Qed.

(** An UPDATE that keeps session and code and never turns a row into an
    active one keeps the invariant. *)
Lemma update_keeps_unique (p : QCStep -> bool) (f : QCStep -> QCStep) (l : list QCStep) :
  (forall r, SessionID (f r) = SessionID r /\ QrCode (f r) = QrCode r
             /\ awaiting_exit (f r) = false) ->
  unique_active l ->
  unique_active (map (fun r => if p r then f r else r) l).
Proof.
  intros Hf Hu S C. specialize (Hu S C).
  enough (length (active_items S C (map (fun r => if p r then f r else r) l))
          <= length (active_items S C l))%nat by lia.
  clear Hu. unfold active_items.
  induction l as [|a l IH]; simpl; [lia|].
  destruct (p a).
  - destruct (Hf a) as (_ & _ & Hna). rewrite Hna, andb_false_r.
    destruct (for_code S C a && awaiting_exit a); simpl; lia.
  - destruct (for_code S C a && awaiting_exit a); simpl; lia.
Qed.

Lemma filter_filter_le {A} (p q : A -> bool) (l : list A) :
  (length (List.filter p (List.filter q l)) <= length (List.filter p l))%nat.
Proof.
  induction l as [|a l IH]; simpl; [lia|].
  destruct (q a); simpl; destruct (p a); simpl; lia.
Qed.

(** Completion, abort and clean-up, by procedure or by direct statement,
    keep it. *)
Lemma completion_and_abort_keep_unique (d d' : DB) :
  unique_active (steps d) ->
  (forall S C scan rating defects desc notes now rs,
      sp_CompleteQCStep S C scan rating defects desc notes now d = Done rs d' ->
      unique_active (steps d'))
  /\ (forall S reason now ns,
      sp_AbortActiveQCSteps S reason now d = Done ns d' -> unique_active (steps d'))
  /\ (forall scan stepId now rs,
      UPDATE_complete scan stepId now d = Done rs d' -> unique_active (steps d'))
  /\ (forall S now n,
      UPDATE_abort S now d = Done n d' -> unique_active (steps d'))
  /\ (forall stepId reason now n,
      UPDATE_abort_one stepId reason now d = Done n d' -> unique_active (steps d'))
  /\ (forall days now n,
      DELETE_old days now d = Done n d' -> unique_active (steps d')).
Proof.
  intros Hu. repeat split.
  - intros S C scan rating defects desc notes now rs.
    unfold sp_CompleteQCStep. destruct (top1_latest _); [|discriminate].
    destruct (update_where _ _ d) as [n d1|] eqn:Hup; [|discriminate].
    intros [= _ <-]. simpl.
    apply update_where_steps in Hup as [-> _].
    apply update_keeps_unique; auto.
  - intros S reason now ns. unfold sp_AbortActiveQCSteps.
    destruct (update_where _ _ d) as [n d1|] eqn:Hup; [|discriminate].
    intros [= _ <-]. simpl.
    apply update_where_steps in Hup as [-> _].
    apply update_keeps_unique; auto.
  - intros scan stepId now rs. unfold UPDATE_complete.
    destruct (update_trigger d); [discriminate|].
    destruct (update_where _ _ d) as [n d1|] eqn:Hup; [|discriminate].
    intros [= _ <-].
    apply update_where_steps in Hup as [-> _].
    apply update_keeps_unique; auto.
    intros r. repeat split. unfold awaiting_exit. simpl. apply andb_false_r.
  - intros S now n. unfold UPDATE_abort. intros Hup.
    apply update_where_steps in Hup as [-> _].
    apply update_keeps_unique; auto.
    intros r. repeat split. unfold awaiting_exit. simpl. apply andb_false_r.
  - intros stepId reason now n. unfold UPDATE_abort_one. intros Hup.
    apply update_where_steps in Hup as [-> _].
    apply update_keeps_unique; auto.
  - intros days now n. unfold DELETE_old. intros [= _ <-]. simpl.
    intros S C. specialize (Hu S C). unfold active_items in *.
    pose proof (filter_filter_le (fun r => for_code S C r && awaiting_exit r)
                  (fun r => negb ((StartTime r <? (date_of now - days) * 86400000)
                                  && Completed r)) (steps d)).
    lia.
Qed.

(** C1 (as the code behaves).  The invariant is broken on the direct-insert
    path: with sp_StartQCStep not installed, startQCStep runs the INSERT of
    QualityControlQueries, which looks at no existing row.  Starting
    "ABC123" twice for session 1 leaves two active items for that session
    and code.  With the procedure installed the second start rejects and
    the invariant stands. *)
Theorem direct_insert_duplicates_active_item :
  exists r1 r2 w1 w2,
    Logic.startQCStep Logic.default_config 1 "ABC123" 7 None 1000 (Sample.world [] [])
      = (Ok (Some r1), w1)
    /\ Logic.startQCStep Logic.default_config 1 "ABC123" 8 None 1500 w1
      = (Ok (Some r2), w2)
    /\ active_items 1 "ABC123" (steps (db w2)) = [r1; r2]
    /\ ~ unique_active (steps (db w2))
    /\ (exists e v1 v2,
          Logic.startQCStep Logic.default_config 1 "ABC123" 7 None 1000
            (Sample.world Sample.procedures []) = (Ok (Some r1), v1)
          /\ Logic.startQCStep Logic.default_config 1 "ABC123" 8 None 1500 v1
            = (Throw e, v2)
          /\ active_items 1 "ABC123" (steps (db v2)) = [r1]).
Proof.
  do 4 eexists. split; [vm_compute; reflexivity|].
  split; [vm_compute; reflexivity|].
  split; [vm_compute; reflexivity|].
  split.
  - intros Hu. specialize (Hu 1 "ABC123"). vm_compute in Hu. lia.
  - do 3 eexists. split; [vm_compute; reflexivity|].
    split; [vm_compute; reflexivity|]. vm_compute. reflexivity.
Qed.

(** The scan workflow alone reaches the same state when the lookup of the
    most recent item fails: getLatestQCStepForQRCode answers null, the
    scan goes to the entry path, and the direct INSERT stores a second
    active item for "X1".  With the procedure installed the start is
    rejected (entrance_error) and the item stays the only one. *)
Lemma failed_lookup_duplicates_active_item :
  (exists o w',
      Logic.processQRScan Logic.default_config 1 "X1" 8 5000
        (Sample.world_X1 [] [false; true]) = (Ok o, w')
      /\ Logic.type o = Logic.entrance_started
      /\ length (active_items 1 "X1" (steps (db w'))) = 2%nat)
  /\ (exists o w',
      Logic.processQRScan Logic.default_config 1 "X1" 8 5000
        (Sample.world_X1 Sample.procedures [false; true]) = (Ok o, w')
      /\ Logic.type o = Logic.entrance_error
      /\ active_items 1 "X1" (steps (db w')) = [Sample.item_X1]).
Proof.
  split; do 2 eexists; (split; [vm_compute; reflexivity|]); split; reflexivity.
Qed.

End UniqueActive.

(** ** Entry or exit: how processQRScan classifies a scan *)

Section Classification.
Import Store Spec.
Variable config : Logic.Config.

Lemma bind_ok {A B} (m : M A) (k : A -> M B) (w w' : World) (b : B) :
  bind m k w = (Ok b, w') ->
  exists a w1, m w = (Ok a, w1) /\ k a w1 = (Ok b, w').
Proof.
  unfold bind. destruct (m w) as [[a|e] w1]; [eauto|discriminate].
Qed.

Lemma ret_ok {A} (a b : A) (w w' : World) : ret a w = (Ok b, w') -> a = b /\ w = w'.
Proof. unfold ret. intros [= -> ->]. split; reflexivity. Qed.

Lemma top1_latest_in (l : list QCStep) (r : QCStep) :
  top1_latest l = Some r -> In r l.
Proof.
  unfold top1_latest.
  enough (forall acc, fold_left
            (fun best x => match best with
                           | None => Some x
                           | Some b => if StartTime b <=? StartTime x then Some x else Some b
                           end) l acc = Some r ->
          In r l \/ acc = Some r) as H.
  { intros Hl. destruct (H None Hl) as [?|?]; [assumption|discriminate]. }
  induction l as [|a l IH]; simpl; intros acc Hf; [now right|].
  apply IH in Hf as [Hin|Hacc]; [left; now right|].
  destruct acc as [b|].
  - destruct (StartTime b <=? StartTime a).
    + injection Hacc as ->. left. now left.
    + now right.
  - injection Hacc as ->. left. now left.
Qed.

Lemma latest_in (S : Z) (C : string) (l : list QCStep) (r : QCStep) :
  latest S C l = Some r -> In r l /\ for_code S C r = true.
Proof.
  intros H. apply top1_latest_in in H. now apply List.filter_In in H.
Qed.

Lemma head_option_list {A} (o : option A) : head (option_list o) = o.
Proof. now destruct o. Qed.

(** The entry path resolves, to one of its four outcomes. *)
Lemma processEntranceScan_resolves (S : Z) (C : string) (scan now : Z) (w : World) :
  exists o w', Logic.processEntranceScan config S C scan now w = (Ok o, w')
               /\ entry_outcome (Logic.type o).
Proof.
  unfold Logic.processEntranceScan, catch, entry_outcome.
  match goal with |- context [match ?body w with _ => _ end] =>
    destruct (body w) as [[o|e] w'] eqn:Hb end.
  2:{ do 2 eexists. split; [reflexivity|]. simpl. tauto. }
  exists o, w'. split; [reflexivity|].
  apply bind_ok in Hb as (n & w1 & _ & Hb).
  destruct (Z.of_nat n >=? _).
  { apply ret_ok in Hb as [<- _]. simpl. tauto. }
  apply bind_ok in Hb as (l & w2 & _ & Hb).
  destruct (existsb _ l).
  { apply ret_ok in Hb as [<- _]. simpl. tauto. }
  apply bind_ok in Hb as ([st|] & w3 & _ & Hb); [|discriminate].
  apply bind_ok in Hb as (? & w4 & _ & Hb).
  apply bind_ok in Hb as (? & w5 & _ & Hb).
  apply ret_ok in Hb as [<- _]. simpl. tauto.
Qed.

(** The exit path resolves, to one of its three outcomes. *)
Lemma processExitScan_resolves (S : Z) (C : string) (scan : Z) (r : QCStep)
    (now : Z) (w : World) :
  exists o w', Logic.processExitScan S C scan r now w = (Ok o, w')
               /\ exit_outcome (Logic.type o).
Proof.
  unfold Logic.processExitScan, catch, exit_outcome.
  match goal with |- context [match ?body w with _ => _ end] =>
    destruct (body w) as [[o|e] w'] eqn:Hb end.
  2:{ do 2 eexists. split; [reflexivity|]. simpl. tauto. }
  exists o, w'. split; [reflexivity|].
  destruct (negb _).
  { apply ret_ok in Hb as [<- _]. simpl. tauto. }
  apply bind_ok in Hb as ([st|] & w1 & _ & Hb); [|discriminate].
  apply bind_ok in Hb as (? & w2 & _ & Hb).
  apply bind_ok in Hb as (? & w3 & _ & Hb).
  apply ret_ok in Hb as [<- _]. simpl. tauto.
Qed.

Lemma catch_resolved {A} (m : M A) (h : string -> M A) (w w' : World) (a : A) :
  m w = (Ok a, w') -> catch m h w = (Ok a, w').
Proof. unfold catch. now intros ->. Qed.

Lemma validateSession_valid (S : Z) (w : World) :
  session_valid S (db w) -> answered 1 (faults w) = true ->
  exists row, Logic.validateSession S w
              = (Ok (Logic.mkValidation true (Some row)), with_faults w (tail (faults w))).
Proof.
  intros (row & Hfind & Hact) Hans. exists row.
  unfold Logic.validateSession, catch, bind, dbClient_getSessionWithType.
  rewrite query_read.
  destruct (faults w) as [|[] rest]; simpl in *; try discriminate;
    rewrite Hfind, Hact; reflexivity.
Qed.

Lemma getLatest_answered (S : Z) (C : string) (w : World) :
  answered 1 (faults w) = true ->
  Queries.getLatestQCStepForQRCode S C w
  = (Ok (latest S C (steps (db w))), with_faults w (tail (faults w))).
Proof.
  intros Hans.
  unfold Queries.getLatestQCStepForQRCode, catch, bind, SELECT_latest.
  rewrite query_read.
  destruct (faults w) as [|[] rest]; simpl in *; try discriminate;
    unfold ret; now rewrite head_option_list.
Qed.

(** What the code does: with a valid session and the two reads answered,
    the scan goes to the exit path exactly when the most recent row of
    the session for the code has its completion flag unset. *)
Lemma processQRScan_by_completion_flag (S : Z) (C : string) (scan now : Z) (w : World) :
  session_valid S (db w) -> answered 2 (faults w) = true ->
  Logic.processQRScan config S C scan now w =
    let w2 := with_faults w (drop 2 (faults w)) in
    match latest S C (steps (db w)) with
    | Some r =>
        if negb (Completed r)
        then Logic.processExitScan S C scan r now w2
        else Logic.processEntranceScan config S C scan now w2
    | None => Logic.processEntranceScan config S C scan now w2
    end.
Proof.
  intros Hvalid Hans.
  assert (answered 1 (faults w) = true) as Hans1.
  { destruct (faults w) as [|[] rest]; simpl in *; auto. }
  destruct (validateSession_valid S w Hvalid Hans1) as [row Hv].
  set (w1 := with_faults w (tail (faults w))).
  assert (answered 1 (faults w1) = true) as Hans2.
  { unfold w1. simpl. destruct (faults w) as [|[] [|[] rest]]; simpl in *; auto. }
  assert (with_faults w1 (tail (faults w1)) = with_faults w (drop 2 (faults w))) as Hw2.
  { unfold w1, with_faults. simpl. destruct (faults w) as [|? [|? ?]]; reflexivity. }
  cbv zeta.
  unfold Logic.processQRScan.
  match goal with |- catch ?m ?h w = ?rhs =>
    assert (m w = rhs) as Hm end.
  { unfold bind at 1. rewrite Hv. cbn [negb Logic.isValid].
    unfold bind. fold w1. rewrite (getLatest_answered S C w1 Hans2), Hw2.
    change (db w1) with (db w).
    destruct (latest S C (steps (db w))) as [r|]; [destruct (negb _)|]; reflexivity. }
  destruct (latest S C (steps (db w))) as [r|].
  - destruct (negb (Completed r)).
    + destruct (processExitScan_resolves S C scan r now
                  (with_faults w (drop 2 (faults w)))) as (o & w' & Ho & _).
      rewrite Ho in Hm |- *. now apply catch_resolved.
    + destruct (processEntranceScan_resolves S C scan now
                  (with_faults w (drop 2 (faults w)))) as (o & w' & Ho & _).
      rewrite Ho in Hm |- *. now apply catch_resolved.
  - destruct (processEntranceScan_resolves S C scan now
                (with_faults w (drop 2 (faults w)))) as (o & w' & Ho & _).
    rewrite Ho in Hm |- *. now apply catch_resolved.
Qed.


End Classification.

(** ** The store keeps unfinished rows active *)

Section OpenRows.
Import Store Spec.

Lemma update_keeps_open_rows (p : QCStep -> bool) (f : QCStep -> QCStep) (d d' : DB) (n : nat) :
  (forall r, checks (f r) = true -> Completed (f r) = false -> QCStatus (f r) = active) ->
  open_rows_active (steps d) ->
  update_where p f d = Done n d' ->
  open_rows_active (steps d').
Proof.
  intros Hf Hopen. unfold update_where.
  destruct (forallb _ (steps d)) eqn:Hall; [|discriminate].
  intros [= _ <-]. simpl. intros r Hin Hc.
  apply in_map_iff in Hin as (r0 & Hr & Hin0).
  rewrite forallb_forall in Hall. specialize (Hall r0 Hin0).
  destruct (p r0).
  - subst r. apply Hf; [|exact Hc].
    unfold row_ok in Hall. now apply andb_true_iff in Hall as [? _].
  - subst r. now apply Hopen.
Qed.

Lemma abort_image_never_open (reason : string) (now : Z) (r : QCStep) :
  checks (abort_image reason now r) = true ->
  Completed (abort_image reason now r) = false ->
  QCStatus (abort_image reason now r) = active.
Proof.
  intros Hck Hc. simpl in Hc.
  rewrite (abort_image_rejected reason now r Hc) in Hck. discriminate.
Qed.

(** X25.  Every statement that writes dbo.QualityControlSteps leaves each row
    whose completion flag is unset with status 'active': the inserts
    create such rows, the completions set the flag, and an abort that
    would leave the flag unset on an aborted row is rejected by the
    table. *)
Lemma statements_keep_open_rows_active (d d' : DB) :
  open_rows_active (steps d) ->
  (forall S C scan prio now rs,
      sp_StartQCStep S C scan prio now d = Done rs d' -> open_rows_active (steps d'))
  /\ (forall S C scan now rs,
      INSERT_step S C scan now d = Done rs d' -> open_rows_active (steps d'))
  /\ (forall S C scan rating defects desc notes now rs,
      sp_CompleteQCStep S C scan rating defects desc notes now d = Done rs d' ->
      open_rows_active (steps d'))
  /\ (forall scan stepId now rs,
      UPDATE_complete scan stepId now d = Done rs d' -> open_rows_active (steps d'))
  /\ (forall S reason now ns,
      sp_AbortActiveQCSteps S reason now d = Done ns d' -> open_rows_active (steps d'))
  /\ (forall S now n,
      UPDATE_abort S now d = Done n d' -> open_rows_active (steps d'))
  /\ (forall stepId reason now n,
      UPDATE_abort_one stepId reason now d = Done n d' -> open_rows_active (steps d'))
  /\ (forall days now n,
      DELETE_old days now d = Done n d' -> open_rows_active (steps d')).
Proof.
  intros Hopen.
  assert (forall r0, open_rows_active (steps d ++ [r0]) \/ QCStatus r0 <> active) as Hins.
  { intros r0. destruct (QCStatus r0) eqn:Hs; [left|right; discriminate|right; discriminate].
    intros r Hin Hc. apply in_app_or in Hin as [Hin|[<-|[]]]; auto. }
  repeat split.
  - intros S C scan prio now rs. unfold sp_StartQCStep, insert_step.
    destruct (existsb _ _); [discriminate|]. destruct (row_ok _ _); [|discriminate].
    intros [= _ <-]. simpl.
    destruct (Hins (new_step d S (nvarchar 500 C) scan prio now)) as [H|H]; [exact H|].
    now contradiction H.
  - intros S C scan now rs. unfold INSERT_step, insert_step.
    destruct (row_ok _ _); [|discriminate].
    intros [= _ <-]. simpl.
    destruct (Hins (new_step d S C scan 1 now)) as [H|H]; [exact H|].
    now contradiction H.
  - intros S C scan rating defects desc notes now rs. unfold sp_CompleteQCStep.
    destruct (top1_latest _); [|discriminate].
    destruct (update_where _ _ d) as [n d1|] eqn:Hup; [|discriminate].
    intros [= _ <-]. simpl.
    apply (update_keeps_open_rows _ _ d d1 n) in Hup; auto.
    intros r _ Hc. discriminate Hc.
  - intros scan stepId now rs. unfold UPDATE_complete.
    destruct (update_trigger d); [discriminate|].
    destruct (update_where _ _ d) as [n d1|] eqn:Hup; [|discriminate].
    intros [= _ <-].
    apply (update_keeps_open_rows _ _ d d1 n) in Hup; auto.
    intros r _ Hc. discriminate Hc.
  - intros S reason now ns. unfold sp_AbortActiveQCSteps.
    destruct (update_where _ _ d) as [n d1|] eqn:Hup; [|discriminate].
    intros [= _ <-]. simpl.
    apply (update_keeps_open_rows _ _ d d1 n) in Hup; auto.
    intros r. apply abort_image_never_open.
  - intros S now n Hup. unfold UPDATE_abort in Hup.
    apply (update_keeps_open_rows _ _ d d' n) in Hup; auto.
    intros r _ Hc. discriminate Hc.
  - intros stepId reason now n Hup. unfold UPDATE_abort_one in Hup.
    apply (update_keeps_open_rows _ _ d d' n) in Hup; auto.
    intros r. apply abort_image_never_open.
  - intros days now n. unfold DELETE_old. intros [= _ <-]. simpl.
    intros r Hin Hc. apply List.filter_In in Hin as [Hin _]. now apply Hopen.
Qed.

End OpenRows.


(** ** processQRScan resolves to a typed outcome *)

Section Outcomes.
Import Store Spec.
Variable config : Logic.Config.

Lemma validateSession_resolves (S : Z) (w : World) :
  exists v w1, Logic.validateSession S w = (Ok v, w1).
Proof.
  unfold Logic.validateSession, catch, bind, dbClient_getSessionWithType.
  rewrite query_read.
  destruct (faults w) as [|[] rest]; simpl.
  - destruct (List.find _ _) as [row|]; [destruct (s_Active row)|]; eauto.
  - eauto.
  - destruct (List.find _ _) as [row|]; [destruct (s_Active row)|]; eauto.
Qed.

Lemma getLatest_resolves (S : Z) (C : string) (w : World) :
  exists o w1, Queries.getLatestQCStepForQRCode S C w = (Ok o, w1).
Proof.
  unfold Queries.getLatestQCStepForQRCode, catch, bind, SELECT_latest.
  rewrite query_read.
  destruct (faults w) as [|[] rest]; simpl; eauto.
Qed.

(** C8.  processQRScan never rejects: on every world, plan of connection
    failures included, it resolves to an outcome object.  (1) The outcome
    is error exactly when the session check fails (no such session, an
    inactive one, or the store failing on that read); otherwise it is an
    outcome of the entry path or of the exit path.  (2) On the entry
    path, once the limit and same-day checks are passed, a rejected or
    empty startQCStep gives entrance_error.  (3) On the exit path, a
    rejected or empty completeQCStep gives exit_error, carrying the item
    that was looked up. *)
Theorem processQRScan_never_rejects (S : Z) (C : string) (scan now : Z) :
  (forall w, exists o w' v w1,
      Logic.processQRScan config S C scan now w = (Ok o, w')
      /\ Logic.validateSession S w = (Ok v, w1)
      /\ (Logic.isValid v = false ->
          o = Logic.failure Logic.error None unknown /\ w' = w1)
      /\ (Logic.isValid v = true ->
          entry_outcome (Logic.type o) \/ exit_outcome (Logic.type o)))
  /\ (forall w n w1 l w2 res w3,
      Logic.getActiveStepsCount S w = (Ok n, w1) ->
      (Z.of_nat n >=? Logic.maxParallelStepsPerSession config) = false ->
      Queries.getCompletedQCStepsToday S now w1 = (Ok l, w2) ->
      existsb (fun st => String.eqb (QrCode st) C) l = false ->
      Logic.startQCStep config S C scan None now w2 = (res, w3) ->
      (res = Ok None \/ exists e, res = Throw e) ->
      Logic.processEntranceScan config S C scan now w
      = (Ok (Logic.failure Logic.entrance_error None entrance), w3))
  /\ (forall r w res w1,
      QrCode r = C ->
      Logic.completeQCStep S C scan now w = (res, w1) ->
      (res = Ok None \/ exists e, res = Throw e) ->
      Logic.processExitScan S C scan r now w
      = (Ok (Logic.failure Logic.exit_error (Some r) exit), w1)).
Proof.
  repeat split.
  - intros w.
    destruct (validateSession_resolves S w) as (v & w1 & Hv).
    unfold Logic.processQRScan, catch, bind. rewrite Hv.
    destruct (Logic.isValid v) eqn:Hvalid; simpl.
    + destruct (getLatest_resolves S C w1) as (ex & w2 & Hl). rewrite Hl.
      destruct ex as [st|].
      * destruct (negb (Completed st)).
        -- destruct (processExitScan_resolves S C scan st now w2) as (o & w' & -> & Ho).
           exists o, w', v, w1.
           split; [reflexivity|]. split; [reflexivity|].
           split; [intros Hf; congruence | intros _; auto].
        -- destruct (processEntranceScan_resolves config S C scan now w2)
             as (o & w' & -> & Ho).
           exists o, w', v, w1.
           split; [reflexivity|]. split; [reflexivity|].
           split; [intros Hf; congruence | intros _; auto].
      * destruct (processEntranceScan_resolves config S C scan now w2)
          as (o & w' & -> & Ho).
        exists o, w', v, w1.
           split; [reflexivity|]. split; [reflexivity|].
           split; [intros Hf; congruence | intros _; auto].
    + exists (Logic.failure Logic.error None unknown), w1, v, w1.
      split; [reflexivity|]. split; [reflexivity|].
      split; [intros _; split; reflexivity | intros Hf; congruence].
  - intros w n w1 l w2 res w3 Hn Hlim Hl Hnot Hstart Hres.
    unfold Logic.processEntranceScan, catch, bind.
    rewrite Hn, Hlim, Hl, Hnot, Hstart.
    destruct Hres as [-> | [e ->]]; reflexivity.
  - intros r w res w1 Hcode Hdone Hres.
    unfold Logic.processExitScan, catch, bind.
    rewrite Hcode, String.eqb_refl. simpl. rewrite Hdone.
    destruct Hres as [-> | [e ->]]; reflexivity.
Qed.

End Outcomes.

(** ** The parallel-step limit *)

Section Limit.
Import Store Spec.
Variable config : Logic.Config.

(** Past the limit check, the entry path resolves to one of its three
    other outcomes. *)
Lemma entry_past_limit (S : Z) (C : string) (scan now : Z) (w w1 : World) (n : nat) :
  Logic.getActiveStepsCount S w = (Ok n, w1) ->
  (Z.of_nat n >=? Logic.maxParallelStepsPerSession config) = false ->
  exists o w', Logic.processEntranceScan config S C scan now w = (Ok o, w')
               /\ Logic.type o <> Logic.limit_exceeded.
Proof.
  intros Hn Hlim.
  unfold Logic.processEntranceScan, catch.
  match goal with |- context [match ?body w with _ => _ end] =>
    destruct (body w) as [[o|e] w'] eqn:Hb end.
  2:{ do 2 eexists. split; [reflexivity|]. simpl. discriminate. }
  exists o, w'. split; [reflexivity|].
  unfold bind at 1 in Hb. rewrite Hn, Hlim in Hb.
  apply bind_ok in Hb as (l & w2 & _ & Hb).
  destruct (existsb _ l).
  { apply ret_ok in Hb as [<- _]. simpl. discriminate. }
  apply bind_ok in Hb as ([st|] & w3 & _ & Hb); [|discriminate].
  apply bind_ok in Hb as (? & w4 & _ & Hb).
  apply bind_ok in Hb as (? & w5 & _ & Hb).
  apply ret_ok in Hb as [<- _]. simpl. discriminate.
Qed.

(** getActiveStepsCount on a session the cache does not hold: the store
    is asked, and a failed read counts as no active step; either way the
    answer is cached. *)
Lemma getActiveStepsCount_miss (S : Z) (w : World) :
  activeStepsCache w !! S = None ->
  Logic.getActiveStepsCount S w =
    match faults w with
    | true :: rest =>
        (Ok 0%nat, mkWorld (db w) rest (<[S := ∅]> (activeStepsCache w)) (scanStateCache w))
    | _ =>
        let open := List.filter (fun r => (SessionID r =? S) && negb (Completed r))
                                (steps (db w)) in
        (Ok (length open),
         mkWorld (db w) (tail (faults w))
                 (<[S := list_to_set (map ID open)]> (activeStepsCache w))
                 (scanStateCache w))
    end.
Proof.
  intros Hmiss.
  unfold Logic.getActiveStepsCount, catch. rewrite Hmiss.
  unfold bind, Logic.getActiveQCStepsForSession, Queries.getActiveQCStepsForSession,
    catch, SELECT_open_steps.
  rewrite query_read.
  destruct (faults w) as [|[] rest]; reflexivity.
Qed.

(** C10.  When the cache does not hold the session and the read of its
    active steps fails, getActiveStepsCount resolves to 0 and does not
    reject, whatever the database holds; the entry scan that asked then
    passes the limit check (for a positive limit), so its outcome is not
    limit_exceeded. *)
Theorem count_fails_open (S : Z) (C : string) (scan now : Z) (w : World)
    (rest : list bool) :
  activeStepsCache w !! S = None ->
  faults w = true :: rest ->
  0 < Logic.maxParallelStepsPerSession config ->
  (exists w1, Logic.getActiveStepsCount S w = (Ok 0%nat, w1)
              /\ db w1 = db w /\ faults w1 = rest)
  /\ (exists o w', Logic.processEntranceScan config S C scan now w = (Ok o, w')
                   /\ Logic.type o <> Logic.limit_exceeded).
Proof.
  intros Hmiss Hf Hmax.
  pose proof (getActiveStepsCount_miss S w Hmiss) as Hcount.
  rewrite Hf in Hcount.
  split.
  - eexists. split; [exact Hcount|]. split; reflexivity.
  - apply (entry_past_limit S C scan now w _ 0%nat Hcount).
    rewrite Z.geb_leb. change (Z.of_nat 0) with 0. apply Z.leb_gt. exact Hmax.
Qed.

Lemma NoDup_map_filter {A B} (f : A -> B) (p : A -> bool) (l : list A) :
  NoDup (map f l) -> NoDup (map f (List.filter p l)).
Proof.
  induction l as [|a l IH]; simpl; [auto|].
  intros Hnd. apply NoDup_cons in Hnd as [Hnotin Hnd].
  destruct (p a); simpl; [|auto].
  apply NoDup_cons. split; [|auto].
  intros Hin. apply Hnotin.
  apply list_elem_of_In in Hin. apply list_elem_of_In.
  apply in_map_iff in Hin as (x & Hx & Hxin).
  apply in_map_iff. exists x. split; [exact Hx|].
  now apply List.filter_In in Hxin as [? _].
Qed.

Lemma open_filter_is_active_filter (S : Z) (l : list QCStep) :
  open_rows_active l ->
  List.filter (fun r => (SessionID r =? S) && negb (Completed r)) l
  = List.filter (fun r => (SessionID r =? S) && awaiting_exit r) l.
Proof.
  intros Hopen. apply List.filter_ext_in. intros r Hin.
  unfold awaiting_exit, is_active.
  destruct (Completed r) eqn:Hc; simpl.
  - now rewrite !andb_false_r.
  - now rewrite (Hopen r Hin Hc).
Qed.

(** With the store answering and the cache coherent, the count the limit
    check uses is the number of active items of the session. *)
Lemma getActiveStepsCount_exact (S : Z) (w : World) :
  faults w = [] -> open_rows_active (steps (db w)) ->
  primary_key (steps (db w)) -> cache_coherent S w ->
  exists w1, Logic.getActiveStepsCount S w = (Ok (active_count S (steps (db w))), w1)
             /\ db w1 = db w /\ faults w1 = [].
Proof.
  intros Hq Hopen Hpk Hcache. unfold cache_coherent in Hcache.
  destruct (activeStepsCache w !! S) as [ids|] eqn:Hlook.
  - exists w. split; [|auto].
    unfold Logic.getActiveStepsCount, catch. rewrite Hlook. subst ids.
    unfold active_ids, active_count.
    rewrite size_list_to_set; [now rewrite length_map|].
    now apply NoDup_map_filter.
  - rewrite (getActiveStepsCount_miss S w Hlook), Hq. cbv zeta.
    rewrite (open_filter_is_active_filter S _ Hopen).
    eexists. split; [reflexivity|]. split; reflexivity.
Qed.

Lemma completedToday_quiet (S now : Z) (w : World) :
  faults w = [] ->
  Queries.getCompletedQCStepsToday S now w
  = (Ok (List.filter (fun r => (SessionID r =? S) && Completed r
                               && (date_of (StartTime r) =? date_of now))
                     (steps (db w))), w).
Proof.
  intros Hq. unfold Queries.getCompletedQCStepsToday, catch, SELECT_completed_today.
  rewrite query_read, Hq. destruct w; simpl in *; now subst.
Qed.

Lemma row_ok_new_step (d : DB) (S : Z) (C : string) (scan prio now : Z) :
  1 <= prio <= 3 -> fits 500 C = true ->
  existsb (fun s => s_ID s =? S) (sessions d) = true ->
  existsb (Z.eqb scan) (scans d) = true ->
  row_ok d (new_step d S C scan prio now) = true.
Proof.
  intros [Hlo Hhi] Hfit Hsess Hscan.
  unfold row_ok, checks, CK_Times, CK_Completed, CK_Priority, CK_QualityRating,
    CK_DefectLogic, column_sizes, foreign_keys, references. simpl.
  rewrite Hfit, Hsess, Hscan.
  apply Z.leb_le in Hlo. apply Z.leb_le in Hhi. now rewrite Hlo, Hhi.
Qed.

(** A first start of a code in a session that exists, with a saved scan,
    a code that fits its column and a valid configured priority, stores
    one new active item, by procedure or by direct INSERT. *)
Lemma startQCStep_fresh (S : Z) (C : string) (scan now : Z) (w : World) :
  faults w = [] ->
  List.filter (for_code S C) (steps (db w)) = [] ->
  fits 500 C = true ->
  1 <= Logic.defaultPriority config <= 3 ->
  existsb (fun s => s_ID s =? S) (sessions (db w)) = true ->
  existsb (Z.eqb scan) (scans (db w)) = true ->
  exists r d',
    Logic.startQCStep config S C scan None now w = (Ok (Some r), with_db w d')
    /\ steps d' = steps (db w) ++ [r]
    /\ SessionID r = S /\ QrCode r = C /\ awaiting_exit r = true.
Proof.
  intros Hq Hfresh Hfit Hprio Hsess Hscan.
  unfold Logic.startQCStep, bind.
  destruct (hasStoredProcedure_quiet "sp_StartQCStep" w Hq) as [b ->].
  destruct b.
  - rewrite (query_quiet _ w Hq). unfold sp_StartQCStep.
    rewrite (nvarchar_fits 500 C Hfit).
    assert (existsb (fun r => for_code S C r && is_active r) (steps (db w)) = false) as ->.
    { apply not_true_is_false. intros Hex.
      apply existsb_exists in Hex as (x & Hx & Hp).
      apply andb_true_iff in Hp as [Hfc _].
      assert (In x (List.filter (for_code S C) (steps (db w)))) as Hin
        by (apply List.filter_In; auto).
      rewrite Hfresh in Hin. destruct Hin. }
    unfold insert_step.
    assert (Logic.js_or None (Logic.defaultPriority config) = Logic.defaultPriority config)
      as -> by reflexivity.
    rewrite row_ok_new_step by assumption.
    do 2 eexists. split; [reflexivity|]. simpl.
    repeat split.
  - unfold Queries.startQCStep, bind.
    rewrite (query_quiet _ w Hq). unfold INSERT_step, insert_step.
    rewrite row_ok_new_step by (auto; lia).
    do 2 eexists. split; [reflexivity|]. simpl.
    repeat split.
Qed.

Lemma active_count_app (S : Z) (l1 l2 : list QCStep) :
  active_count S (l1 ++ l2) = (active_count S l1 + active_count S l2)%nat.
Proof. unfold active_count. now rewrite List.filter_app, length_app. Qed.

(** getActiveStepsCount resolves on every world and writes nothing to
    the database. *)
Lemma getActiveStepsCount_resolves (S : Z) (w : World) :
  exists n w1, Logic.getActiveStepsCount S w = (Ok n, w1)
               /\ db w1 = db w /\ (faults w = [] -> faults w1 = []).
Proof.
  destruct (activeStepsCache w !! S) as [ids|] eqn:Hlook.
  - exists (size ids), w. split; [|auto].
    unfold Logic.getActiveStepsCount, catch. now rewrite Hlook.
  - rewrite (getActiveStepsCount_miss S w Hlook).
    destruct (faults w) as [|[] rest]; do 2 eexists;
      (split; [reflexivity|]); split; try reflexivity; discriminate.
Qed.


End Limit.

(** ** Restarting a session with an active item *)

Section Restart.
Import Store Spec.

(** A row whose completion flag is unset sends the next scan of its code
    to the exit path whatever its status column says, aborted included:
    the outcome is one of the exit path, never entrance_started. *)
Lemma unfinished_row_goes_to_exit (config : Logic.Config) (S : Z) (C : string)
    (scan now : Z) (w : World) (r : QCStep) :
  session_valid S (db w) -> answered 2 (faults w) = true ->
  latest S C (steps (db w)) = Some r -> Completed r = false ->
  exists o w', Logic.processQRScan config S C scan now w = (Ok o, w')
               /\ exit_outcome (Logic.type o)
               /\ Logic.type o <> Logic.entrance_started.
Proof.
  intros Hvalid Hans Hl Hc.
  rewrite processQRScan_by_completion_flag by assumption.
  cbv zeta. rewrite Hl, Hc. simpl.
  destruct (processExitScan_resolves S C scan r now
              (with_faults w (drop 2 (faults w)))) as (o & w' & Ho & Hout).
  exists o, w'. split; [exact Ho|]. split; [exact Hout|].
  destruct Hout as [H|[H|H]]; rewrite H; discriminate.
Qed.

(** X26.  A row of the same day whose completion flag is set sends the next
    scan of its code to the entry path, where it counts as completed
    today: the outcome is already_completed (store answering, limit not
    reached). *)
Lemma finished_row_blocks_reentry (config : Logic.Config) (S : Z) (C : string)
    (scan now : Z) (w w1 : World) (r : QCStep) (n : nat) :
  faults w = [] -> session_valid S (db w) ->
  latest S C (steps (db w)) = Some r -> Completed r = true ->
  date_of (StartTime r) = date_of now ->
  Logic.getActiveStepsCount S w = (Ok n, w1) ->
  (Z.of_nat n >=? Logic.maxParallelStepsPerSession config) = false ->
  Logic.processQRScan config S C scan now w
  = (Ok (Logic.failure Logic.already_completed None entrance), w1).
Proof.
  intros Hq Hvalid Hl Hc Hday Hn Hlim.
  rewrite processQRScan_by_completion_flag; [|assumption|now rewrite Hq].
  cbv zeta. rewrite Hl, Hc. simpl.
  assert (with_faults w (drop 2 (faults w)) = w) as ->.
  { rewrite Hq. destruct w; simpl in *; now subst. }
  destruct (getActiveStepsCount_resolves S w) as (n' & w1' & Hn' & Hdb & Hq1).
  rewrite Hn in Hn'. injection Hn' as <- <-. specialize (Hq1 Hq).
  unfold Logic.processEntranceScan, catch, bind. rewrite Hn, Hlim.
  rewrite (completedToday_quiet S now w1 Hq1).
  apply latest_in in Hl as [Hin Hfc].
  unfold for_code in Hfc. apply andb_true_iff in Hfc as [HS HC].
  assert (existsb (fun st => String.eqb (QrCode st) C)
            (List.filter (fun r0 => (SessionID r0 =? S) && Completed r0
                                    && (date_of (StartTime r0) =? date_of now))
                         (steps (db w1))) = true) as ->.
  { apply existsb_exists. exists r. split; [|exact HC].
    apply List.filter_In. rewrite Hdb. split; [exact Hin|].
    rewrite HS, Hc, Hday, Z.eqb_refl. reflexivity. }
  reflexivity.
Qed.

(** C2 (as the code behaves).  Session 1 scans "X1" and gets
    entrance_started; the session is restarted; "X1" is scanned again.
    The restart handler answers false: its abort is rejected by the
    table, so the item is still active, the session row is not touched,
    and the next scan of "X1" is an exit, exit_completed.  This is so
    with the procedures installed and without them. *)
Theorem restart_then_scan_is_exit (routines : list string) :
  routines = Sample.procedures \/ routines = [] ->
  exists o1 w1 w2 o3 w3,
    Logic.processQRScan Logic.default_config 1 "X1" 7 1000 (Sample.world routines [])
      = (Ok o1, w1)
    /\ Logic.type o1 = Logic.entrance_started
    /\ MainApp.session_restart true 1 5 2000 w1 = (Ok false, w2)
    /\ db w2 = db w1
    /\ active_items 1 "X1" (steps (db w2)) = [Sample.item_X1]
    /\ Logic.processQRScan Logic.default_config 1 "X1" 8 6000 w2 = (Ok o3, w3)
    /\ Logic.type o3 = Logic.exit_completed
    /\ active_items 1 "X1" (steps (db w3)) = [].
Proof.
  intros [-> | ->].
  - do 5 eexists. split; [vm_compute; reflexivity|].
    split; [reflexivity|]. split; [vm_compute; reflexivity|].
    split; [reflexivity|]. split; [reflexivity|].
    split; [vm_compute; reflexivity|]. split; reflexivity.
  - do 5 eexists. split; [vm_compute; reflexivity|].
    split; [reflexivity|]. split; [vm_compute; reflexivity|].
    split; [reflexivity|]. split; [reflexivity|].
    split; [vm_compute; reflexivity|]. split; reflexivity.
Qed.

(** The same at the deployment with the procedures installed. *)
Lemma restart_then_scan_is_exit_witness :
  exists o1 w1 w2 o3 w3,
    Logic.processQRScan Logic.default_config 1 "X1" 7 1000
      (Sample.world Sample.procedures []) = (Ok o1, w1)
    /\ Logic.type o1 = Logic.entrance_started
    /\ MainApp.session_restart true 1 5 2000 w1 = (Ok false, w2)
    /\ db w2 = db w1
    /\ active_items 1 "X1" (steps (db w2)) = [Sample.item_X1]
    /\ Logic.processQRScan Logic.default_config 1 "X1" 8 6000 w2 = (Ok o3, w3)
    /\ Logic.type o3 = Logic.exit_completed
    /\ active_items 1 "X1" (steps (db w3)) = [].
Proof.
  apply (restart_then_scan_is_exit Sample.procedures). left. reflexivity.
Defined.

End Restart.

(** ** Duplicate suppression in the renderer *)

Section Suppression.
Import Renderer.

Lemma accepted_records (c : string) (t : Z) (a a1 : App) :
  handleQRCodeDetected c t a = (accepted, a1) ->
  recentlyScanned a1 !! c = Some t /\ scanCooldown a1 = scanCooldown a.
Proof.
  unfold handleQRCodeDetected.
  destruct (selectedSession a); [|discriminate].
  destruct (_ && _); [discriminate|].
  destruct (recently a c t); [discriminate|].
  destruct (bool_decide _); [discriminate|].
  intros [= <-]. simpl. split; [apply lookup_insert_eq|reflexivity].
Qed.

Lemma step_keeps_cooldown (a : App) (e : event) :
  scanCooldown (step a e) = scanCooldown a.
Proof.
  destruct e as [c t|c|t|s]; simpl; try reflexivity.
  unfold handleQRCodeDetected.
  destruct (selectedSession a); [|reflexivity].
  destruct (_ && _); [reflexivity|].
  destruct (recently a c t); [reflexivity|].
  destruct (bool_decide _); reflexivity.
Qed.

Lemma step_keeps_record (c : string) (t1 t2 : Z) (a : App) (e : event) :
  Spec.between c t2 e -> t2 - t1 < 60 * 1000 ->
  recentlyScanned a !! c = Some t1 ->
  recentlyScanned (step a e) !! c = Some t1.
Proof.
  intros Hb Hwin Hrec.
  destruct e as [c' t|c'|tc|s]; simpl in *; try exact Hrec.
  - unfold handleQRCodeDetected.
    destruct (selectedSession a); [|exact Hrec].
    destruct (_ && _); [exact Hrec|].
    destruct (recently a c' t); [exact Hrec|].
    destruct (bool_decide _); [exact Hrec|].
    simpl. now rewrite lookup_insert_ne.
  - apply map_lookup_filter_Some. split; [exact Hrec|]. simpl. lia.
Qed.

Lemma run_keeps_record (c : string) (t1 t2 : Z) (evs : list event) (a : App) :
  Forall (Spec.between c t2) evs -> t2 - t1 < 60 * 1000 ->
  recentlyScanned a !! c = Some t1 ->
  recentlyScanned (run a evs) !! c = Some t1
  /\ scanCooldown (run a evs) = scanCooldown a.
Proof.
  intros Hall Hwin. revert a.
  induction Hall as [|e evs He Hall IH]; intros a Hrec; simpl; [auto|].
  destruct (IH (step a e)) as [H1 H2].
  - now apply (step_keeps_record c t1 t2).
  - split; [exact H1|]. now rewrite H2, step_keeps_cooldown.
Qed.

(** The three checks run in the order immediate repeat, cooldown,
    in-flight; a dropped detection changes no field. *)
Lemma checks_in_order (c : string) (now : Z) (a : App) (s : Z) :
  selectedSession a = Some s ->
  let repeat_ := same_code (lastProcessedQR a) c && (now - lastProcessedTime a <? 2000) in
  let cool := recently a c now in
  let flying := bool_decide (c ∈ pendingScans a) in
  ((handleQRCodeDetected c now a).1 = immediate_repeat <-> repeat_ = true)
  /\ ((handleQRCodeDetected c now a).1 = cooling_down <-> repeat_ = false /\ cool = true)
  /\ ((handleQRCodeDetected c now a).1 = in_flight
      <-> repeat_ = false /\ cool = false /\ flying = true)
  /\ ((handleQRCodeDetected c now a).1 = accepted
      <-> repeat_ = false /\ cool = false /\ flying = false)
  /\ ((handleQRCodeDetected c now a).1 <> accepted -> (handleQRCodeDetected c now a).2 = a).
Proof.
  intros Hsel. cbv zeta. unfold handleQRCodeDetected. rewrite Hsel.
  destruct (same_code (lastProcessedQR a) c && (now - lastProcessedTime a <? 2000));
    [|destruct (recently a c now); [|destruct (bool_decide (c ∈ pendingScans a))]];
    simpl; repeat split; try tauto; try discriminate; try (intros [? ?]; discriminate);
    try (intros (? & ? & ?); discriminate); try (intros H; now contradiction H).
Qed.

(** The checks are keyed by the code alone: which session is selected
    does not enter the verdict. *)
Lemma checks_keyed_by_code (c : string) (now : Z) (a : App) (s s' : Z) :
  (handleQRCodeDetected c now (step a (Select (Some s)))).1
  = (handleQRCodeDetected c now (step a (Select (Some s')))).1.
Proof.
  unfold handleQRCodeDetected, recently. simpl.
  destruct (_ && _); [reflexivity|].
  destruct (recentlyScanned a !! c) as [t|]; [destruct (_ && _); [reflexivity|]|];
    destruct (bool_decide _); reflexivity.
Qed.

(** C6.  A code is submitted and accepted at t1 (after the epoch, with a
    cooldown of at most a minute, 3000 ms by default).  Whatever happens
    next to other codes, to the selection and to the pending set, a
    second submission of the same code at t2 with t2 - t1 below the
    cooldown is dropped: by the immediate-repeat check if that one
    applies, else by the cooldown check, the in-flight guard being last
    in line.  The drop changes no field of the application and does not
    reach saveScan.  The checks read the code, never the session. *)
Theorem second_submission_dropped (c : string) (t1 t2 : Z) (a0 a1 : App)
    (evs : list event) :
  handleQRCodeDetected c t1 a0 = (accepted, a1) ->
  t1 <> 0 ->
  scanCooldown a0 <= 60 * 1000 ->
  Forall (Spec.between c t2) evs ->
  selectedSession (run a1 evs) <> None ->
  t2 - t1 < scanCooldown a0 ->
  exists v, handleQRCodeDetected c t2 (run a1 evs) = (v, run a1 evs)
            /\ (v = immediate_repeat \/ v = cooling_down)
            /\ (v = immediate_repeat <->
                same_code (lastProcessedQR (run a1 evs)) c
                && (t2 - lastProcessedTime (run a1 evs) <? 2000) = true).
Proof.
  intros Hacc Hpos Hcool Hall Hsel Hclose.
  apply accepted_records in Hacc as [Hrec Hcd].
  destruct (run_keeps_record c t1 t2 evs a1 Hall ltac:(lia) Hrec) as [Hrec2 Hcd2].
  set (a2 := run a1 evs) in *.
  unfold handleQRCodeDetected.
  destruct (selectedSession a2); [|congruence].
  destruct (same_code (lastProcessedQR a2) c && (t2 - lastProcessedTime a2 <? 2000)).
  - exists immediate_repeat. split; [reflexivity|]. split; [now left|]. tauto.
  - assert (recently a2 c t2 = true) as ->.
    { unfold recently. rewrite Hrec2.
      apply andb_true_iff. split.
      - apply negb_true_iff. now apply Z.eqb_neq.
      - apply Z.ltb_lt. lia. }
    exists cooling_down. split; [reflexivity|]. split; [now right|].
    split; [discriminate|discriminate].
Qed.

(** The same for a first scan of "ABC123" by session 1 and a second one
    500 ms later, the first still being saved. *)
Lemma second_submission_dropped_witness :
  exists v,
    handleQRCodeDetected "ABC123" (Sample.first_scan_time + 500) (run Sample.app1 [])
    = (v, run Sample.app1 [])
    /\ (v = immediate_repeat \/ v = cooling_down)
    /\ (v = immediate_repeat <->
        same_code (lastProcessedQR (run Sample.app1 [])) "ABC123"
        && (Sample.first_scan_time + 500 - lastProcessedTime (run Sample.app1 []) <? 2000)
        = true).
Proof.
  apply (second_submission_dropped "ABC123" Sample.first_scan_time
           (Sample.first_scan_time + 500) Sample.app0 Sample.app1 []).
  - vm_compute. reflexivity.
  - vm_compute. discriminate.
  - vm_compute. discriminate.
  - constructor.
  - vm_compute. discriminate.
  - vm_compute. reflexivity.
Defined.

End Suppression.

(** ** The per-session rate limiter *)

Section RateLimit.
Import MainApp.
Variable Backend : Type.
Variable saveQRScan : Z -> string -> Z -> Backend -> result ScanResult * Backend.

Lemma check_result (S now : Z) (st : State) :
  let kept := List.filter (fun time => now - time <? oneMinute) (recorded S st) in
  (checkQRScanRateLimit S now st).1 = (length kept <? maxQRScansPerMinute st)%nat
  /\ recorded S (checkQRScanRateLimit S now st).2 = kept
  /\ maxQRScansPerMinute (checkQRScanRateLimit S now st).2 = maxQRScansPerMinute st
  /\ database (checkQRScanRateLimit S now st).2 = database st
  /\ (forall S', S' <> S ->
        qrScanRateLimit (checkQRScanRateLimit S now st).2 !! S' = qrScanRateLimit st !! S').
Proof.
  unfold checkQRScanRateLimit, recorded. simpl. repeat split.
  - now rewrite lookup_insert_eq.
  - intros S' Hne. now rewrite lookup_insert_ne.
Qed.

Lemma filter_all {A} (p : A -> bool) (l : list A) :
  (forall x, In x l -> p x = true) -> List.filter p l = l.
Proof.
  induction l as [|a l IH]; simpl; intros H; [reflexivity|].
  rewrite (H a) by now left. f_equal. apply IH. intros x Hx. apply H. now right.
Qed.

(** One scan that finds room in the window and is saved: its instant is
    appended to the session's record. *)
Lemma scan_recorded (S : Z) (payload : string) (now : Z) (st : State) (be : Backend) :
  database st = true ->
  (forall x, In x (recorded S st) -> now - x < oneMinute) ->
  (length (recorded S st) < maxQRScansPerMinute st)%nat ->
  (forall be0, exists res be1, saveQRScan S payload now be0 = (Ok res, be1)
                               /\ success res = true) ->
  exists res st' be',
    qr_scan_save Backend saveQRScan S payload now st be = (res, st', be')
    /\ success res = true
    /\ recorded S st' = recorded S st ++ [now]
    /\ maxQRScansPerMinute st' = maxQRScansPerMinute st
    /\ database st' = true.
Proof.
  intros Hdb Hwin Hroom Hsave.
  unfold qr_scan_save. rewrite Hdb. cbn [negb].
  destruct (check_result S now st) as (Hc & Hrec & Hmax & Hdb' & _).
  destruct (checkQRScanRateLimit S now st) as [ok st1] eqn:Hchk.
  cbn [fst snd] in *. cbv zeta in Hc, Hrec.
  rewrite filter_all in Hc, Hrec
    by (intros x Hx; apply Z.ltb_lt; now apply Hwin).
  subst ok. apply Nat.ltb_lt in Hroom. rewrite Hroom. cbn [negb].
  destruct (Hsave be) as (res & be1 & -> & Hok). rewrite Hok.
  exists res. do 2 eexists. split; [reflexivity|]. split; [exact Hok|].
  unfold updateQRScanRateLimit, recorded in *. simpl.
  rewrite lookup_insert_eq. simpl.
  rewrite Hmax. fold (recorded S st1). change (default [] (qrScanRateLimit st1 !! S))
    with (recorded S st1). unfold recorded. rewrite Hrec.
  assert ((maxQRScansPerMinute st <? length (default [] (qrScanRateLimit st !! S) ++ [now]))%nat
          = false) as ->.
  { apply Nat.ltb_ge. rewrite length_app. simpl. apply Nat.ltb_lt in Hroom. lia. }
  rewrite Hdb in Hdb'. auto.
Qed.

(** A run of scans that all find room and are all saved fills the record
    with their instants, in order. *)
Lemma scans_recorded (S tmax : Z) (scans : list (string * Z)) :
  (forall payload now be0, exists res be1,
      saveQRScan S payload now be0 = (Ok res, be1) /\ success res = true) ->
  forall (st : State) (be : Backend),
    database st = true ->
    (length (recorded S st) + length scans <= maxQRScansPerMinute st)%nat ->
    (forall x, In x (recorded S st ++ map snd scans) -> x <= tmax /\ tmax - x < oneMinute) ->
    exists results st' be',
      scan_all Backend saveQRScan S scans st be = (results, st', be')
      /\ Forall (fun res => success res = true) results
      /\ length results = length scans
      /\ recorded S st' = recorded S st ++ map snd scans
      /\ maxQRScansPerMinute st' = maxQRScansPerMinute st
      /\ database st' = true.
Proof.
  intros Hsave.
  induction scans as [|[payload now] rest IH]; intros st be Hdb Hroom Hwin.
  - simpl. exists [], st, be. rewrite app_nil_r. repeat split; auto.
  - simpl in Hroom.
    destruct (scan_recorded S payload now st be Hdb) as (res & st1 & be1 & Hone & Hok & Hrec & Hmax & Hdb1).
    { intros x Hx.
      destruct (Hwin x) as [_ Hx1]; [apply in_or_app; now left|].
      destruct (Hwin now) as [Hnow _]; [apply in_or_app; right; now left|].
      lia. }
    { lia. }
    { intros be0. apply Hsave. }
    destruct (IH st1 be1 Hdb1) as (results & st2 & be2 & Hall & Hoks & Hlen & Hrec2 & Hmax2 & Hdb2).
    { rewrite Hrec, Hmax, length_app. simpl. lia. }
    { intros x Hx. apply Hwin. rewrite Hrec, <- app_assoc in Hx. exact Hx. }
    simpl. rewrite Hone, Hall.
    exists (res :: results), st2, be2. split; [reflexivity|].
    split; [now constructor|]. split; [simpl; now rewrite Hlen|].
    split; [now rewrite Hrec2, Hrec, <- app_assoc|].
    split; [now rewrite Hmax2|exact Hdb2].
Qed.


End RateLimit.

(** ** Malformed codes *)

Section Malformed.
Import Store Spec.

(** validateQRCode accepts trimmed codes of 5 to 500 allowed characters. *)
Lemma validateQRCode_accepts (qr : string) :
  Logic.codeIsValid (Logic.validateQRCode qr) = true ->
  (5 <= String.length (Logic.trim qr) <= 500)%nat
  /\ forallb Logic.allowed (String.list_ascii_of_string (Logic.trim qr)) = true
  /\ Logic.normalizedCode (Logic.validateQRCode qr) = Some (Logic.trim qr).
Proof.
  unfold Logic.validateQRCode.
  destruct (String.eqb qr ""); [discriminate|].
  destruct (String.length (Logic.trim qr) <? 5)%nat eqn:Hlo; [discriminate|].
  destruct (500 <? String.length (Logic.trim qr))%nat eqn:Hhi; [discriminate|].
  destruct (forallb _ _) eqn:Hall; [|discriminate].
  intros _. apply Nat.ltb_ge in Hlo. apply Nat.ltb_ge in Hhi. auto.
Qed.

(** C9 (as the code behaves).  processQRScan does not consult
    validateQRCode, and nothing else in the workflow does.  The codes
    "ab" (too short), five blanks (empty once trimmed) and "ABC#1234"
    (a character outside the class) are all refused by validateQRCode,
    yet a scan of each by session 1 resolves to entrance_started and
    stores an active item under that code, and a second scan of "ab"
    completes the item. *)
Theorem malformed_code_reaches_store (routines : list string) :
  routines = Sample.procedures \/ routines = [] ->
  Logic.codeIsValid (Logic.validateQRCode "ab") = false
  /\ Logic.codeIsValid (Logic.validateQRCode "     ") = false
  /\ Logic.codeIsValid (Logic.validateQRCode "ABC#1234") = false
  /\ (forall code, code = "ab" \/ code = "     " \/ code = "ABC#1234" ->
      exists o w' r,
        Logic.processQRScan Logic.default_config 1 code 7 1000 (Sample.world routines [])
          = (Ok o, w')
        /\ Logic.type o = Logic.entrance_started
        /\ steps (db w') = [r] /\ QrCode r = code /\ awaiting_exit r = true)
  /\ (exists o1 w1 o2 w2 r,
        Logic.processQRScan Logic.default_config 1 "ab" 7 1000 (Sample.world routines [])
          = (Ok o1, w1)
        /\ Logic.processQRScan Logic.default_config 1 "ab" 8 5000 w1 = (Ok o2, w2)
        /\ Logic.type o2 = Logic.exit_completed
        /\ steps (db w2) = [r] /\ QrCode r = "ab" /\ Completed r = true).
Proof.
  intros Hr.
  split; [reflexivity|]. split; [reflexivity|]. split; [reflexivity|].
  split.
  - intros code Hcode.
    destruct Hr as [-> | ->]; destruct Hcode as [-> | [-> | ->]];
      do 3 eexists; (split; [vm_compute; reflexivity|]); repeat split.
  - destruct Hr as [-> | ->];
      do 5 eexists; (split; [vm_compute; reflexivity|]);
      (split; [vm_compute; reflexivity|]); repeat split.
Qed.

(** The same at the deployment with the procedures installed. *)
Lemma malformed_code_reaches_store_witness :
  Logic.codeIsValid (Logic.validateQRCode "ab") = false
  /\ exists o w' r,
      Logic.processQRScan Logic.default_config 1 "ab" 7 1000
        (Sample.world Sample.procedures []) = (Ok o, w')
      /\ Logic.type o = Logic.entrance_started
      /\ steps (db w') = [r] /\ QrCode r = "ab" /\ awaiting_exit r = true.
Proof.
  destruct (malformed_code_reaches_store Sample.procedures) as (H1 & _ & _ & H2 & _).
  - left. reflexivity.
  - split; [exact H1|]. apply H2. left. reflexivity.
Defined.

End Malformed.

(** ** The cache of active steps along the scan workflow *)

Section CacheExact.
Import Store Spec.
Variable config : Logic.Config.

Lemma elem_of_active_ids (x S : Z) (l : list QCStep) :
  x ∈ active_ids S l <->
  exists r, In r l /\ SessionID r = S /\ awaiting_exit r = true /\ ID r = x.
Proof.
  unfold active_ids. rewrite elem_of_list_to_set, list_elem_of_In, in_map_iff.
  split.
  - intros (r & Hid & Hin). apply List.filter_In in Hin as [Hin Hp].
    apply andb_true_iff in Hp as [HS Ha]. apply Z.eqb_eq in HS. eauto.
  - intros (r & Hin & HS & Ha & Hid). exists r. split; [exact Hid|].
    apply List.filter_In. split; [exact Hin|].
    apply andb_true_iff. split; [now apply Z.eqb_eq|exact Ha].
Qed.

(** An UPDATE by ID whose image is not active takes that ID out of the
    active sets. *)
Lemma active_ids_update (id S : Z) (f : QCStep -> QCStep) (l : list QCStep) :
  (forall r, ID (f r) = ID r /\ SessionID (f r) = SessionID r
             /\ awaiting_exit (f r) = false) ->
  active_ids S (map (fun r => if ID r =? id then f r else r) l)
  = active_ids S l ∖ {[id]}.
Proof.
  intros Hf. apply set_eq. intros x.
  rewrite elem_of_difference, !elem_of_active_ids, elem_of_singleton. split.
  - intros (r' & Hin & HS & Ha & Hid).
    apply in_map_iff in Hin as (r & Hr & Hin).
    destruct (ID r =? id) eqn:Hrid.
    + subst r'. destruct (Hf r) as (_ & _ & Hna). congruence.
    + subst r'. apply Z.eqb_neq in Hrid. split; [eauto|congruence].
  - intros [(r & Hin & HS & Ha & Hid) Hne].
    exists r. split; [|auto].
    apply in_map_iff. exists r. split; [|exact Hin].
    assert ((ID r =? id) = false) as -> by (apply Z.eqb_neq; congruence).
    reflexivity.
Qed.

(** An INSERT of an active row puts its ID into the set of its session. *)
Lemma active_ids_insert (S : Z) (r : QCStep) (l : list QCStep) :
  awaiting_exit r = true ->
  active_ids S (l ++ [r])
  = if SessionID r =? S then {[ID r]} ∪ active_ids S l else active_ids S l.
Proof.
  intros Ha. apply set_eq. intros x.
  destruct (SessionID r =? S) eqn:HS.
  - apply Z.eqb_eq in HS.
    rewrite elem_of_union, elem_of_singleton, !elem_of_active_ids. split.
    + intros (r' & Hin & HS' & Ha' & Hid).
      apply in_app_or in Hin as [Hin|[<-|[]]]; [right; eauto|left; auto].
    + intros [->|(r' & Hin & HS' & Ha' & Hid)].
      * exists r. split; [apply in_or_app; right; now left|auto].
      * exists r'. split; [apply in_or_app; now left|auto].
  - apply Z.eqb_neq in HS. rewrite !elem_of_active_ids. split.
    + intros (r' & Hin & HS' & Ha' & Hid).
      apply in_app_or in Hin as [Hin|[<-|[]]]; [eauto|congruence].
    + intros (r' & Hin & HS' & Ha' & Hid).
      exists r'. split; [apply in_or_app; now left|auto].
Qed.

Lemma store_ok_insert (d : DB) (r : QCStep) (a : list AuditRow) :
  store_ok d -> ID r = identity d -> QCStatus r = active -> checks r = true ->
  store_ok (mkDB (steps d ++ [r]) a (sessions d) (scans d) (routines d)
                 (update_trigger d) (identity d + 1)).
Proof.
  intros (Hopen & Hpk & Hall) Hid Hact Hck. split; [|split]; simpl.
  - intros x Hin Hc. apply in_app_or in Hin as [Hin|[<-|[]]]; auto.
  - unfold primary_key in *. rewrite map_app. simpl.
    apply NoDup_app. split; [exact Hpk|]. split; [|apply NoDup_singleton].
    intros x Hx Hx'. apply list_elem_of_In in Hx. apply list_elem_of_In in Hx'.
    destruct Hx' as [<-|[]].
    apply in_map_iff in Hx as (r0 & Hr0 & Hin).
    destruct (Hall r0 Hin) as [Hlt _]. lia.
  - intros x Hin. apply in_app_or in Hin as [Hin|[<-|[]]].
    + destruct (Hall x Hin). split; [lia|assumption].
    + split; [lia|exact Hck].
Qed.

Lemma store_ok_update (d d' : DB) (n : nat) (p : QCStep -> bool) (f : QCStep -> QCStep) :
  (forall r, ID (f r) = ID r) ->
  (forall r, checks (f r) = true -> Completed (f r) = false -> QCStatus (f r) = active) ->
  store_ok d -> update_where p f d = Done n d' -> store_ok d'.
Proof.
  intros Hid Hf (Hopen & Hpk & Hall) Hup.
  split; [|split].
  - now apply (update_keeps_open_rows p f d d' n).
  - unfold update_where in Hup. destruct (forallb _ _); [|discriminate].
    injection Hup as _ <-. simpl. unfold primary_key in *.
    rewrite map_map.
    erewrite map_ext; [exact Hpk|].
    intros r. simpl. destruct (p r); [apply Hid|reflexivity].
  - unfold update_where in Hup.
    destruct (forallb _ _) eqn:Hfa; [|discriminate].
    injection Hup as _ <-. simpl.
    rewrite forallb_forall in Hfa.
    intros x Hin. apply in_map_iff in Hin as (r & <- & Hin).
    specialize (Hfa r Hin). destruct (Hall r Hin) as [Hlt Hck].
    destruct (p r).
    + rewrite Hid. split; [exact Hlt|].
      unfold row_ok in Hfa. now apply andb_true_iff in Hfa as [? _].
    + auto.
Qed.

Lemma primary_key_inj (l : list QCStep) (r r0 : QCStep) :
  primary_key l -> In r l -> In r0 l -> ID r = ID r0 -> r = r0.
Proof.
  unfold primary_key. induction l as [|a l IH]; simpl; [tauto|].
  intros Hnd Hr Hr0 Hid. apply NoDup_cons in Hnd as [Hnotin Hnd].
  assert (forall x, In x l -> ID x <> ID a) as Hfresh.
  { intros x Hx Heq. apply Hnotin. apply list_elem_of_In, in_map_iff. eauto. }
  destruct Hr as [<-|Hr], Hr0 as [<-|Hr0]; auto.
  - exfalso. apply (Hfresh r0 Hr0). congruence.
  - exfalso. now apply (Hfresh r Hr).
Qed.

Lemma with_faults_quiet (w : World) : faults w = [] -> with_faults w [] = w.
Proof. intros H. destruct w; simpl in *; now subst. Qed.

(** On a store that answers, counting keeps the cache exact. *)
Lemma count_keeps_exact (S : Z) (w : World) :
  faults w = [] -> store_ok (db w) -> cache_exact w ->
  exists n w1, Logic.getActiveStepsCount S w = (Ok n, w1)
               /\ db w1 = db w /\ faults w1 = [] /\ cache_exact w1.
Proof.
  intros Hq (Hopen & _ & _) Hex.
  destruct (activeStepsCache w !! S) as [ids|] eqn:Hlook.
  - exists (size ids), w. split; [|auto].
    unfold Logic.getActiveStepsCount, catch. now rewrite Hlook.
  - rewrite (getActiveStepsCount_miss S w Hlook), Hq. cbv zeta.
    do 2 eexists. split; [reflexivity|]. split; [reflexivity|]. split; [reflexivity|].
    intros S'. simpl. rewrite lookup_insert. case_decide as HS.
    + subst S'. simpl. unfold active_ids.
      now rewrite (open_filter_is_active_filter S _ Hopen).
    + apply Hex.
Qed.

(** On a store that answers, a start either rejects and changes nothing,
    or appends one row: fresh ID, this session, active, constraints met. *)
Lemma startQCStep_quiet (S : Z) (C : string) (scan now : Z) (w : World) :
  faults w = [] ->
  (exists e, Logic.startQCStep config S C scan None now w = (Throw e, w))
  \/ (exists r a,
        Logic.startQCStep config S C scan None now w
        = (Ok (Some r),
           with_db w (mkDB (steps (db w) ++ [r]) a (sessions (db w)) (scans (db w))
                           (routines (db w)) (update_trigger (db w))
                           (identity (db w) + 1)))
        /\ ID r = identity (db w) /\ SessionID r = S
        /\ QCStatus r = active /\ Completed r = false /\ checks r = true).
Proof.
  intros Hq. unfold Logic.startQCStep, bind.
  destruct (hasStoredProcedure_quiet "sp_StartQCStep" w Hq) as [b ->].
  destruct b.
  - rewrite (query_quiet _ w Hq). unfold sp_StartQCStep.
    destruct (existsb _ _); [left; eauto|].
    unfold insert_step.
    destruct (row_ok _ _) eqn:Hok; [|left; eauto].
    right. do 2 eexists. split; [reflexivity|]. simpl.
    unfold row_ok in Hok. apply andb_true_iff in Hok as [Hck _]. auto.
  - unfold Queries.startQCStep, bind.
    rewrite (query_quiet _ w Hq). unfold INSERT_step, insert_step.
    destruct (row_ok _ _) eqn:Hok; [|left; eauto].
    right. do 2 eexists. split; [reflexivity|]. simpl.
    unfold row_ok in Hok. apply andb_true_iff in Hok as [Hck _]. auto.
Qed.

(** On a store that answers, the entry path keeps table and cache in step. *)
Lemma entry_keeps_exact (S : Z) (C : string) (scan now : Z) (w w' : World)
    (o : Logic.Outcome) :
  faults w = [] -> store_ok (db w) -> cache_exact w ->
  Logic.processEntranceScan config S C scan now w = (Ok o, w') ->
  faults w' = [] /\ store_ok (db w') /\ cache_exact w'.
Proof.
  intros Hq Hok Hex Hrun.
  destruct (count_keeps_exact S w Hq Hok Hex) as (n & w1 & Hn & Hdb & Hq1 & Hex1).
  rewrite <- Hdb in Hok.
  unfold Logic.processEntranceScan, catch, bind in Hrun. rewrite Hn in Hrun.
  destruct (Z.of_nat n >=? _).
  { injection Hrun as _ <-. auto. }
  rewrite (completedToday_quiet S now w1 Hq1) in Hrun.
  destruct (existsb _ _).
  { injection Hrun as _ <-. auto. }
  destruct (startQCStep_quiet S C scan now w1 Hq1)
    as [[e He] | (r & a & Hs & Hid & HS & Hact & Hc & Hck)].
  { rewrite He in Hrun. injection Hrun as _ <-. auto. }
  rewrite Hs in Hrun. unfold Logic.updateActiveStepsCache, Logic.updateScanStateCache,
    ret in Hrun. simpl in Hrun. injection Hrun as _ <-. simpl.
  split; [exact Hq1|]. split; [now apply store_ok_insert|].
  intros S'. simpl.
  rewrite active_ids_insert
    by (unfold awaiting_exit, is_active; now rewrite Hact, Hc).
  rewrite HS, lookup_insert. case_decide as HSS.
  - subst S'. rewrite Z.eqb_refl. simpl. now rewrite (Hex1 S).
  - assert ((S =? S') = false) as -> by now apply Z.eqb_neq.
    apply Hex1.
Qed.

Lemma head_filter_some {A} (p : A -> bool) (l : list A) (x : A) :
  In x l -> p x = true ->
  exists y, head (List.filter p l) = Some y /\ p y = true /\ In y l.
Proof.
  induction l as [|a l IH]; simpl; [tauto|].
  intros [<-|Hin] Hp.
  - rewrite Hp. simpl. eauto.
  - destruct (p a) eqn:Hpa; simpl; [eauto|].
    destruct (IH Hin Hp) as (y & Hy & Hpy & Hiny). eauto.
Qed.

Lemma with_db_same (w : World) : with_db w (db w) = w.
Proof. now destruct w. Qed.

(** On a store that answers, a completion either changes nothing and
    yields no item, or completes one row of the session and yields it. *)
Lemma completeQCStep_quiet (S : Z) (C : string) (scan now : Z) (w w2 : World)
    (res : result (option QCStep)) :
  faults w = [] -> store_ok (db w) ->
  Logic.completeQCStep S C scan now w = (res, w2) ->
  (w2 = w /\ forall st, res <> Ok (Some st))
  \/ (exists st r0 d',
        res = Ok (Some st) /\ w2 = with_db w d' /\ ID st = ID r0
        /\ In r0 (steps (db w)) /\ SessionID r0 = S /\ store_ok d'
        /\ forall S', active_ids S' (steps d') = active_ids S' (steps (db w)) ∖ {[ID r0]}).
Proof.
  intros Hq Hok. unfold Logic.completeQCStep, bind.
  destruct (hasStoredProcedure_quiet "sp_CompleteQCStep" w Hq) as [b ->].
  assert (forall (f : QCStep -> QCStep) (r0 : QCStep) (d1 : DB) (n : nat) (a : list AuditRow),
             In r0 (steps (db w)) -> SessionID r0 = S ->
             update_where (fun x => ID x =? ID r0) f (db w) = Done n d1 ->
             (forall x, ID (f x) = ID x /\ SessionID (f x) = SessionID x
                        /\ awaiting_exit (f x) = false) ->
             (forall x, checks (f x) = true -> Completed (f x) = false ->
                        QCStatus (f x) = active) ->
             exists st,
               head (List.filter (fun x => ID x =? ID r0) (steps d1)) = Some st
               /\ ID st = ID r0 /\ store_ok (with_audit d1 a)
               /\ forall S', active_ids S' (steps (with_audit d1 a))
                             = active_ids S' (steps (db w)) ∖ {[ID r0]}) as Hupd.
  { intros f r0 d1 n a Hin HS Hup Hf Hf'.
    pose proof (store_ok_update _ _ _ _ _ (fun x => proj1 (Hf x)) Hf' Hok Hup) as Hok1.
    apply update_where_steps in Hup as [Hsteps _].
    destruct (head_filter_some (fun x => ID x =? ID r0) (steps d1) (f r0))
      as (st & Hhead & Hp & _).
    { rewrite Hsteps. apply in_map_iff. exists r0. now rewrite Z.eqb_refl. }
    { destruct (Hf r0) as [-> _]. apply Z.eqb_refl. }
    exists st. split; [exact Hhead|]. split; [now apply Z.eqb_eq|].
    split; [exact Hok1|].
    intros S'. simpl. rewrite Hsteps. now apply active_ids_update. }
  destruct b.
  - rewrite (query_quiet _ w Hq). unfold sp_CompleteQCStep.
    destruct (top1_latest _) as [r0|] eqn:Htop.
    2:{ intros [= <- <-]. left. split; [reflexivity|discriminate]. }
    destruct (update_where _ _ (db w)) as [n d1|] eqn:Hup.
    2:{ intros [= <- <-]. left. split; [reflexivity|discriminate]. }
    apply top1_latest_in, List.filter_In in Htop as [Hin Hp].
    apply andb_true_iff in Hp as [Hfc _].
    unfold for_code in Hfc. apply andb_true_iff in Hfc as [HS _]. apply Z.eqb_eq in HS.
    destruct (Hupd _ r0 d1 n (audit d1 ++ [mkAudit (ID r0) completed_action])
                Hin HS Hup) as (st & Hhead & Hid & Hok1 & Hids); auto.
    { intros x _ Hc. discriminate Hc. }
    unfold ret. rewrite Hhead. intros [= <- <-].
    right. exists st, r0. eexists.
    split; [reflexivity|]. split; [reflexivity|]. split; [exact Hid|].
    split; [exact Hin|]. split; [exact HS|]. split; [exact Hok1|exact Hids].
  - unfold Queries.completeQCStep, bind.
    rewrite (query_quiet _ w Hq). unfold SELECT_open_step.
    rewrite with_db_same.
    destruct (top1_latest _) as [r0|] eqn:Htop; simpl.
    2:{ intros [= <- <-]. left. split; [reflexivity|discriminate]. }
    rewrite (query_quiet _ w Hq). unfold UPDATE_complete.
    destruct (update_trigger (db w)).
    { intros [= <- <-]. left. split; [reflexivity|discriminate]. }
    destruct (update_where _ _ (db w)) as [n d1|] eqn:Hup.
    2:{ intros [= <- <-]. left. split; [reflexivity|discriminate]. }
    apply top1_latest_in, List.filter_In in Htop as [Hin Hp].
    apply andb_true_iff in Hp as [Hfc _].
    unfold for_code in Hfc. apply andb_true_iff in Hfc as [HS _]. apply Z.eqb_eq in HS.
    destruct (Hupd _ r0 d1 n (audit d1) Hin HS Hup)
      as (st & Hhead & Hid & Hok1 & Hids); auto.
    { intros x. repeat split. unfold awaiting_exit. simpl. apply andb_false_r. }
    { intros x _ Hc. discriminate Hc. }
    unfold ret. rewrite Hhead. intros [= <- <-].
    right. exists st, r0, d1.
    assert (with_audit d1 (audit d1) = d1) as Hsame by now destruct d1.
    rewrite Hsame in Hok1, Hids.
    split; [reflexivity|]. split; [reflexivity|]. split; [exact Hid|].
    split; [exact Hin|]. split; [exact HS|]. split; [exact Hok1|exact Hids].
Qed.

(** On a store that answers, the exit path keeps table and cache in step. *)
Lemma exit_keeps_exact (S : Z) (C : string) (scan : Z) (r : QCStep) (now : Z)
    (w w' : World) (o : Logic.Outcome) :
  faults w = [] -> store_ok (db w) -> cache_exact w ->
  Logic.processExitScan S C scan r now w = (Ok o, w') ->
  faults w' = [] /\ store_ok (db w') /\ cache_exact w'.
Proof.
  intros Hq Hok Hex Hrun.
  unfold Logic.processExitScan, catch, bind in Hrun.
  destruct (negb _).
  { injection Hrun as _ <-. auto. }
  destruct (Logic.completeQCStep S C scan now w) as [res w2] eqn:Hdone.
  destruct (completeQCStep_quiet S C scan now w w2 res Hq Hok Hdone)
    as [[-> Hnone] | (st & r0 & d' & -> & -> & Hid & Hin & HS & Hok' & Hids)].
  - destruct res as [[st|]|e].
    + now contradiction (Hnone st).
    + injection Hrun as _ <-. auto.
    + injection Hrun as _ <-. auto.
  - unfold Logic.updateActiveStepsCache, Logic.updateScanStateCache, ret in Hrun.
    simpl in Hrun. injection Hrun as _ <-. simpl.
    split; [exact Hq|]. split; [exact Hok'|].
    intros S'. simpl. rewrite Hids, lookup_insert. case_decide as HSS.
    + subst S'. simpl. now rewrite (Hex S), Hid.
    + rewrite (Hex S').
      assert (ID r0 ∉ active_ids S' (steps (db w))) as Hnotin.
      { rewrite elem_of_active_ids. intros (x & Hx & HxS & _ & Hxid).
        destruct Hok as (_ & Hpk & _).
        assert (x = r0) as -> by now apply (primary_key_inj (steps (db w))).
        congruence. }
      apply set_eq. intros y. rewrite elem_of_difference, elem_of_singleton.
      split; [|tauto]. intros Hy. split; [exact Hy|]. intros ->. contradiction.
Qed.

Lemma validateSession_quiet (S : Z) (w : World) :
  faults w = [] -> exists v, Logic.validateSession S w = (Ok v, w).
Proof.
  intros Hq.
  unfold Logic.validateSession, catch, bind, dbClient_getSessionWithType.
  rewrite query_read, Hq. cbn [tail]. rewrite (with_faults_quiet w Hq). simpl.
  destruct (List.find _ _) as [row|]; [destruct (s_Active row)|]; eauto.
Qed.

(** X24.  Along the scan workflow, on a store that answers: if the table is
    well formed and the cache exact before processQRScan, they are so
    after it.  A fresh QualityControlLogic over a table without active
    items starts that way, so the count the limit check reads from the
    cache stays the number of active items in the store. *)
Theorem scan_keeps_cache_exact (S : Z) (C : string) (scan now : Z) (w w' : World)
    (o : Logic.Outcome) :
  faults w = [] -> store_ok (db w) -> cache_exact w ->
  Logic.processQRScan config S C scan now w = (Ok o, w') ->
  faults w' = [] /\ store_ok (db w') /\ cache_exact w'.
Proof.
  intros Hq Hok Hex Hrun.
  unfold Logic.processQRScan, catch in Hrun.
  unfold bind at 1 in Hrun.
  destruct (validateSession_quiet S w Hq) as [v Hv]. rewrite Hv in Hrun.
  destruct (negb (Logic.isValid v)).
  { injection Hrun as _ <-. auto. }
  unfold bind in Hrun.
  rewrite getLatest_answered in Hrun by now rewrite Hq.
  rewrite Hq in Hrun. simpl tail in Hrun. rewrite (with_faults_quiet w Hq) in Hrun.
  destruct (latest S C (steps (db w))) as [st|].
  - destruct (negb (Completed st)).
    + destruct (processExitScan_resolves S C scan st now w) as (o1 & w1 & Ho & _).
      rewrite Ho in Hrun. injection Hrun as <- <-.
      now apply (exit_keeps_exact S C scan st now w w1 o1).
    + destruct (processEntranceScan_resolves config S C scan now w) as (o1 & w1 & Ho & _).
      rewrite Ho in Hrun. injection Hrun as <- <-.
      now apply (entry_keeps_exact S C scan now w w1 o1).
  - destruct (processEntranceScan_resolves config S C scan now w) as (o1 & w1 & Ho & _).
    rewrite Ho in Hrun. injection Hrun as <- <-.
    now apply (entry_keeps_exact S C scan now w w1 o1).
Qed.

(** An exact cache is a coherent one. *)
Lemma cache_exact_coherent (S : Z) (w : World) : cache_exact w -> cache_coherent S w.
Proof.
  intros Hex. unfold cache_coherent. specialize (Hex S).
  destruct (activeStepsCache w !! S); [exact Hex|exact I].
Qed.

End CacheExact.

(** ** The properties at concrete inputs *)

Section Witnesses.
Import Store Spec.



(** An unknown session gives error; a connection lost at the insert
    gives entrance_error; one lost at the completion gives exit_error. *)
Lemma processQRScan_never_rejects_witness :
  (exists w', Logic.processQRScan Logic.default_config 2 "X1" 7 1000
                (Sample.world Sample.procedures [])
              = (Ok (Logic.failure Logic.error None unknown), w'))
  /\ (exists w', Logic.processEntranceScan Logic.default_config 1 "X1" 7 1000
                   (Sample.world Sample.procedures [false; false; false; true])
                 = (Ok (Logic.failure Logic.entrance_error None entrance), w'))
  /\ (exists w', Logic.processExitScan 1 "X1" 8 Sample.item_X1 5000
                   (Sample.world_X1 Sample.procedures [false; true])
                 = (Ok (Logic.failure Logic.exit_error (Some Sample.item_X1) exit), w')).
Proof.
  split; [|split].
  - destruct (processQRScan_never_rejects Logic.default_config 2 "X1" 7 1000)
      as (Hall & _ & _).
    destruct (Hall (Sample.world Sample.procedures []))
      as (o & w' & v & w1 & Hrun & Hv & Hbad & _).
    vm_compute in Hv. injection Hv as <- <-.
    destruct (Hbad eq_refl) as [-> _]. exists w'. exact Hrun.
  - destruct (processQRScan_never_rejects Logic.default_config 1 "X1" 7 1000)
      as (_ & Hentry & _).
    eexists. eapply Hentry.
    + vm_compute. reflexivity.
    + reflexivity.
    + vm_compute. reflexivity.
    + reflexivity.
    + vm_compute. reflexivity.
    + right. eexists. reflexivity.
  - destruct (processQRScan_never_rejects Logic.default_config 1 "X1" 8 5000)
      as (_ & _ & Hexit).
    eexists. eapply Hexit.
    + reflexivity.
    + vm_compute. reflexivity.
    + right. eexists. reflexivity.
Defined.

(** Session 1 holds an active item, the cache is cold and the read
    fails: the count is 0 and the entry scan is not limit_exceeded. *)
Lemma count_fails_open_witness :
  (exists w1, Logic.getActiveStepsCount 1 (Sample.world_X1 Sample.procedures [true])
              = (Ok 0%nat, w1)
              /\ db w1 = db (Sample.world_X1 Sample.procedures [true])
              /\ faults w1 = [])
  /\ (exists o w', Logic.processEntranceScan Logic.default_config 1 "X2" 8 2000
                     (Sample.world_X1 Sample.procedures [true]) = (Ok o, w')
                   /\ Logic.type o <> Logic.limit_exceeded).
Proof.
  apply (count_fails_open Logic.default_config 1 "X2" 8 2000
           (Sample.world_X1 Sample.procedures [true]) []).
  - vm_compute. reflexivity.
  - reflexivity.
  - vm_compute. reflexivity.
Defined.


End Witnesses.

(** * Further properties of the code *)

(** ** Texts for display: formatDuration, formatQRCode *)

Section Display.

(** Reading a field of the duration text back as a number. *)
Lemma toString_digits (n : Z) :
  0 <= n -> exists u, Z.to_int n = Decimal.Pos u
                      /\ Logic.toString n = DecimalString.NilEmpty.string_of_uint u.
Proof.
  intros Hn. unfold Logic.toString. destruct n as [|p|p]; [| |lia].
  - eexists. split; reflexivity.
  - eexists. split; reflexivity.
Qed.

Lemma padStart_long (n : nat) (c : ascii) (s : string) :
  (n <= String.length s)%nat -> Logic.padStart n c s = s.
Proof.
  intros H. unfold Logic.padStart.
  replace (n - String.length s)%nat with 0%nat by lia. reflexivity.
Qed.

Lemma field_reads_back (n : Z) :
  0 <= n ->
  option_map Z.of_int
    (DecimalString.NilEmpty.int_of_string (Logic.padStart 2 "0" (Logic.toString n)))
  = Some n.
Proof.
  intros Hn. destruct (toString_digits n Hn) as (u & Hu & Hs).
  assert (Hback : Z.of_int (Decimal.Pos u) = n) by (rewrite <- Hu; apply DecimalZ.of_to).
  rewrite Hs.
  destruct (DecimalString.NilEmpty.string_of_uint u) as [|a [|b t]] eqn:Hstr.
  - destruct u; try discriminate Hstr. cbn in Hback. subst n. reflexivity.
  - change (Logic.padStart 2 "0" (String a "")) with (String "0" (String a "")).
    rewrite <- Hstr. unfold DecimalString.NilEmpty.int_of_string. cbn.
    rewrite DecimalString.NilEmpty.usu. cbn. f_equal. rewrite <- Hback. reflexivity.
  - rewrite padStart_long by (cbn; lia).
    rewrite <- Hstr.
    change (DecimalString.NilEmpty.string_of_uint u)
      with (DecimalString.NilEmpty.string_of_int (Decimal.Pos u)).
    rewrite DecimalString.NilEmpty.isi. cbn [option_map]. now f_equal.
Qed.

Lemma field_inj (n m : Z) :
  0 <= n -> 0 <= m ->
  Logic.padStart 2 "0" (Logic.toString n) = Logic.padStart 2 "0" (Logic.toString m) ->
  n = m.
Proof.
  intros Hn Hm H.
  pose proof (field_reads_back n Hn) as H1. pose proof (field_reads_back m Hm) as H2.
  rewrite H in H1. congruence.
Qed.

Lemma field_two (n : Z) :
  0 <= n < 60 -> String.length (Logic.padStart 2 "0" (Logic.toString n)) = 2%nat.
Proof.
  intros Hn.
  assert (H : forallb (fun k => (String.length
                                   (Logic.padStart 2 "0" (Logic.toString (Z.of_nat k))) =? 2)%nat)
                      (seq 0 60) = true) by (vm_compute; reflexivity).
  rewrite forallb_forall in H.
  specialize (H (Z.to_nat n)). rewrite Z2Nat.id in H by lia.
  apply Nat.eqb_eq, H, in_seq. lia.
Qed.

Lemma string_app_inj (a a' b b' : string) :
  String.length a = String.length a' -> a +:+ b = a' +:+ b' -> a = a' /\ b = b'.
Proof.
  revert a'. induction a as [|x a IH]; intros [|x' a'] Hl H; try discriminate Hl.
  - now split.
  - cbn in H. injection H as -> H. injection Hl as Hl.
    destruct (IH a' Hl H) as [-> ->]. now split.
Qed.

Lemma string_app_length (a b : string) :
  String.length (a +:+ b) = (String.length a + String.length b)%nat.
Proof. induction a as [|x a IH]; simpl; [reflexivity|now rewrite IH]. Qed.



Lemma substring_prefix (a b : string) :
  String.substring 0 (String.length a) (a +:+ b) = a.
Proof. induction a as [|x a IH]; simpl; [now destruct b|now rewrite IH]. Qed.

Lemma substring_length (n : nat) (s : string) :
  (n <= String.length s)%nat -> String.length (String.substring 0 n s) = n.
Proof.
  revert s. induction n as [|n IH]; intros s H.
  - now destruct s.
  - destruct s as [|x s]; simpl in *; [lia|]. rewrite IH; [reflexivity|lia].
Qed.

(** X2.  formatQRCode never shows more than 23 characters, leaves a code
    of 1 to 20 characters as it is, and formatting its own output again
    changes nothing. *)
Theorem formatQRCode_bounded (qrCode : option string) :
  (String.length (Manager.formatQRCode qrCode) <= 23)%nat
  /\ Manager.formatQRCode (Some (Manager.formatQRCode qrCode)) = Manager.formatQRCode qrCode
  /\ (forall c, qrCode = Some c -> (1 <= String.length c <= 20)%nat ->
                Manager.formatQRCode qrCode = c).
Proof.
  assert (Hlong : forall c, (20 < String.length c)%nat ->
            String.length (String.substring 0 20 c +:+ "...") = 23%nat).
  { intros c Hc. rewrite string_app_length, substring_length by lia. reflexivity. }
  unfold Manager.formatQRCode. destruct qrCode as [c|].
  - destruct (Nat.eqb_spec (String.length c) 0) as [H0|H0].
    + repeat split; [cbn; lia|intros c' [= <-]; lia].
    + destruct (Nat.ltb_spec 20 (String.length c)) as [Hl|Hl].
      * rewrite (Hlong c Hl). cbn [Nat.eqb Nat.ltb Nat.leb].
        repeat split; [lia| |intros c' [= <-]; lia].
        pose proof (substring_prefix (String.substring 0 20 c) "...") as Hp.
        rewrite substring_length in Hp by lia. now rewrite Hp.
      * destruct (Nat.eqb_spec (String.length c) 0); [lia|].
        destruct (Nat.ltb_spec 20 (String.length c)); [lia|].
        repeat split; [lia|]. now intros c' [= <-].
  - repeat split; [cbn; lia|]. intros c [=].
Qed.

End Display.

(** ** The caches of QualityControlLogic and abortQCStep *)

Section CacheAndAbort.
Import Store Spec.

(** X3.  removeStepFromCache takes the step out of every cached set and
    then forgets every session whose set is empty, also one whose set
    was empty before: what stays cached is not empty and does not hold
    the step.  The database and the scan states are not touched. *)
Theorem removeStepFromCache_evicts (stepId : Z) (w : World) :
  exists w',
    Logic.removeStepFromCache stepId w = (Ok tt, w')
    /\ db w' = db w /\ faults w' = faults w /\ scanStateCache w' = scanStateCache w
    /\ (forall S ids,
          activeStepsCache w' !! S = Some ids
          <-> exists old, activeStepsCache w !! S = Some old
                          /\ ids = (old ∖ {[stepId]}) /\ ids ≠ ∅)
    /\ (forall S ids, activeStepsCache w' !! S = Some ids -> (stepId ∉ ids) /\ ids ≠ ∅)
    /\ (forall S old, activeStepsCache w !! S = Some old -> old ∖ {[stepId]} = ∅ ->
                      activeStepsCache w' !! S = None).
Proof.
  eexists. split; [reflexivity|]. cbn [db faults scanStateCache activeStepsCache].
  assert (Hiff : forall S ids,
            filter (fun kv : Z * gset Z => kv.2 ≠ ∅)
                   ((fun ids : gset Z => ids ∖ {[stepId]}) <$> activeStepsCache w) !! S = Some ids
            <-> exists old, activeStepsCache w !! S = Some old
                            /\ ids = (old ∖ {[stepId]}) /\ ids ≠ ∅).
  { intros S ids. rewrite map_lookup_filter_Some, lookup_fmap_Some. cbn [snd]. split.
    - intros [(old & <- & Hold) Hne]. eauto.
    - intros (old & Hold & -> & Hne). eauto. }
  repeat split; try reflexivity.
  - apply Hiff.
  - apply Hiff.
  - apply Hiff in H as (old & _ & -> & _).
    rewrite elem_of_difference, elem_of_singleton. now intros [_ []].
  - apply Hiff in H as (_ & _ & _ & Hne). exact Hne.
  - intros S old Hold Hempty.
    destruct (filter _ _ !! S) as [ids|] eqn:Hl; [|reflexivity].
    apply Hiff in Hl as (old' & Hold' & -> & Hne). congruence.
Qed.

(** A round trip either rejects and leaves database and caches alone, or
    the statement committed. *)
Lemma query_cases {A} (stmt : DB -> sql A) (w : World) :
  (exists e w1, dbClient_query stmt w = (Throw e, w1)
                /\ db w1 = db w /\ activeStepsCache w1 = activeStepsCache w
                /\ scanStateCache w1 = scanStateCache w)
  \/ (exists a d, stmt (db w) = Done a d
                  /\ dbClient_query stmt w
                     = (Ok a, with_db (with_faults w (tail (faults w))) d)).
Proof.
  unfold dbClient_query. destruct (faults w) as [|[|] rest] eqn:Hf.
  - cbn [tail]. change (db (with_faults w [])) with (db w).
    destruct (stmt (db w)) as [a d|m]; [right; eauto|left; eauto 10].
  - left. eauto 10.
  - cbn [tail]. change (db (with_faults w rest)) with (db w).
    destruct (stmt (db w)) as [a d|m]; [right; eauto|left; eauto 10].
Qed.

Lemma logAuditEvent_steps (config : Logic.Config) (stepId : Z) (a : action) (w : World) :
  exists w', Logic.logAuditEvent config stepId a w = (Ok tt, w')
             /\ steps (db w') = steps (db w)
             /\ activeStepsCache w' = activeStepsCache w.
Proof.
  unfold Logic.logAuditEvent. destruct (Logic.enableAuditLog config); [|eexists; eauto].
  unfold catch. destruct (query_cases (INSERT_audit stepId a) w)
    as [(e & w1 & -> & Hd & Hc & _)|(u & d & Hs & ->)].
  - eexists. split; [reflexivity|]. now rewrite Hd.
  - destruct u. eexists. split; [reflexivity|]. cbn. unfold INSERT_audit in Hs.
    destruct (existsb _ _); [|discriminate]. injection Hs as <-. auto.
Qed.

(** X4.  abortQCStep never aborts an item that awaits its exit scan.  On
    such a step the UPDATE sets EndTime and leaves Completed at 0, which
    CK_QualityControlSteps_Completed refuses: the call rejects and
    changes nothing.  In every case the items that await their exit scan
    are still in the table, unchanged, afterwards; a call that resolves
    to false changed no row; and a call that resolves to true found an
    active row of that ID that was completed already. *)
Theorem abortQCStep_spares_open_items (config : Logic.Config) (stepId : Z)
    (reason : string) (now : Z) (w : World) :
  let res := (Logic.abortQCStep config stepId reason now w).1 in
  let w' := (Logic.abortQCStep config stepId reason now w).2 in
  (forall r, In r (steps (db w)) -> awaiting_exit r = true -> In r (steps (db w')))
  /\ ((exists r, In r (steps (db w)) /\ ID r = stepId /\ awaiting_exit r = true) ->
      (exists e, res = Throw e) /\ db w' = db w
      /\ activeStepsCache w' = activeStepsCache w)
  /\ (res = Ok false -> steps (db w') = steps (db w)
                        /\ activeStepsCache w' = activeStepsCache w)
  /\ (res = Ok true ->
      exists r, In r (steps (db w)) /\ ID r = stepId
                /\ is_active r = true /\ Completed r = true).
Proof.
  cbv zeta. unfold Logic.abortQCStep, bind.
  destruct (query_cases (UPDATE_abort_one stepId reason now) w)
    as [(e & w1 & -> & Hd & Hc & _)|(n & d & Hs & ->)].
  - cbn [fst snd]. rewrite Hd. repeat split; eauto; discriminate.
  - unfold UPDATE_abort_one in Hs.
    pose proof (update_where_steps _ _ _ _ _ Hs) as [Hsteps Hn].
    assert (Hp : forall r, In r (steps (db w)) ->
              (ID r =? stepId) && is_active r = true -> Completed r = true).
    { intros r Hin Hr. destruct (Completed r) eqn:HC; [reflexivity|].
      rewrite (update_where_raises _ _ _ r Hin Hr
                 (abort_image_rejected reason now r HC)) in Hs. discriminate. }
    assert (Hkeep : forall r, In r (steps (db w)) -> awaiting_exit r = true -> In r (steps d)).
    { intros r Hin Hr. rewrite Hsteps. apply in_map_iff. exists r. split; [|exact Hin].
      destruct ((ID r =? stepId) && is_active r) eqn:Hm; [|reflexivity].
      apply (Hp r Hin) in Hm. unfold awaiting_exit in Hr. rewrite Hm in Hr.
      now rewrite andb_false_r in Hr. }
    assert (Hnone : (exists r, In r (steps (db w)) /\ ID r = stepId /\ awaiting_exit r = true)
                    -> False).
    { intros (r & Hin & Hid & Hr). unfold awaiting_exit in Hr.
      apply andb_true_iff in Hr as [Ha Hc].
      assert (Hm : (ID r =? stepId) && is_active r = true)
        by (rewrite Ha, andb_true_r; now apply Z.eqb_eq).
      apply (Hp r Hin) in Hm. rewrite Hm in Hc. discriminate. }
    destruct (0 <? n)%nat eqn:Hpos.
    + destruct (logAuditEvent_steps config stepId aborted_action
                  (Logic.removeStepFromCache stepId
                     (with_db (with_faults w (tail (faults w))) d)).2)
        as (w2 & Hlog & Hst & _).
      cbn [fst snd Logic.removeStepFromCache] in *. rewrite Hlog. cbn [fst snd ret].
      rewrite Hst. cbn [db].
      split; [exact Hkeep|]. split; [intros Hex; destruct (Hnone Hex)|].
      split; [discriminate|].
      intros _. apply Nat.ltb_lt in Hpos. rewrite Hn in Hpos.
      destruct (List.filter _ (steps (db w))) as [|r l] eqn:Hfil; [cbn in Hpos; lia|].
      assert (Hin : In r (List.filter (fun r => (ID r =? stepId) && is_active r)
                                     (steps (db w)))) by (rewrite Hfil; now left).
      apply filter_In in Hin as [Hin Hm]. exists r. split; [exact Hin|].
      pose proof (Hp r Hin Hm) as HC. apply andb_true_iff in Hm as [Hid Ha].
      apply Z.eqb_eq in Hid. auto.
    + cbn [fst snd ret db activeStepsCache with_db with_faults].
      split; [exact Hkeep|]. split; [intros Hex; destruct (Hnone Hex)|].
      split; [|discriminate].
      intros _. split; [|reflexivity].
      rewrite Hsteps. apply Nat.ltb_ge in Hpos. rewrite Hn in Hpos.
      assert (Hfil : List.filter (fun r => (ID r =? stepId) && is_active r) (steps (db w)) = [])
        by (destruct (List.filter _ _); [reflexivity|cbn in Hpos; lia]).
      clear -Hfil. induction (steps (db w)) as [|r l IH]; [reflexivity|].
      cbn in Hfil |- *. destruct ((ID r =? stepId) && is_active r); [discriminate|].
      now rewrite IH.
Qed.

End CacheAndAbort.

(** ** Starting a step: the choice of path, the priority, the limit *)

Section StartPaths.
Import Store Spec.

Lemma hasStoredProcedure_fault (name : string) (w : World) (rest : list bool) :
  faults w = true :: rest ->
  Logic.hasStoredProcedure name w = (Ok false, with_faults w rest).
Proof.
  intros Hf. unfold Logic.hasStoredProcedure, catch, bind.
  now rewrite (query_fault _ w rest Hf).
Qed.

Lemma hasStoredProcedure_installed (name : string) (w : World) :
  faults w = [] ->
  Logic.hasStoredProcedure name w
  = (Ok (0 <? length (List.filter (String.eqb name) (routines (db w))))%nat, w).
Proof.
  intros Hf. unfold Logic.hasStoredProcedure, catch, bind.
  rewrite (query_quiet _ w Hf). unfold SELECT_procedure_count. cbn.
  now rewrite with_db_same.
Qed.

(** A round trip that the plan lets through runs the statement. *)
Lemma query_answered {A} (stmt : DB -> sql A) (w : World) :
  head (faults w) <> Some true ->
  dbClient_query stmt w =
    match stmt (db w) with
    | Done a d => (Ok a, with_db (with_faults w (tail (faults w))) d)
    | Raise m => (Throw m, with_faults w (tail (faults w)))
    end.
Proof.
  intros Hh. unfold dbClient_query.
  destruct (faults w) as [|[|] rest]; [reflexivity|now destruct Hh|reflexivity].
Qed.

(** X5.  When the round trip that asks whether sp_StartQCStep exists
    fails, startQCStep takes the direct INSERT, and that one does not look
    for an active item: if the next round trip answers and the row passes
    the constraints, a new active item for the code is stored with
    priority 1, whether the procedure is installed or not and whether the
    session already holds an active item for the code or not. *)
Theorem failed_procedure_check_skips_guard (config : Logic.Config) (S : Z) (C : string)
    (scan : Z) (priority : option Z) (now : Z) (w : World) (rest : list bool) :
  faults w = true :: rest ->
  head rest <> Some true ->
  row_ok (db w) (new_step (db w) S C scan 1 now) = true ->
  exists r w',
    Logic.startQCStep config S C scan priority now w = (Ok (Some r), w')
    /\ steps (db w') = steps (db w) ++ [r]
    /\ for_code S C r = true /\ awaiting_exit r = true /\ Priority r = 1
    /\ length (active_items S C (steps (db w')))
       = Datatypes.S (length (active_items S C (steps (db w)))).
Proof.
  intros Hf Hrest Hok. unfold Logic.startQCStep, bind.
  rewrite (hasStoredProcedure_fault _ w rest Hf).
  unfold Queries.startQCStep, bind. rewrite query_answered by exact Hrest.
  cbn [db with_faults faults]. unfold INSERT_step, insert_step. rewrite Hok.
  assert (Hcode : for_code S C (new_step (db w) S C scan 1 now) = true).
  { unfold for_code, new_step. cbn. now rewrite Z.eqb_refl, String.eqb_refl. }
  eexists. eexists. split; [reflexivity|].
  cbn [db with_db steps]. split; [reflexivity|]. split; [exact Hcode|].
  split; [reflexivity|]. split; [reflexivity|].
  rewrite active_items_app, length_app. unfold active_items at 2.
  cbn [List.filter]. rewrite Hcode. cbn. lia.
Qed.

(** Session 1 holds the active item for "X1" and the procedures are
    installed; the check for sp_StartQCStep fails: a second active item
    for "X1" is stored. *)
Lemma failed_procedure_check_skips_guard_witness :
  exists r w',
    Logic.startQCStep Logic.default_config 1 "X1" 8 None 5000
      (Sample.world_X1 Sample.procedures [true]) = (Ok (Some r), w')
    /\ steps (db w') = steps (db (Sample.world_X1 Sample.procedures [true])) ++ [r]
    /\ for_code 1 "X1" r = true /\ awaiting_exit r = true /\ Priority r = 1
    /\ length (active_items 1 "X1" (steps (db w')))
       = Datatypes.S (length (active_items 1 "X1"
                                (steps (db (Sample.world_X1 Sample.procedures [true]))))).
Proof.
  apply (failed_procedure_check_skips_guard Logic.default_config 1 "X1" 8 None 5000
           (Sample.world_X1 Sample.procedures [true]) []).
  - reflexivity.
  - discriminate.
  - vm_compute. reflexivity.
Defined.

(** X6.  The priority of a new step comes from the caller or the
    configuration only on the stored-procedure path; the direct INSERT
    names no priority, so the column default 1 is stored. *)
Theorem priority_only_through_procedure (config : Logic.Config) (S : Z) (C : string)
    (scan : Z) (priority : option Z) (now : Z) (w w' : World) (r : QCStep) :
  faults w = [] ->
  Logic.startQCStep config S C scan priority now w = (Ok (Some r), w') ->
  Priority r =
    if (0 <? length (List.filter (String.eqb "sp_StartQCStep") (routines (db w))))%nat
    then Logic.js_or priority (Logic.defaultPriority config)
    else 1.
Proof.
  intros Hf. unfold Logic.startQCStep, bind.
  rewrite (hasStoredProcedure_installed _ w Hf).
  destruct (0 <? _)%nat.
  - rewrite (query_quiet _ w Hf). unfold sp_StartQCStep.
    destruct (existsb _ _); [discriminate|]. unfold insert_step.
    destruct (row_ok _ _); [|discriminate]. cbn. now intros [= <- _].
  - unfold Queries.startQCStep, bind. rewrite (query_quiet _ w Hf).
    unfold INSERT_step, insert_step. destruct (row_ok _ _); [|discriminate].
    cbn. now intros [= <- _].
Qed.

(** A start with priority 3: stored as 3 by the procedure, as 1 without it. *)
Lemma priority_only_through_procedure_witness :
  (exists r w', Logic.startQCStep Logic.default_config 1 "X1" 7 (Some 3) 1000
                  (Sample.world Sample.procedures []) = (Ok (Some r), w')
                /\ Priority r = 3)
  /\ (exists r w', Logic.startQCStep Logic.default_config 1 "X1" 7 (Some 3) 1000
                     (Sample.world [] []) = (Ok (Some r), w')
                   /\ Priority r = 1).
Proof.
  split.
  - eexists. eexists. split; [vm_compute; reflexivity|].
    exact (priority_only_through_procedure Logic.default_config 1 "X1" 7 (Some 3) 1000
             (Sample.world Sample.procedures []) _ _ eq_refl eq_refl).
  - eexists. eexists. split; [vm_compute; reflexivity|].
    exact (priority_only_through_procedure Logic.default_config 1 "X1" 7 (Some 3) 1000
             (Sample.world [] []) _ _ eq_refl eq_refl).
Defined.

(** X7.  QC_MAX_PARALLEL_STEPS_PER_SESSION set to a negative number is
    taken as it is (only 0 and a text that is no number fall back to 10),
    and then every entry scan is answered limit_exceeded, whatever the
    session holds and whether the store answers or not. *)
Theorem negative_limit_blocks_entry (m : Z) (timeout prio : option Z)
    (S : Z) (C : string) (scan now : Z) (w : World) :
  m < 0 ->
  exists n w',
    Logic.processEntranceScan (Logic.config_of_env (Some m) timeout prio) S C scan now w
    = (Ok (Logic.mkOutcome false Logic.limit_exceeded None entrance (Some n)
                           None None None None), w')
    /\ db w' = db w.
Proof.
  intros Hm. destruct (getActiveStepsCount_resolves S w) as (n & w1 & Hc & Hd & _).
  exists n, w1. split; [|exact Hd].
  unfold Logic.processEntranceScan, catch, bind. rewrite Hc.
  cbn [Logic.maxParallelStepsPerSession Logic.config_of_env Logic.or_default].
  destruct (Z.eqb_spec m 0); [lia|].
  destruct (Z.geb_spec (Z.of_nat n) m); [reflexivity|lia].
Qed.

(** QC_MAX_PARALLEL_STEPS_PER_SESSION=-1 on a session without any step. *)
Lemma negative_limit_blocks_entry_witness :
  exists n w',
    Logic.processEntranceScan (Logic.config_of_env (Some (-1)) None None) 1 "X1" 7 1000
      (Sample.world Sample.procedures [])
    = (Ok (Logic.mkOutcome false Logic.limit_exceeded None entrance (Some n)
                           None None None None), w')
    /\ db w' = db (Sample.world Sample.procedures []).
Proof.
  apply (negative_limit_blocks_entry (-1) None None 1 "X1" 7 1000
           (Sample.world Sample.procedures [])).
  lia.
Defined.

End StartPaths.

(** ** Clean-up and statistics of QualityControlQueries *)

Section CleanupAndStats.
Import Store Spec.

(** X8.  cleanupOldQCSteps never rejects and answers the number of rows
    it removed.  It removes only rows that are completed and started
    before the day that lies retentionDays before today: a row that is
    not completed, or started on or after that day, stays, and nothing is
    added or altered.  When the round trip fails the answer is 0 and the
    table is as before. *)
Theorem cleanupOldQCSteps_removes_old_completed (retentionDays now : Z) (w : World) :
  let w' := (Queries.cleanupOldQCSteps retentionDays now w).2 in
  let cutoff := (date_of now - retentionDays) * 86400000 in
  exists n,
    (Queries.cleanupOldQCSteps retentionDays now w).1 = Ok n
    /\ length (steps (db w)) = (n + length (steps (db w')))%nat
    /\ (forall r, In r (steps (db w')) <->
                  In r (steps (db w))
                  /\ (head (faults w) = Some true
                      \/ Completed r = false \/ cutoff <= StartTime r))
    /\ (head (faults w) = Some true -> n = 0%nat /\ db w' = db w).
Proof.
  cbv zeta. unfold Queries.cleanupOldQCSteps, catch.
  destruct (faults w) as [|[|] rest] eqn:Hf.
  - rewrite (query_quiet _ w Hf). unfold DELETE_old. cbn [fst snd db with_db steps head].
    eexists. split; [reflexivity|].
    split; [|split; [|discriminate]].
    + clear. induction (steps (db w)) as [|r l IH]; [reflexivity|].
      cbn [List.filter length]. destruct (_ && _); cbn [negb length]; lia.
    + intros r. rewrite filter_In, negb_true_iff, andb_false_iff, Z.ltb_ge.
      split; [intros [Hin [H|H]]|intros [Hin [H|[H|H]]]]; auto; discriminate.
  - rewrite (query_fault _ w rest Hf). cbn [fst snd ret db with_faults head].
    exists 0%nat. split; [reflexivity|]. split; [reflexivity|].
    split; [|auto]. intros r. split; [intros H|intros [H _]]; auto.
  - rewrite query_answered by (rewrite Hf; discriminate).
    unfold DELETE_old. cbn [fst snd db with_db steps head].
    eexists. split; [reflexivity|].
    split; [|split; [|discriminate]].
    + clear. induction (steps (db w)) as [|r l IH]; [reflexivity|].
      cbn [List.filter length]. destruct (_ && _); cbn [negb length]; lia.
    + intros r. rewrite filter_In, negb_true_iff, andb_false_iff, Z.ltb_ge.
      split; [intros [Hin [H|H]]|intros [Hin [H|[H|H]]]]; auto; discriminate.
Qed.

Lemma SUM_CASE_split (p : QCStep -> bool) (rows : list QCStep) :
  rows <> [] ->
  exists c a, SUM_CASE p rows = Some c
              /\ SUM_CASE (fun r => negb (p r)) rows = Some a
              /\ (c + a = length rows)%nat
              /\ a = length (List.filter (fun r => negb (p r)) rows).
Proof.
  intros Hne. destruct rows as [|r0 l]; [congruence|].
  unfold SUM_CASE. eexists. eexists. split; [reflexivity|]. split; [reflexivity|].
  split; [|reflexivity].
  generalize (r0 :: l). clear. intros l.
  induction l as [|r l IH]; [reflexivity|].
  cbn [List.filter length]. destruct (p r); cbn [negb length]; lia.
Qed.

(** X9.  On a store that answers, getQCStatsForSession resolves to the
    one row of the aggregate query, never to its zero-filled default:
    TotalSteps counts the rows of the session; when there is a row,
    CompletedSteps and ActiveSteps add up to TotalSteps and ActiveSteps
    is the number of rows getActiveQCStepsForSession lists; when there is
    none, TotalSteps is 0 and every other column is NULL. *)
Theorem stats_count_the_session (S : Z) (w : World) :
  faults w = [] ->
  let rows := List.filter (fun r => SessionID r =? S) (steps (db w)) in
  exists st,
    Queries.getQCStatsForSession S w = (Ok (Some st), w)
    /\ TotalSteps st = length rows
    /\ (rows = [] ->
        CompletedSteps st = None /\ ActiveSteps st = None
        /\ AvgDurationSeconds st = None
        /\ FirstStepTime st = None /\ LastStepTime st = None)
    /\ (rows <> [] ->
        exists c a l,
          CompletedSteps st = Some c /\ ActiveSteps st = Some a
          /\ (c + a = TotalSteps st)%nat
          /\ Queries.getActiveQCStepsForSession S w = (Ok l, w)
          /\ length l = a).
Proof.
  intros Hf rows. unfold Queries.getQCStatsForSession, catch, bind.
  rewrite (query_quiet _ w Hf). unfold SELECT_stats. fold rows.
  cbn [ret]. rewrite with_db_same. eexists. split; [reflexivity|].
  cbn [TotalSteps CompletedSteps ActiveSteps AvgDurationSeconds FirstStepTime LastStepTime].
  split; [reflexivity|]. split.
  - intros ->. repeat split.
  - intros Hne. destruct (SUM_CASE_split Completed rows Hne) as (c & a & Hc & Ha & Hsum & Hlen).
    exists c, a. eexists. rewrite Hc, Ha. split; [reflexivity|]. split; [reflexivity|].
    split; [exact Hsum|].
    unfold Queries.getActiveQCStepsForSession, catch.
    rewrite (query_quiet _ w Hf). unfold SELECT_open_steps. rewrite with_db_same.
    split; [reflexivity|]. rewrite Hlen. unfold rows. clear.
    induction (steps (db w)) as [|r l IH]; [reflexivity|].
    cbn [List.filter]. destruct (SessionID r =? S); cbn [andb List.filter]; [|exact IH].
    destruct (Completed r); cbn [negb length]; [exact IH|now rewrite IH].
Qed.

(** Session 1 with its one active item, and session 2 without any row. *)
Lemma stats_count_the_session_witness :
  (exists st,
     Queries.getQCStatsForSession 1 (Sample.world_X1 [] []) = (Ok (Some st), Sample.world_X1 [] [])
     /\ TotalSteps st = 1%nat /\ CompletedSteps st = Some 0%nat /\ ActiveSteps st = Some 1%nat)
  /\ (exists st,
     Queries.getQCStatsForSession 2 (Sample.world_X1 [] []) = (Ok (Some st), Sample.world_X1 [] [])
     /\ TotalSteps st = 0%nat /\ CompletedSteps st = None /\ ActiveSteps st = None).
Proof.
  split.
  - destruct (stats_count_the_session 1 (Sample.world_X1 [] []) eq_refl)
      as (st & Hst & Ht & _ & Hrows).
    exists st. split; [exact Hst|]. split; [exact Ht|].
    destruct (Hrows ltac:(discriminate)) as (c & a & l & Hc & Ha & Hsum & Hl & Hlen).
    rewrite Hc, Ha.
    assert (a = 1%nat) as ->.
    { rewrite <- Hlen. vm_compute in Hl. now injection Hl as <-. }
    rewrite Ht in Hsum. cbn in Hsum. split; [f_equal; lia|reflexivity].
  - destruct (stats_count_the_session 2 (Sample.world_X1 [] []) eq_refl)
      as (st & Hst & Ht & Hnone & _).
    exists st. split; [exact Hst|]. split; [exact Ht|].
    destruct (Hnone eq_refl) as (Hc & Ha & _). auto.
Defined.

End CleanupAndStats.

(** ** The main process: limiter memory, step handlers, session end *)

Section LimiterWindow.
Import MainApp.

Variable Backend : Type.
Variable saveQRScan : Z -> string -> Z -> Backend -> result ScanResult * Backend.

Lemma update_recorded (S now : Z) (st : State) :
  recorded S (updateQRScanRateLimit S now st)
  = (if (maxQRScansPerMinute st <? length (recorded S st ++ [now]))%nat
     then tail (recorded S st ++ [now]) else recorded S st ++ [now])
  /\ maxQRScansPerMinute (updateQRScanRateLimit S now st) = maxQRScansPerMinute st
  /\ (forall S', S' <> S -> recorded S' (updateQRScanRateLimit S now st) = recorded S' st).
Proof.
  unfold updateQRScanRateLimit, recorded. cbn [qrScanRateLimit maxQRScansPerMinute].
  rewrite lookup_insert_eq. repeat split.
  intros S' Hne. now rewrite lookup_insert_ne.
Qed.

Lemma filter_length_le {A} (p : A -> bool) (l : list A) :
  (length (List.filter p l) <= length l)%nat.
Proof.
  induction l as [|x l IH]; [reflexivity|].
  cbn [List.filter]. destruct (p x); cbn [length]; lia.
Qed.


End LimiterWindow.

Section StepHandlers.
Import Store Spec.

(** X11.  The handlers of quality-control-start-step and
    quality-control-complete-step never reject: whatever happens below
    them, each resolves, and when it resolves to null the tracking maps
    of the main process are as before.  Without the quality-control logic
    both answer null without touching the database. *)
Theorem step_handlers_never_reject (logic : bool) (config : Logic.Config)
    (S : Z) (C : string) (scan now : Z) (t : MainApp.Tracking) (w : World) :
  (exists r t' w',
      MainApp.quality_control_start_step logic config S C scan now t w = (Ok (r, t'), w')
      /\ (r = None -> t' = t)
      /\ (logic = false -> r = None /\ w' = w))
  /\ (exists r t' w',
      MainApp.quality_control_complete_step logic S C scan now t w = (Ok (r, t'), w')
      /\ (r = None -> t' = t)
      /\ (logic = false -> r = None /\ w' = w)).
Proof.
  unfold MainApp.quality_control_start_step, MainApp.quality_control_complete_step,
    catch, bind.
  destruct logic; cbn [negb throw ret].
  - split.
    + destruct (Logic.startQCStep config S C scan None now w) as [[[st|]|e] w1];
        do 3 eexists; (split; [reflexivity|]); split; try discriminate; auto.
    + destruct (Logic.completeQCStep S C scan now w) as [[[st|]|e] w1];
        do 3 eexists; (split; [reflexivity|]); split; try discriminate; auto.
  - split; do 3 eexists; (split; [reflexivity|]); auto.
Qed.

Lemma entry_at_limit (config : Logic.Config) (S : Z) (C : string) (scan now : Z)
    (w w1 : World) (n : nat) :
  Logic.getActiveStepsCount S w = (Ok n, w1) ->
  Logic.maxParallelStepsPerSession config <= Z.of_nat n ->
  Logic.processEntranceScan config S C scan now w
  = (Ok (Logic.mkOutcome false Logic.limit_exceeded None entrance (Some n)
                         None None None None), w1).
Proof.
  intros Hc Hle. unfold Logic.processEntranceScan, catch, bind. rewrite Hc.
  destruct (Z.geb_spec (Z.of_nat n) (Logic.maxParallelStepsPerSession config));
    [reflexivity|lia].
Qed.

(** X12.  The parallel limit guards processQRScan only.  For a session
    that holds maxParallelStepsPerSession active items or more,
    processEntranceScan answers limit_exceeded and stores nothing, while
    the quality-control-start-step handler, which the renderer calls,
    stores one more active item for a new code and tracks it. *)
Theorem start_step_handler_ignores_limit (config : Logic.Config) (S : Z) (C : string)
    (scan now : Z) (t : MainApp.Tracking) (w : World) :
  faults w = [] -> open_rows_active (steps (db w)) ->
  primary_key (steps (db w)) -> cache_coherent S w ->
  Logic.maxParallelStepsPerSession config <= Z.of_nat (active_count S (steps (db w))) ->
  List.filter (for_code S C) (steps (db w)) = [] ->
  fits 500 C = true ->
  1 <= Logic.defaultPriority config <= 3 ->
  existsb (fun s => s_ID s =? S) (sessions (db w)) = true ->
  existsb (Z.eqb scan) (scans (db w)) = true ->
  (exists o w1,
      Logic.processEntranceScan config S C scan now w = (Ok o, w1)
      /\ Logic.type o = Logic.limit_exceeded /\ db w1 = db w)
  /\ (exists r t' w',
      MainApp.quality_control_start_step true config S C scan now t w = (Ok (Some r, t'), w')
      /\ steps (db w') = steps (db w) ++ [r]
      /\ SessionID r = S /\ QrCode r = C /\ awaiting_exit r = true
      /\ active_count S (steps (db w')) = Datatypes.S (active_count S (steps (db w)))
      /\ MainApp.activeQCSteps t' !! S
         = Some ({[ID r]} ∪ default ∅ (MainApp.activeQCSteps t !! S))).
Proof.
  intros Hf Hopen Hkey Hcoh Hlim Hnew Hfit Hprio Hsess Hscan. split.
  - destruct (getActiveStepsCount_exact S w Hf Hopen Hkey Hcoh) as (w1 & Hc & Hd & _).
    rewrite (entry_at_limit config S C scan now w w1 _ Hc Hlim).
    do 2 eexists. split; [reflexivity|]. split; [reflexivity|exact Hd].
  - destruct (startQCStep_fresh config S C scan now w Hf Hnew Hfit Hprio Hsess Hscan)
      as (r & d' & Hstart & Hsteps & HS & HC & Ha).
    unfold MainApp.quality_control_start_step, catch, bind. cbn [negb]. rewrite Hstart.
    cbn [ret]. do 3 eexists. split; [reflexivity|]. cbn [db with_db].
    split; [exact Hsteps|]. split; [exact HS|]. split; [exact HC|]. split; [exact Ha|].
    split.
    + rewrite Hsteps, active_count_app. unfold active_count at 2.
      cbn [List.filter]. rewrite HS, Z.eqb_refl, Ha. cbn. lia.
    + cbn [MainApp.activeQCSteps]. now rewrite lookup_insert_eq.
Qed.

(** The limit is 1 and session 1 holds the active item for "X1": the scan
    workflow refuses "X2", the handler stores it. *)
Lemma start_step_handler_ignores_limit_witness :
  (exists o w1,
      Logic.processEntranceScan Sample.config_one 1 "X2" 8 2000
        (Sample.world_X1 Sample.procedures []) = (Ok o, w1)
      /\ Logic.type o = Logic.limit_exceeded
      /\ db w1 = db (Sample.world_X1 Sample.procedures []))
  /\ (exists r t' w',
      MainApp.quality_control_start_step true Sample.config_one 1 "X2" 8 2000
        (MainApp.mkTracking ∅ ∅) (Sample.world_X1 Sample.procedures [])
      = (Ok (Some r, t'), w')
      /\ steps (db w') = steps (db (Sample.world_X1 Sample.procedures [])) ++ [r]
      /\ SessionID r = 1 /\ QrCode r = "X2" /\ awaiting_exit r = true
      /\ active_count 1 (steps (db w'))
         = Datatypes.S (active_count 1 (steps (db (Sample.world_X1 Sample.procedures []))))
      /\ MainApp.activeQCSteps t' !! 1
         = Some ({[ID r]} ∪ default ∅ (MainApp.activeQCSteps (MainApp.mkTracking ∅ ∅) !! 1))).
Proof.
  apply (start_step_handler_ignores_limit Sample.config_one 1 "X2" 8 2000
           (MainApp.mkTracking ∅ ∅) (Sample.world_X1 Sample.procedures [])).
  - reflexivity.
  - intros r [<-|[]] _. reflexivity.
  - apply NoDup_singleton.
  - exact I.
  - vm_compute. discriminate.
  - reflexivity.
  - reflexivity.
  - vm_compute. split; discriminate.
  - reflexivity.
  - reflexivity.
Defined.

(** The abort that precedes the end of a session rejects when the session
    holds an item that awaits its exit scan. *)
Lemma abort_throws (S : Z) (reason : string) (now : Z) (w : World) (r : QCStep) :
  In r (steps (db w)) -> SessionID r = S -> awaiting_exit r = true ->
  CK_Completed r = true ->
  exists e w', Logic.abortActiveStepsForSession S reason now w = (Throw e, w')
               /\ db w' = db w.
Proof.
  intros Hin HS Ha Hck.
  unfold Logic.abortActiveStepsForSession, bind.
  destruct (hasStoredProcedure_answers "sp_AbortActiveQCSteps" w) as [b ->].
  set (w1 := with_faults w (tail (faults w))).
  destruct b.
  - destruct (query_rejects (sp_AbortActiveQCSteps S reason now) w1
                "constraint violation") as [e He].
    { apply (sp_abort_raises S reason now (db w1) r); auto. }
    rewrite He. exists e. eexists. split; reflexivity.
  - unfold Queries.abortActiveStepsForSession.
    destruct (query_rejects (UPDATE_abort S now) w1 "constraint violation") as [e He].
    { apply (update_abort_raises S now (db w1) r); auto. }
    rewrite He. exists e. eexists. split; reflexivity.
Qed.

(** X13.  A session that holds an item awaiting its exit scan cannot be
    ended through the session-end handler: the abort of its active steps
    rejects (see abortActiveStepsForSession), the handler answers false,
    dbClient.endSession is not called, and the database, the limiter and
    the tracking maps stay as they are. *)
Theorem session_end_blocked_by_open_item (S U now : Z) (st : MainApp.State)
    (t : MainApp.Tracking) (w : World) (r : QCStep) :
  In r (steps (db w)) -> SessionID r = S -> awaiting_exit r = true ->
  CK_Completed r = true ->
  exists w',
    db w' = db w
    /\ forall endSession : Z -> M bool,
         MainApp.session_end endSession true true S U now st t w = (Ok (false, st, t), w').
Proof.
  intros Hin HS Ha Hck.
  destruct (abort_throws S "Session beendet" now w r Hin HS Ha Hck) as (e & w' & Habort & Hd).
  exists w'. split; [exact Hd|]. intros endSession.
  unfold MainApp.session_end, catch, bind. cbn [negb]. now rewrite Habort.
Qed.

(** Session 1 with its active item for "X1". *)
Lemma session_end_blocked_by_open_item_witness :
  exists w',
    db w' = db (Sample.world_X1 Sample.procedures [])
    /\ forall endSession : Z -> M bool,
         MainApp.session_end endSession true true 1 5 2000 Sample.main_connected
           (MainApp.mkTracking ∅ ∅) (Sample.world_X1 Sample.procedures [])
         = (Ok (false, Sample.main_connected, MainApp.mkTracking ∅ ∅), w').
Proof.
  apply (session_end_blocked_by_open_item 1 5 2000 Sample.main_connected
           (MainApp.mkTracking ∅ ∅) (Sample.world_X1 Sample.procedures []) Sample.item_X1).
  - now left.
  - reflexivity.
  - reflexivity.
  - reflexivity.
Defined.

End StepHandlers.

(** ** The renderer: clean-up timer and in-flight guard *)

Section RendererGuards.
Import Renderer.

Lemma recently_after_cleanup (c : string) (now tc : Z) (a : App) :
  tc <= now -> scanCooldown a <= 60 * 1000 ->
  recently (cleanupOldScans tc a) c now = recently a c now.
Proof.
  intros Htc Hcool. unfold recently, cleanupOldScans.
  cbn [recentlyScanned scanCooldown].
  destruct (recentlyScanned a !! c) as [t|] eqn:Hl.
  - destruct (decide (tc - t > 60 * 1000)) as [Hold|Hyoung].
    + rewrite (proj2 (map_lookup_filter_None _ _ _)).
      * symmetry. apply andb_false_iff. right. apply Z.ltb_ge. lia.
      * right. intros t' Ht'. rewrite Hl in Ht'. injection Ht' as <-. cbn. tauto.
    + rewrite (map_lookup_filter_Some_2 _ _ _ _ Hl); [reflexivity|exact Hyoung].
  - rewrite (proj2 (map_lookup_filter_None _ _ _)); [reflexivity|now left].
Qed.

(** X14.  With a cooldown of at most one minute (the default is 3000 ms)
    the clean-up timer is invisible to the duplicate checks: a detection
    that comes after cleanupOldScans gets the verdict it would have got
    without it, for every code. *)
Theorem cleanup_keeps_verdicts (c : string) (now tc : Z) (a : App) :
  tc <= now -> scanCooldown a <= 60 * 1000 ->
  (handleQRCodeDetected c now (cleanupOldScans tc a)).1 = (handleQRCodeDetected c now a).1.
Proof.
  intros Htc Hcool. unfold handleQRCodeDetected.
  rewrite (recently_after_cleanup c now tc a Htc Hcool).
  cbn [selectedSession lastProcessedQR lastProcessedTime pendingScans cleanupOldScans].
  destruct (selectedSession a); [|reflexivity].
  destruct (_ && _); [reflexivity|].
  destruct (recently a c now); [reflexivity|].
  destruct (bool_decide _); reflexivity.
Qed.

(** The code accepted at the first scan, detected again half a second
    later, with the timer firing in between. *)
Lemma cleanup_keeps_verdicts_witness :
  (handleQRCodeDetected "ABC123" (Sample.first_scan_time + 500)
     (cleanupOldScans (Sample.first_scan_time + 100) Sample.app1)).1
  = (handleQRCodeDetected "ABC123" (Sample.first_scan_time + 500) Sample.app1).1.
Proof.
  apply (cleanup_keeps_verdicts "ABC123" (Sample.first_scan_time + 500)
           (Sample.first_scan_time + 100) Sample.app1).
  - vm_compute. discriminate.
  - vm_compute. discriminate.
Defined.

Lemma step_keeps_pending (c : string) (a : App) (e : event) :
  e <> Settle c -> c ∈ pendingScans a -> c ∈ pendingScans (step a e).
Proof.
  intros Hne Hin. destruct e as [c' t|c'|t|s]; cbn [step].
  - unfold handleQRCodeDetected. destruct (selectedSession a); [|exact Hin].
    destruct (_ && _); [exact Hin|]. destruct (recently a c' t); [exact Hin|].
    destruct (bool_decide _); [exact Hin|]. cbn [snd pendingScans].
    apply elem_of_union. now right.
  - cbn [settle pendingScans]. apply elem_of_difference. split; [exact Hin|].
    rewrite elem_of_singleton. intros ->. now apply Hne.
  - exact Hin.
  - exact Hin.
Qed.

(** X15.  While the save of an accepted code has not settled, the code is
    not accepted again, at whatever instant it is detected and whatever
    else happens in between (other codes, the clean-up timer, a change of
    the selected user): the in-flight guard needs no clock. *)
Theorem code_in_flight_is_not_accepted (c : string) (t1 t : Z) (a0 a1 : App)
    (evs : list event) :
  handleQRCodeDetected c t1 a0 = (accepted, a1) ->
  Forall (fun e => e <> Settle c) evs ->
  (handleQRCodeDetected c t (run a1 evs)).1 <> accepted
  /\ (handleQRCodeDetected c t (run a1 evs)).2 = run a1 evs.
Proof.
  intros Hacc Hevs.
  assert (Hin1 : c ∈ pendingScans a1).
  { unfold handleQRCodeDetected in Hacc. destruct (selectedSession a0); [|discriminate].
    destruct (_ && _); [discriminate|]. destruct (recently a0 c t1); [discriminate|].
    destruct (bool_decide _); [discriminate|]. injection Hacc as <-.
    cbn [pendingScans]. apply elem_of_union. left. now apply elem_of_singleton. }
  assert (Hin : c ∈ pendingScans (run a1 evs)).
  { unfold run. clear Hacc. revert a1 Hin1.
    induction Hevs as [|e evs He _ IH]; intros a1 Hin1.
    - exact Hin1.
    - cbn [fold_left]. apply IH. now apply step_keeps_pending. }
  unfold handleQRCodeDetected.
  destruct (selectedSession (run a1 evs)); [|split; [discriminate|reflexivity]].
  destruct (_ && _); [split; [discriminate|reflexivity]|].
  destruct (recently _ c t); [split; [discriminate|reflexivity]|].
  rewrite bool_decide_eq_true_2 by exact Hin. split; [discriminate|reflexivity].
Qed.

(** "ABC123" is still being saved ten minutes later, after the timer
    fired and another code settled. *)
Lemma code_in_flight_is_not_accepted_witness :
  (handleQRCodeDetected "ABC123" (Sample.first_scan_time + 600000)
     (run Sample.app1 [Cleanup (Sample.first_scan_time + 590000); Settle "OTHER"])).1
  <> accepted
  /\ (handleQRCodeDetected "ABC123" (Sample.first_scan_time + 600000)
        (run Sample.app1 [Cleanup (Sample.first_scan_time + 590000); Settle "OTHER"])).2
     = run Sample.app1 [Cleanup (Sample.first_scan_time + 590000); Settle "OTHER"].
Proof.
  apply (code_in_flight_is_not_accepted "ABC123" Sample.first_scan_time
           (Sample.first_scan_time + 600000) Sample.app0 Sample.app1).
  - reflexivity.
  - repeat constructor; discriminate.
Defined.

End RendererGuards.

(** ** The status function of the schema *)

Section StatusFunction.
Import Store Spec.

Lemma step_status_known (now : Z) (r : QCStep) : step_status now r <> "unknown".
Proof.
  unfold step_status. destruct (QCStatus r); try discriminate.
  destruct (3600 <? _); [discriminate|]. destruct (1800 <? _); discriminate.
Qed.

Lemma duration_grows (now now' : Z) (r : QCStep) :
  now <= now' -> ActualDurationSeconds now r <= ActualDurationSeconds now' r.
Proof.
  intros Hle. unfold ActualDurationSeconds, DATEDIFF_SECOND.
  destruct (EndTime r) as [e|]; cbn [default]; [lia|].
  pose proof (Z.div_le_mono now now' 1000 ltac:(lia) Hle). lia.
Qed.

Lemma step_status_later (now now' : Z) (r : QCStep) :
  now <= now' ->
  (step_status now r = "overdue" -> step_status now' r = "overdue")
  /\ (step_status now r = "delayed" ->
      step_status now' r = "delayed" \/ step_status now' r = "overdue").
Proof.
  intros Hle. pose proof (duration_grows now now' r Hle) as Hd.
  unfold step_status. destruct (QCStatus r); [|split; discriminate|split; discriminate].
  destruct (Z.ltb_spec 3600 (ActualDurationSeconds now r)),
           (Z.ltb_spec 3600 (ActualDurationSeconds now' r)),
           (Z.ltb_spec 1800 (ActualDurationSeconds now r)),
           (Z.ltb_spec 1800 (ActualDurationSeconds now' r));
    split; intros; try discriminate; try lia; auto.
Qed.

(** X16.  dbo.fn_GetQCStepStatus answers 'unknown' exactly when no row
    has the ID; with ID a key it answers the status of that row; and as
    time passes the answer for a step only moves towards lateness: an
    overdue step stays overdue, a delayed one stays delayed or becomes
    overdue. *)
Theorem fn_GetQCStepStatus_cases (QCStepID now now' : Z) (d : DB) :
  (fn_GetQCStepStatus QCStepID now d = "unknown"
   <-> forall r, In r (steps d) -> ID r <> QCStepID)
  /\ (primary_key (steps d) ->
      forall r, In r (steps d) -> ID r = QCStepID ->
                fn_GetQCStepStatus QCStepID now d = step_status now r)
  /\ (now <= now' ->
      (fn_GetQCStepStatus QCStepID now d = "overdue" ->
       fn_GetQCStepStatus QCStepID now' d = "overdue")
      /\ (fn_GetQCStepStatus QCStepID now d = "delayed" ->
          fn_GetQCStepStatus QCStepID now' d = "delayed"
          \/ fn_GetQCStepStatus QCStepID now' d = "overdue")).
Proof.
  unfold fn_GetQCStepStatus.
  assert (Hlast : forall t l, last (map (step_status t) l) = option_map (step_status t) (last l)).
  { intros t l. induction l as [|x [|y l] IH]; [reflexivity|reflexivity|].
    exact IH. }
  rewrite !Hlast.
  set (l := List.filter (fun r => ID r =? QCStepID) (steps d)).
  split; [|split].
  - split.
    + intros Hu r Hin Hid.
      assert (Hr : In r l) by (apply filter_In; split; [exact Hin|now apply Z.eqb_eq]).
      destruct (last l) as [x|] eqn:Hx.
      * cbn in Hu. now apply step_status_known in Hu.
      * apply last_None in Hx. rewrite Hx in Hr. destruct Hr.
    + intros Hnone. assert (l = []) as ->; [|reflexivity].
      apply filter_none_in. intros r Hin. apply Z.eqb_neq. now apply Hnone.
  - intros Hkey r Hin Hid.
    assert (Hl : forall x, In x l -> x = r).
    { intros x Hx. apply filter_In in Hx as [Hx Hxid]. apply Z.eqb_eq in Hxid.
      apply (primary_key_inj (steps d)); auto. congruence. }
    assert (Hr : In r l) by (apply filter_In; split; [exact Hin|now apply Z.eqb_eq]).
    destruct (last l) as [x|] eqn:Hx.
    + cbn. f_equal. apply Hl. apply list_elem_of_In. apply last_Some_elem_of in Hx. exact Hx.
    + apply last_None in Hx. rewrite Hx in Hr. destruct Hr.
  - intros Hle. destruct (last l) as [x|]; cbn.
    + apply step_status_later. exact Hle.
    + split; discriminate.
Qed.

End StatusFunction.

(** ** The renderer's manager: one inspection at a time *)

Section ManagerSteps.
Import Manager Spec.

Variable Backend : Type.
Variable startStep : Z -> string -> Z -> Backend -> result (option Store.QCStep) * Backend.
Variable completeStep : Z -> string -> Z -> Backend -> result (option Store.QCStep) * Backend.

Lemma initialize_keeps (S0 : Z) (m : State) :
  one_at_a_time m -> one_at_a_time (initializeSessionQC S0 m).
Proof.
  intros Hinv S st. unfold initializeSessionQC.
  cbn [scanStates qcStepCounters activeQCSteps].
  destruct (decide (S0 = S)) as [->|Hne].
  - rewrite !lookup_insert_eq. intros [= <-]. eexists. split; [reflexivity|].
    cbn. repeat split; eauto; try lia; discriminate.
  - rewrite !lookup_insert_ne by exact Hne. apply Hinv.
Qed.

Lemma cleanup_keeps (S0 : Z) (m : State) :
  one_at_a_time m -> one_at_a_time (cleanupSessionQC S0 m).
Proof.
  intros Hinv S st. unfold cleanupSessionQC.
  cbn [scanStates qcStepCounters activeQCSteps].
  destruct (decide (S0 = S)) as [->|Hne].
  - rewrite lookup_delete_eq. discriminate.
  - rewrite !lookup_delete_ne by exact Hne. apply Hinv.
Qed.

Lemma eingang_keeps (S0 : Z) (qrData : string) (data : option Z) (now : Z)
    (m : State) (be : Backend) (st0 : ScanState) :
  one_at_a_time m ->
  scanStates m !! S0 = Some st0 -> expectedScan st0 = eingang ->
  one_at_a_time (handleEingangScan Backend startStep S0 qrData data now m be).1.
Proof.
  intros Hinv Hst0 Hexp. unfold handleEingangScan.
  destruct data as [scanId|]; [|exact Hinv].
  destruct (startStep S0 qrData scanId be) as [[[qcStep|]|e] be']; try exact Hinv.
  cbn [scanStates qcStepCounters activeQCSteps]. rewrite Hst0.
  destruct (Hinv S0 st0 Hst0) as (c0 & Hc0 & _ & Hact & Hcompl & _).
  rewrite Hc0. cbn [fst]. intros S st.
  cbn [scanStates qcStepCounters activeQCSteps].
  destruct (decide (S0 = S)) as [->|Hne].
  - rewrite !lookup_insert_eq. intros [= <-]. eexists. split; [reflexivity|].
    cbn. rewrite Hact, Hexp. repeat split; eauto; lia.
  - rewrite !lookup_insert_ne by exact Hne. apply Hinv.
Qed.

Lemma ausgang_keeps (S0 : Z) (qrData : string) (data : option Z) (now : Z)
    (m : State) (be : Backend) (st0 : ScanState) :
  one_at_a_time m ->
  scanStates m !! S0 = Some st0 -> expectedScan st0 = ausgang ->
  one_at_a_time (handleAusgangScan Backend completeStep S0 qrData data now m be).1.
Proof.
  intros Hinv Hst0 Hexp. unfold handleAusgangScan. rewrite Hst0.
  destruct (other_code _ _); [exact Hinv|].
  destruct data as [scanId|]; [|exact Hinv].
  destruct (completeStep S0 qrData scanId be) as [[[completedStep|]|e] be']; try exact Hinv.
  destruct (Hinv S0 st0 Hst0) as (c0 & Hc0 & [ids Hids] & Hact & Hcompl & _).
  rewrite Hids. cbn [scanStates qcStepCounters activeQCSteps]. rewrite Hc0.
  cbn [fst]. intros S st.
  cbn [scanStates qcStepCounters activeQCSteps].
  destruct (decide (S0 = S)) as [->|Hne].
  - rewrite !lookup_insert_eq. intros [= <-]. eexists. split; [reflexivity|].
    cbn. rewrite Hact, Hexp. repeat split; eauto; try lia; discriminate.
  - rewrite !lookup_insert_ne by exact Hne. apply Hinv.
Qed.

Lemma step_keeps_one_at_a_time (mb : State * Backend) (e : event) :
  no_restart e -> one_at_a_time mb.1 ->
  one_at_a_time (step Backend startStep completeStep mb e).1.
Proof.
  intros He Hinv. destruct e as [sid qrData success data now|sid|sid|sid|sid now|sid];
    cbn [step fst].
  - unfold processQCScan. destruct (scanStates mb.1 !! sid) as [st0|] eqn:Hst0; [|exact Hinv].
    destruct success; cbn [negb]; [|exact Hinv].
    destruct (expectedScan st0) eqn:Hexp.
    + now apply (eingang_keeps sid qrData data now mb.1 mb.2 st0).
    + now apply (ausgang_keeps sid qrData data now mb.1 mb.2 st0).
  - now apply initialize_keeps.
  - unfold onUserSelected. destruct (scanStates mb.1 !! sid); [exact Hinv|].
    now apply initialize_keeps.
  - now apply cleanup_keeps.
  - destruct He.
  - unfold resetSessionQC. now apply initialize_keeps, cleanup_keeps.
Qed.


End ManagerSteps.


(** ** Invariants of the table and of the cache *)

Section Invariants.
Import Store Spec.

(** X18.  At most one active item per session and code is kept by every
    statement that writes the table, except the direct INSERT of
    QualityControlQueries.startQCStep: by sp_StartQCStep, which inserts
    under its check, by both completions, by the three aborts and by the
    clean-up. *)
Theorem guarded_writes_keep_unique (d d' : DB) :
  unique_active (steps d) ->
  (forall S C scan prio now rs,
      sp_StartQCStep S C scan prio now d = Done rs d' -> unique_active (steps d'))
  /\ (forall S C scan rating defects desc notes now rs,
      sp_CompleteQCStep S C scan rating defects desc notes now d = Done rs d' ->
      unique_active (steps d'))
  /\ (forall S reason now ns,
      sp_AbortActiveQCSteps S reason now d = Done ns d' -> unique_active (steps d'))
  /\ (forall scan stepId now rs,
      UPDATE_complete scan stepId now d = Done rs d' -> unique_active (steps d'))
  /\ (forall S now n,
      UPDATE_abort S now d = Done n d' -> unique_active (steps d'))
  /\ (forall stepId reason now n,
      UPDATE_abort_one stepId reason now d = Done n d' -> unique_active (steps d'))
  /\ (forall days now n,
      DELETE_old days now d = Done n d' -> unique_active (steps d')).
Proof.
  intros Hu. split.
  - intros S C scan prio now rs H. exact (sp_StartQCStep_keeps_unique _ _ _ _ _ _ _ _ Hu H).
  - exact (completion_and_abort_keep_unique d d' Hu).
Qed.

(** The first item of session 1, stored by the procedure. *)
Lemma guarded_writes_keep_unique_witness :
  exists rs d',
    sp_StartQCStep 1 "X1" 7 1 1000 (Sample.database Sample.procedures) = Done rs d'
    /\ unique_active (steps d').
Proof.
  eexists. eexists. split; [vm_compute; reflexivity|].
  refine (proj1 (guarded_writes_keep_unique (Sample.database Sample.procedures) _ _)
            1 "X1" 7 1 1000 _ _).
  - intros S C. cbn. lia.
  - vm_compute. reflexivity.
Defined.



(** X20.  On a table that has the update trigger of the schema, the direct
    completion of QualityControlQueries never completes a step: its
    UPDATE carries an OUTPUT clause without INTO, which the server
    refuses on a table with an enabled trigger for that action.  The
    call resolves to null (no unfinished row for the code) or rejects,
    and the database stays as it is. *)
Theorem direct_completion_blocked_by_trigger (S : Z) (C : string) (scan now : Z) (w : World) :
  update_trigger (db w) = true ->
  let out := Queries.completeQCStep S C scan now w in
  (out.1 = Ok None \/ exists e, out.1 = Throw e) /\ db out.2 = db w.
Proof.
  intros Htr. cbv zeta. unfold Queries.completeQCStep, bind.
  destruct (query_cases (SELECT_open_step S C) w)
    as [(e & w1 & -> & Hd & _)|(found & d & Hs & ->)].
  - cbn. split; [right; eauto|exact Hd].
  - unfold SELECT_open_step in Hs. injection Hs as <- <-.
    destruct (option_list _) as [|r rest]; cbn [ret fst snd].
    + split; [now left|reflexivity].
    + set (w1 := with_db _ _).
      assert (Hw1 : db w1 = db w) by reflexivity.
      destruct (query_cases (UPDATE_complete scan (ID r) now) w1)
        as [(e & w2 & -> & Hd & _)|(rs & d & Hs & _)].
      * cbn. split; [right; eauto|congruence].
      * unfold UPDATE_complete in Hs. rewrite Hw1, Htr in Hs. discriminate.
Qed.

(** The exit scan of "X1" on such a database, without the procedures. *)
Lemma direct_completion_blocked_by_trigger_witness :
  ((Queries.completeQCStep 1 "X1" 8 5000 (Sample.world_X1_trigger [])).1 = Ok None
   \/ exists e, (Queries.completeQCStep 1 "X1" 8 5000 (Sample.world_X1_trigger [])).1 = Throw e)
  /\ db (Queries.completeQCStep 1 "X1" 8 5000 (Sample.world_X1_trigger [])).2
     = db (Sample.world_X1_trigger []).
Proof.
  apply (direct_completion_blocked_by_trigger 1 "X1" 8 5000 (Sample.world_X1_trigger [])).
  reflexivity.
Defined.

Lemma open_row_counted (S : Z) (C : string) (l : list QCStep) :
  (0 <? length (List.filter (fun r => for_code S C r && negb (Completed r)) l))%nat = true
  <-> exists r, In r l /\ for_code S C r = true /\ Completed r = false.
Proof.
  rewrite Nat.ltb_lt. split.
  - destruct (List.filter _ l) as [|r rest] eqn:Hfil; [cbn; lia|]. intros _.
    assert (Hin : In r (List.filter (fun r => for_code S C r && negb (Completed r)) l))
      by (rewrite Hfil; now left).
    apply filter_In in Hin as [Hin Hp]. apply andb_true_iff in Hp as [Hc Ho].
    apply negb_true_iff in Ho. eauto.
  - intros (r & Hin & Hc & Ho).
    assert (Hr : In r (List.filter (fun r => for_code S C r && negb (Completed r)) l))
      by (apply filter_In; split; [exact Hin|now rewrite Hc, Ho]).
    destruct (List.filter _ l); [destruct Hr|cbn; lia].
Qed.

(** X21.  hasActiveStepForQRCode never rejects and never writes.  When the
    round trip answers, it is true exactly when the session has a row for
    the code whose completion flag is unset; when the round trip fails,
    it answers false. *)
Theorem hasActiveStepForQRCode_meaning (S : Z) (C : string) (w : World) :
  let out := Queries.hasActiveStepForQRCode S C w in
  exists b,
    out.1 = Ok b /\ db out.2 = db w
    /\ (head (faults w) = Some true -> b = false)
    /\ (head (faults w) <> Some true ->
        (b = true <-> exists r, In r (steps (db w)) /\ for_code S C r = true
                                /\ Completed r = false)).
Proof.
  cbv zeta. unfold Queries.hasActiveStepForQRCode, catch, bind.
  destruct (faults w) as [|[|] rest] eqn:Hf.
  - rewrite (query_quiet _ w Hf). unfold SELECT_active_count. cbn [fst snd ret db with_db head].
    eexists. split; [reflexivity|]. split; [reflexivity|]. split; [discriminate|].
    intros _. apply open_row_counted.
  - rewrite (query_fault _ w rest Hf). cbn [fst snd ret db with_faults head].
    exists false. split; [reflexivity|]. split; [reflexivity|]. split; [reflexivity|].
    intros Hh. now destruct Hh.
  - rewrite query_answered by (rewrite Hf; discriminate).
    unfold SELECT_active_count. cbn [fst snd ret db with_db with_faults head].
    eexists. split; [reflexivity|]. split; [reflexivity|]. split; [discriminate|].
    intros _. apply open_row_counted.
Qed.

End Invariants.

(** ** Witnesses of the invariants *)

Section InvariantWitnesses.
Import Store Spec.

(** The first scan of session 1 on a fresh logic and an empty table. *)
Lemma scan_keeps_cache_exact_witness :
  exists o w',
    Logic.processQRScan Logic.default_config 1 "X1" 7 1000 (Sample.world Sample.procedures [])
    = (Ok o, w')
    /\ faults w' = [] /\ store_ok (db w') /\ cache_exact w'.
Proof.
  eexists. eexists. split; [vm_compute; reflexivity|].
  eapply (scan_keeps_cache_exact Logic.default_config 1 "X1" 7 1000
            (Sample.world Sample.procedures [])).
  - reflexivity.
  - split; [intros r []|]. split; [apply NoDup_nil_2|intros r []].
  - intros S. reflexivity.
  - vm_compute. reflexivity.
Defined.

(** The direct INSERT of the first item of session 1. *)
Lemma statements_keep_open_rows_active_witness :
  exists rs d',
    INSERT_step 1 "X1" 7 1000 (Sample.database []) = Done rs d'
    /\ open_rows_active (steps d').
Proof.
  eexists. eexists. split; [vm_compute; reflexivity|].
  refine (proj1 (proj2 (statements_keep_open_rows_active (Sample.database []) _ _))
            1 "X1" 7 1000 _ _).
  - intros r [].
  - vm_compute. reflexivity.
Defined.

(** "X1" was completed at instant 5000; it is scanned again the same day. *)
Lemma finished_row_blocks_reentry_witness :
  Logic.processQRScan Logic.default_config 1 "X1" 9 9000
    (Sample.world_X1_done Sample.procedures [])
  = (Ok (Logic.failure Logic.already_completed None entrance),
     (Logic.getActiveStepsCount 1 (Sample.world_X1_done Sample.procedures [])).2).
Proof.
  apply (finished_row_blocks_reentry Logic.default_config 1 "X1" 9 9000
           (Sample.world_X1_done Sample.procedures []) _ Sample.item_X1_done 0%nat).
  - reflexivity.
  - eexists. split; reflexivity.
  - reflexivity.
  - reflexivity.
  - reflexivity.
  - vm_compute. reflexivity.
  - reflexivity.
Defined.

End InvariantWitnesses.

(** ** validateQRCode: the normalised code *)

Section Normalised.
Import Spec.

Lemma chars_rev_app (s acc : string) :
  chars (String.rev_app s acc) = List.rev (chars s) ++ chars acc.
Proof.
  revert acc. induction s as [|a s IH]; intros acc; [reflexivity|].
  cbn [String.rev_app chars String.list_ascii_of_string List.rev].
  fold chars. rewrite IH. cbn [chars String.list_ascii_of_string]. fold chars.
  now rewrite <- app_assoc.
Qed.

Lemma chars_rev (s : string) : chars (String.rev s) = List.rev (chars s).
Proof. unfold String.rev. rewrite chars_rev_app. cbn. apply app_nil_r. Qed.

Lemma chars_trim_start (s : string) : chars (Logic.trim_start s) = drop_spaces (chars s).
Proof.
  induction s as [|a s IH]; [reflexivity|].
  cbn [Logic.trim_start chars String.list_ascii_of_string drop_spaces]. fold chars.
  destruct (Logic.is_space a); [exact IH|reflexivity].
Qed.

Lemma drop_spaces_split (l : list ascii) :
  exists p, l = p ++ drop_spaces l /\ drop_spaces (drop_spaces l) = drop_spaces l
            /\ (forall a rest, drop_spaces l = a :: rest -> Logic.is_space a = false).
Proof.
  induction l as [|a l (p & Hp & Hi & Hh)]; [exists []; repeat split; discriminate|].
  cbn [drop_spaces]. destruct (Logic.is_space a) eqn:Ha.
  - exists (a :: p). cbn. rewrite <- Hp. auto.
  - exists []. split; [reflexivity|]. split.
    + cbn [drop_spaces]. now rewrite Ha.
    + intros a' rest [= <- _]. exact Ha.
Qed.

Lemma drop_spaces_clean (l : list ascii) :
  (forall a rest, l = a :: rest -> Logic.is_space a = false) -> drop_spaces l = l.
Proof.
  destruct l as [|a l]; [reflexivity|]. intros H. cbn. now rewrite (H a l eq_refl).
Qed.

Lemma chars_trim (s : string) :
  chars (Logic.trim s) = List.rev (drop_spaces (List.rev (drop_spaces (chars s)))).
Proof. unfold Logic.trim. now rewrite chars_rev, chars_trim_start, chars_rev, chars_trim_start. Qed.

Lemma chars_inj (s t : string) : chars s = chars t -> s = t.
Proof.
  intros H. rewrite <- (String.string_of_list_ascii_of_string s),
    <- (String.string_of_list_ascii_of_string t). unfold chars in H. now rewrite H.
Qed.

Lemma trim_trim (s : string) : Logic.trim (Logic.trim s) = Logic.trim s.
Proof.
  apply chars_inj. rewrite (chars_trim (Logic.trim s)), (chars_trim s).
  set (a := drop_spaces (chars s)). set (b := drop_spaces (List.rev a)).
  destruct (drop_spaces_split (chars s)) as (_ & _ & _ & Ha). fold a in Ha.
  destruct (drop_spaces_split (List.rev a)) as (p & Hp & Hb & _). fold b in Hp, Hb.
  assert (Hclean : drop_spaces (List.rev b) = List.rev b).
  { apply drop_spaces_clean. intros x rest Hx.
    assert (Ha' : a = List.rev b ++ List.rev p).
    { rewrite <- (rev_involutive a), Hp, rev_app_distr. reflexivity. }
    rewrite Hx in Ha'. exact (Ha x _ Ha'). }
  rewrite Hclean, rev_involutive, Hb. reflexivity.
Qed.

(** X22.  What validateQRCode hands back as normalizedCode is a fixed
    point of the validation: it is accepted, and it is its own
    normalised form (trimming it again changes nothing). *)
Theorem normalised_code_is_stable (qrCode n : string) :
  Logic.normalizedCode (Logic.validateQRCode qrCode) = Some n ->
  Logic.validateQRCode n = Logic.mkCodeValidation true (Some n)
  /\ Logic.trim n = n.
Proof.
  unfold Logic.validateQRCode at 1.
  destruct (String.eqb qrCode ""); [discriminate|].
  destruct (Nat.ltb_spec (String.length (Logic.trim qrCode)) 5) as [|H5]; [discriminate|].
  destruct (Nat.ltb_spec 500 (String.length (Logic.trim qrCode))) as [|H500]; [discriminate|].
  destruct (forallb _ _) eqn:Hall; [|discriminate].
  cbn. intros [= <-]. split; [|apply trim_trim].
  unfold Logic.validateQRCode. rewrite trim_trim.
  destruct (String.eqb_spec (Logic.trim qrCode) "") as [He|_].
  { rewrite He in H5. cbn in H5. lia. }
  destruct (Nat.ltb_spec (String.length (Logic.trim qrCode)) 5); [lia|].
  destruct (Nat.ltb_spec 500 (String.length (Logic.trim qrCode))); [lia|].
  now rewrite Hall.
Qed.

(** A code with blanks around it. *)
Lemma normalised_code_is_stable_witness :
  Logic.normalizedCode (Logic.validateQRCode "  ABC-123  ") = Some "ABC-123"
  /\ Logic.validateQRCode "ABC-123" = Logic.mkCodeValidation true (Some "ABC-123")
  /\ Logic.trim "ABC-123" = "ABC-123".
Proof.
  split; [reflexivity|].
  apply (normalised_code_is_stable "  ABC-123  " "ABC-123"). reflexivity.
Defined.

End Normalised.

(** ** The two scans of one item *)

Section RoundTrip.
Import Store Spec.

Variable config : Logic.Config.

Lemma startQCStep_new (S : Z) (C : string) (scan now : Z) (w : World) :
  faults w = [] ->
  List.filter (for_code S C) (steps (db w)) = [] ->
  fits 500 C = true ->
  1 <= Logic.defaultPriority config <= 3 ->
  existsb (fun s => s_ID s =? S) (sessions (db w)) = true ->
  existsb (Z.eqb scan) (scans (db w)) = true ->
  exists p a,
    1 <= p <= 3
    /\ Logic.startQCStep config S C scan None now w
       = (Ok (Some (new_step (db w) S C scan p now)),
          with_db w (mkDB (steps (db w) ++ [new_step (db w) S C scan p now]) a
                          (sessions (db w)) (scans (db w)) (routines (db w))
                          (update_trigger (db w)) (identity (db w) + 1))).
Proof.
  intros Hq Hfresh Hfit Hprio Hsess Hscan.
  unfold Logic.startQCStep, bind.
  destruct (hasStoredProcedure_quiet "sp_StartQCStep" w Hq) as [b ->].
  destruct b.
  - rewrite (query_quiet _ w Hq). unfold sp_StartQCStep.
    rewrite (nvarchar_fits 500 C Hfit).
    assert (existsb (fun r => for_code S C r && is_active r) (steps (db w)) = false) as ->.
    { apply not_true_is_false. intros Hex.
      apply existsb_exists in Hex as (x & Hx & Hp).
      apply andb_true_iff in Hp as [Hfc _].
      assert (In x (List.filter (for_code S C) (steps (db w)))) as Hin
        by (apply List.filter_In; auto).
      rewrite Hfresh in Hin. destruct Hin. }
    unfold insert_step.
    assert (Logic.js_or None (Logic.defaultPriority config) = Logic.defaultPriority config)
      as -> by reflexivity.
    rewrite row_ok_new_step by assumption.
    exists (Logic.defaultPriority config). eexists. split; [exact Hprio|]. reflexivity.
  - unfold Queries.startQCStep, bind.
    rewrite (query_quiet _ w Hq). unfold INSERT_step, insert_step.
    rewrite row_ok_new_step by (auto; lia).
    exists 1. eexists. split; [lia|]. reflexivity.
Qed.

Lemma entry_starts (S : Z) (C : string) (scan now : Z) (w : World) :
  faults w = [] -> store_ok (db w) -> cache_exact w ->
  Z.of_nat (active_count S (steps (db w))) < Logic.maxParallelStepsPerSession config ->
  List.filter (for_code S C) (steps (db w)) = [] ->
  fits 500 C = true ->
  1 <= Logic.defaultPriority config <= 3 ->
  existsb (fun s => s_ID s =? S) (sessions (db w)) = true ->
  existsb (Z.eqb scan) (scans (db w)) = true ->
  exists p a w1,
    1 <= p <= 3
    /\ Logic.processEntranceScan config S C scan now w
       = (Ok (Logic.mkOutcome true Logic.entrance_started
                (Some (new_step (db w) S C scan p now)) entrance None None None None
                (Some exit)), w1)
    /\ db w1 = mkDB (steps (db w) ++ [new_step (db w) S C scan p now]) a
                    (sessions (db w)) (scans (db w)) (routines (db w))
                    (update_trigger (db w)) (identity (db w) + 1)
    /\ faults w1 = [] /\ store_ok (db w1) /\ cache_exact w1.
Proof.
  intros Hq Hok Hex Hroom Hfresh Hfit Hprio Hsess Hscan.
  pose proof Hok as (Hopen & Hkey & _).
  destruct (getActiveStepsCount_exact S w Hq Hopen Hkey (cache_exact_coherent S w Hex))
    as (w0 & Hc & Hd0 & Hq0).
  rewrite <- Hd0 in Hfresh, Hsess, Hscan.
  destruct (startQCStep_new S C scan now w0 Hq0 Hfresh Hfit Hprio Hsess Hscan)
    as (p & a & Hp & Hstart).
  assert (Hrun : exists w1,
             Logic.processEntranceScan config S C scan now w
             = (Ok (Logic.mkOutcome true Logic.entrance_started
                      (Some (new_step (db w0) S C scan p now)) entrance None None None None
                      (Some exit)), w1)
             /\ db w1 = mkDB (steps (db w0) ++ [new_step (db w0) S C scan p now]) a
                             (sessions (db w0)) (scans (db w0)) (routines (db w0))
                             (update_trigger (db w0)) (identity (db w0) + 1)).
  { unfold Logic.processEntranceScan, catch, bind. rewrite Hc.
    destruct (Z.geb_spec (Z.of_nat (active_count S (steps (db w))))
                (Logic.maxParallelStepsPerSession config)); [lia|].
    rewrite (completedToday_quiet S now w0 Hq0).
    assert (existsb (fun st => String.eqb (QrCode st) C)
              (List.filter (fun r => (SessionID r =? S) && Completed r
                                     && (date_of (StartTime r) =? date_of now))
                           (steps (db w0))) = false) as ->.
    { apply not_true_is_false. intros Hex'.
      apply existsb_exists in Hex' as (x & Hx & Hcode).
      apply filter_In in Hx as [Hx Hpx].
      apply andb_true_iff in Hpx as [Hpx _]. apply andb_true_iff in Hpx as [HS _].
      assert (In x (List.filter (for_code S C) (steps (db w0)))) as Hin
        by (apply List.filter_In; split; [exact Hx|unfold for_code; now rewrite HS, Hcode]).
      rewrite Hfresh in Hin. destruct Hin. }
    rewrite Hstart. cbn. eexists. split; reflexivity. }
  destruct Hrun as (w1 & Hrun & Hdb1).
  destruct (entry_keeps_exact config S C scan now w w1 _ Hq Hok Hex Hrun) as (Hq1 & Hok1 & Hex1).
  rewrite Hd0 in Hrun, Hdb1. exists p, a, w1.
  split; [exact Hp|]. split; [exact Hrun|]. split; [exact Hdb1|]. auto.
Qed.

Lemma update_last (p : QCStep -> bool) (f : QCStep -> QCStep) (d : DB)
    (l : list QCStep) (r : QCStep) :
  steps d = l ++ [r] ->
  (forall x, In x l -> p x = false) -> p r = true -> row_ok d (f r) = true ->
  update_where p f d = Done 1%nat (with_steps d (l ++ [f r])).
Proof.
  intros Hs Hl Hr Hok. unfold update_where. rewrite Hs.
  rewrite forallb_app, List.filter_app, map_app. cbn [forallb List.filter map].
  rewrite Hr, Hok.
  assert (forallb (fun r0 => if p r0 then row_ok d (f r0) else true) l = true) as ->.
  { apply forallb_forall. intros x Hx. now rewrite (Hl x Hx). }
  rewrite (filter_none_in p l Hl).
  assert (map (fun r0 => if p r0 then f r0 else r0) l = l) as ->.
  { rewrite <- (map_id l) at 2. apply map_ext_in. intros x Hx. now rewrite (Hl x Hx). }
  reflexivity.
Qed.

Lemma filter_last {A} (p : A -> bool) (l : list A) (r : A) :
  (forall x, In x l -> p x = false) -> p r = true -> List.filter p (l ++ [r]) = [r].
Proof.
  intros Hl Hr. rewrite List.filter_app, (filter_none_in p l Hl). cbn. now rewrite Hr.
Qed.

Lemma exit_completes (S : Z) (C : string) (scan1 scan2 p t1 t2 : Z) (w1 : World)
    (d0 : DB) (l : list QCStep) :
  let r := new_step d0 S C scan1 p t1 in
  faults w1 = [] -> steps (db w1) = l ++ [r] ->
  (forall x, In x l -> for_code S C x = false /\ ID x <> ID r) ->
  1 <= p <= 3 -> fits 500 C = true -> t1 <= t2 ->
  existsb (fun s => s_ID s =? S) (sessions (db w1)) = true ->
  existsb (Z.eqb scan1) (scans (db w1)) = true ->
  existsb (Z.eqb scan2) (scans (db w1)) = true ->
  (0 <? length (List.filter (String.eqb "sp_CompleteQCStep") (routines (db w1))))%nat = true
  \/ update_trigger (db w1) = false ->
  exists r' w2,
    Logic.processExitScan S C scan2 r t2 w1
    = (Ok (Logic.mkOutcome true Logic.exit_completed (Some r') exit None None None
             (Some ((t2 - t1) / 1000)) (Some entrance)), w2)
    /\ steps (db w2) = l ++ [r']
    /\ ID r' = ID r /\ SessionID r' = S /\ QrCode r' = C
    /\ Completed r' = true /\ EndScanID r' = Some scan2 /\ EndTime r' = Some t2
    /\ StartScanID r' = Some scan1 /\ StartTime r' = t1.
Proof.
  intros r Hq Hsteps Hl Hp Hfit Htime Hsess Hscan1 Hscan2 Hpath.
  assert (Hcode : for_code S C r = true).
  { unfold for_code, r, new_step. cbn. now rewrite Z.eqb_refl, String.eqb_refl. }
  assert (Hid : forall x, In x l -> (ID x =? ID r) = false).
  { intros x Hx. apply Z.eqb_neq. now apply Hl. }
  assert (Hprio : (1 <=? p) && (p <=? 3) = true).
  { apply andb_true_iff. split; apply Z.leb_le; lia. }
  assert (Htimes : (t1 <=? t2) = true) by (apply Z.leb_le; lia).
  unfold fits in Hfit.
  unfold Logic.processExitScan, catch, bind.
  assert (String.eqb (QrCode r) C = true) as -> by apply String.eqb_refl.
  cbn [negb]. unfold Logic.completeQCStep, bind.
  rewrite (hasStoredProcedure_installed _ w1 Hq).
  destruct (0 <? length (List.filter (String.eqb "sp_CompleteQCStep") (routines (db w1))))%nat
    eqn:Hsp.
  - rewrite (query_quiet _ w1 Hq). unfold sp_CompleteQCStep.
    rewrite (nvarchar_fits 500 C Hfit), Hsteps.
    rewrite (filter_last (fun r0 => for_code S C r0 && is_active r0) l r)
      by (try (intros x Hx; destruct (Hl x Hx) as [-> _]; reflexivity);
          rewrite Hcode; reflexivity).
    cbn [top1_latest fold_left option_map].
    rewrite (update_last _ (complete_image scan2 None false None None t2) (db w1) l r
               Hsteps Hid (Z.eqb_refl _)).
    2:{ unfold row_ok, checks, foreign_keys, CK_Times, CK_Completed, CK_Priority,
          CK_QualityRating, CK_DefectLogic, column_sizes, references, fits, fits_opt.
        cbn. rewrite Htimes, Hprio, Hfit, Hsess, Hscan1, Hscan2. reflexivity. }
    cbn [with_steps steps with_audit audit].
    rewrite (filter_last (fun r0 => ID r0 =? ID r) l _ Hid) by apply Z.eqb_refl.
    cbn. do 2 eexists. split; [reflexivity|]. cbn. repeat split.
  - destruct Hpath as [Hpath|Htrig]; [discriminate|].
    unfold Queries.completeQCStep, bind.
    rewrite (query_quiet _ w1 Hq). unfold SELECT_open_step. rewrite Hsteps.
    rewrite (filter_last (fun r0 => for_code S C r0 && negb (Completed r0)) l r)
      by (try (intros x Hx; destruct (Hl x Hx) as [-> _]; reflexivity);
          rewrite Hcode; reflexivity).
    cbn [top1_latest fold_left]. rewrite with_db_same.
    change (option_list (Some r)) with [r]. cbv beta iota.
    rewrite (query_quiet _ w1 Hq). unfold UPDATE_complete. rewrite Htrig.
    rewrite (update_last _ (complete_image_plain scan2 t2) (db w1) l r
               Hsteps Hid (Z.eqb_refl _)).
    2:{ unfold row_ok, checks, foreign_keys, CK_Times, CK_Completed, CK_Priority,
          CK_QualityRating, CK_DefectLogic, column_sizes, references, fits, fits_opt.
        cbn. rewrite Htimes, Hprio, Hfit, Hsess, Hscan1, Hscan2. reflexivity. }
    cbn [with_steps steps].
    rewrite (filter_last (fun r0 => ID r0 =? ID r) l _ Hid) by apply Z.eqb_refl.
    cbn. do 2 eexists. split; [reflexivity|]. cbn. repeat split.
Qed.

(** X23.  The two scans of one item.  On a store that answers, with the
    table well formed and the cache exact, a first scan of a code that the
    session has no row for, below the limit, starts an item, and a second
    scan of the code completes that very item: it carries the two scan
    IDs and the two instants, the outcome reports the whole seconds
    between them, and afterwards the session has as many active items as
    before, in the table and in the cache.  The completion needs
    sp_CompleteQCStep, or else a table without the update trigger. *)
Theorem entry_then_exit_completes (S : Z) (C : string) (scan1 scan2 t1 t2 : Z) (w : World) :
  faults w = [] -> store_ok (db w) -> cache_exact w -> session_valid S (db w) ->
  Z.of_nat (active_count S (steps (db w))) < Logic.maxParallelStepsPerSession config ->
  List.filter (for_code S C) (steps (db w)) = [] ->
  fits 500 C = true ->
  1 <= Logic.defaultPriority config <= 3 ->
  existsb (Z.eqb scan1) (scans (db w)) = true ->
  existsb (Z.eqb scan2) (scans (db w)) = true ->
  (0 <? length (List.filter (String.eqb "sp_CompleteQCStep") (routines (db w))))%nat = true
  \/ update_trigger (db w) = false ->
  t1 <= t2 ->
  exists o1 w1 o2 w2 r r',
    Logic.processQRScan config S C scan1 t1 w = (Ok o1, w1)
    /\ Logic.type o1 = Logic.entrance_started /\ Logic.qcStep o1 = Some r
    /\ steps (db w1) = steps (db w) ++ [r] /\ awaiting_exit r = true
    /\ Logic.processQRScan config S C scan2 t2 w1 = (Ok o2, w2)
    /\ Logic.type o2 = Logic.exit_completed /\ Logic.qcStep o2 = Some r'
    /\ Logic.durationSeconds o2 = Some ((t2 - t1) / 1000)
    /\ steps (db w2) = steps (db w) ++ [r']
    /\ ID r' = ID r /\ SessionID r' = S /\ QrCode r' = C /\ Completed r' = true
    /\ StartScanID r' = Some scan1 /\ EndScanID r' = Some scan2
    /\ StartTime r' = t1 /\ EndTime r' = Some t2
    /\ active_count S (steps (db w2)) = active_count S (steps (db w))
    /\ store_ok (db w2) /\ cache_exact w2.
Proof.
  intros Hq Hok Hex Hvalid Hroom Hfresh Hfit Hprio Hscan1 Hscan2 Hpath Htime.
  assert (Hsess : existsb (fun s => s_ID s =? S) (sessions (db w)) = true).
  { destruct Hvalid as (row & Hfind & _). apply existsb_exists.
    apply find_some in Hfind as [Hin Hrow]. eauto. }
  assert (Hnone : forall x, In x (steps (db w)) -> for_code S C x = false).
  { intros x Hx. destruct (for_code S C x) eqn:Hc; [|reflexivity].
    assert (In x (List.filter (for_code S C) (steps (db w)))) as Hin
      by (apply List.filter_In; auto).
    rewrite Hfresh in Hin. destruct Hin. }
  (* the first scan *)
  destruct (entry_starts S C scan1 t1 w Hq Hok Hex Hroom Hfresh Hfit Hprio Hsess Hscan1)
    as (p & a & w1 & Hp & Hentry & Hdb1 & Hq1 & Hok1 & Hex1).
  set (r := new_step (db w) S C scan1 p t1) in *.
  assert (Hscan_1 : Logic.processQRScan config S C scan1 t1 w
                    = Logic.processEntranceScan config S C scan1 t1 w).
  { rewrite (processQRScan_by_completion_flag config S C scan1 t1 w Hvalid)
      by (rewrite Hq; reflexivity).
    cbv zeta. unfold latest. rewrite Hfresh, Hq. cbn [drop top1_latest fold_left].
    now rewrite (with_faults_quiet w Hq). }
  (* the second scan *)
  assert (Hsteps1 : steps (db w1) = steps (db w) ++ [r]) by now rewrite Hdb1.
  assert (Hvalid1 : session_valid S (db w1)) by (unfold session_valid; now rewrite Hdb1).
  assert (Hscan_2 : Logic.processQRScan config S C scan2 t2 w1
                    = Logic.processExitScan S C scan2 r t2 w1).
  { rewrite (processQRScan_by_completion_flag config S C scan2 t2 w1 Hvalid1)
      by (rewrite Hq1; reflexivity).
    cbv zeta. unfold latest. rewrite Hsteps1.
    rewrite (filter_last (for_code S C) (steps (db w)) r Hnone)
      by (unfold for_code, r, new_step; cbn; now rewrite Z.eqb_refl, String.eqb_refl).
    rewrite Hq1. cbn [drop top1_latest fold_left]. cbn [Completed r new_step negb].
    now rewrite (with_faults_quiet w1 Hq1). }
  destruct (exit_completes S C scan1 scan2 p t1 t2 w1 (db w) (steps (db w)))
    as (r' & w2 & Hexit & Hsteps2 & Hid' & HS' & HC' & Hdone & Hend & Hendt & Hst & Hstt);
    try assumption.
  { intros x Hx. split; [now apply Hnone|].
    destruct Hok as (_ & _ & Hbelow). destruct (Hbelow x Hx) as [Hlt _].
    unfold new_step. cbn [ID]. lia. }
  { now rewrite Hdb1. }
  { now rewrite Hdb1. }
  { now rewrite Hdb1. }
  { now rewrite Hdb1. }
  fold r in Hexit, Hid'.
  destruct (exit_keeps_exact S C scan2 r t2 w1 w2 _ Hq1 Hok1 Hex1 Hexit) as (_ & Hok2 & Hex2).
  exists (Logic.mkOutcome true Logic.entrance_started (Some r) entrance None None None None
                          (Some exit)), w1.
  eexists. exists w2, r, r'.
  rewrite Hscan_1, Hscan_2. split; [exact Hentry|]. split; [reflexivity|].
  split; [reflexivity|]. split; [exact Hsteps1|]. split; [reflexivity|].
  split; [exact Hexit|]. cbn [Logic.type Logic.qcStep Logic.durationSeconds].
  repeat (split; [first [reflexivity|assumption]|]).
  split; [|auto].
  rewrite Hsteps2, active_count_app. unfold active_count at 2. cbn [List.filter].
  unfold awaiting_exit. rewrite Hdone. cbn [negb]. rewrite !andb_false_r.
  cbn [length]. lia.
Qed.

End RoundTrip.

(** "X1" enters at instant 1000 with scan 7 and leaves at instant 5000
    with scan 8, the procedures installed. *)
Lemma entry_then_exit_completes_witness :
  exists o1 w1 o2 w2 r r',
    Logic.processQRScan Logic.default_config 1 "X1" 7 1000 (Sample.world Sample.procedures [])
    = (Ok o1, w1)
    /\ Logic.type o1 = Logic.entrance_started /\ Logic.qcStep o1 = Some r
    /\ Store.steps (db w1) = Store.steps (db (Sample.world Sample.procedures [])) ++ [r]
    /\ Spec.awaiting_exit r = true
    /\ Logic.processQRScan Logic.default_config 1 "X1" 8 5000 w1 = (Ok o2, w2)
    /\ Logic.type o2 = Logic.exit_completed /\ Logic.qcStep o2 = Some r'
    /\ Logic.durationSeconds o2 = Some ((5000 - 1000) / 1000)
    /\ Store.steps (db w2) = Store.steps (db (Sample.world Sample.procedures [])) ++ [r']
    /\ Store.ID r' = Store.ID r /\ Store.SessionID r' = 1 /\ Store.QrCode r' = "X1"
    /\ Store.Completed r' = true
    /\ Store.StartScanID r' = Some 7 /\ Store.EndScanID r' = Some 8
    /\ Store.StartTime r' = 1000 /\ Store.EndTime r' = Some 5000
    /\ Spec.active_count 1 (Store.steps (db w2))
       = Spec.active_count 1 (Store.steps (db (Sample.world Sample.procedures [])))
    /\ Spec.store_ok (db w2) /\ Spec.cache_exact w2.
Proof.
  apply (entry_then_exit_completes Logic.default_config 1 "X1" 7 8 1000 5000
           (Sample.world Sample.procedures [])).
  - reflexivity.
  - split; [intros r []|]. split; [apply NoDup_nil_2|intros r []].
  - intros S. reflexivity.
  - eexists. split; reflexivity.
  - vm_compute. reflexivity.
  - reflexivity.
  - reflexivity.
  - vm_compute. split; discriminate.
  - reflexivity.
  - reflexivity.
  - now left.
  - vm_compute. discriminate.
Defined.

(** ** The start handler and the cache of the scan workflow *)

Section StaleCache.
Import Store Spec.

(** X27.  startQCStep does not maintain activeStepsCache; only
    processEntranceScan does.  So when a session's count is cached and a
    step is started through the quality-control-start-step handler, the
    cache keeps the old set: the next getActiveStepsCount answers the
    count from before the start, one less than the table holds. *)
Theorem start_step_handler_stales_cache (config : Logic.Config) (S : Z) (C : string)
    (scan now : Z) (t : MainApp.Tracking) (w : World) (ids : gset Z) :
  faults w = [] -> store_ok (db w) ->
  activeStepsCache w !! S = Some ids -> ids = active_ids S (steps (db w)) ->
  List.filter (for_code S C) (steps (db w)) = [] ->
  fits 500 C = true ->
  1 <= Logic.defaultPriority config <= 3 ->
  existsb (fun s => s_ID s =? S) (sessions (db w)) = true ->
  existsb (Z.eqb scan) (scans (db w)) = true ->
  exists r t' w',
    MainApp.quality_control_start_step true config S C scan now t w = (Ok (Some r, t'), w')
    /\ activeStepsCache w' = activeStepsCache w
    /\ active_count S (steps (db w')) = Datatypes.S (active_count S (steps (db w)))
    /\ Logic.getActiveStepsCount S w' = (Ok (active_count S (steps (db w))), w').
Proof.
  intros Hq (Hopen & Hkey & _) Hcached Hids Hnew Hfit Hprio Hsess Hscan.
  assert (Hsize : size ids = active_count S (steps (db w))).
  { assert (Hcoh : cache_coherent S w) by (unfold cache_coherent; now rewrite Hcached).
    destruct (getActiveStepsCount_exact S w Hq Hopen Hkey Hcoh) as (w1 & Hc & _).
    unfold Logic.getActiveStepsCount, catch in Hc. rewrite Hcached in Hc. congruence. }
  destruct (startQCStep_fresh config S C scan now w Hq Hnew Hfit Hprio Hsess Hscan)
    as (r & d' & Hstart & Hsteps & HS & HC & Ha).
  unfold MainApp.quality_control_start_step, catch, bind. cbn [negb]. rewrite Hstart.
  cbn [ret]. do 3 eexists. split; [reflexivity|]. cbn [db with_db activeStepsCache].
  split; [reflexivity|]. split.
  - rewrite Hsteps, active_count_app. unfold active_count at 2.
    cbn [List.filter]. rewrite HS, Z.eqb_refl, Ha. cbn. lia.
  - unfold Logic.getActiveStepsCount, catch. cbn [activeStepsCache with_db].
    rewrite Hcached, Hsize. reflexivity.
Qed.

(** Session 1 has its count cached by a first use, then "X2" is started
    through the handler. *)
Lemma start_step_handler_stales_cache_witness :
  let w := (Logic.getActiveStepsCount 1 (Sample.world_X1 Sample.procedures [])).2 in
  exists r t' w',
    MainApp.quality_control_start_step true Logic.default_config 1 "X2" 8 2000
      (MainApp.mkTracking ∅ ∅) w = (Ok (Some r, t'), w')
    /\ activeStepsCache w' = activeStepsCache w
    /\ active_count 1 (steps (db w')) = Datatypes.S (active_count 1 (steps (db w)))
    /\ Logic.getActiveStepsCount 1 w' = (Ok (active_count 1 (steps (db w))), w').
Proof.
  cbv zeta.
  apply (start_step_handler_stales_cache Logic.default_config 1 "X2" 8 2000
           (MainApp.mkTracking ∅ ∅)
           (Logic.getActiveStepsCount 1 (Sample.world_X1 Sample.procedures [])).2
           {[1]}).
  - reflexivity.
  - split; [intros r [<-|[]] _; reflexivity|].
    split; [apply NoDup_singleton|].
    intros r [<-|[]]. split; [vm_compute; reflexivity|reflexivity].
  - vm_compute. reflexivity.
  - vm_compute. reflexivity.
  - reflexivity.
  - reflexivity.
  - vm_compute. split; discriminate.
  - reflexivity.
  - reflexivity.
Defined.

End StaleCache.
